(** * SEA-AI/yolov5: box postprocessing, model assembly and graph execution

    A shallow embedding of
    - [horizon/yolotrt/postprocessing.py]: box format conversions, the
      in-place coordinate transforms and greedy non-maximum suppression;
    - [hybrids/inference/ahoy.py]: the presentation adapters [to_mode],
      [to_tf] and [to_qa];
    - [models/custom.py] (and its older sibling [horizon/models.py]): the
      cutoff search, the in-place assembly of [HorizonModel] and [Hydra]
      from a loaded detection model, the forward passes of both, and the
      registration of the hooks of [AHOY].

    Conventions.
    - Python exceptions are the [Raise] outcomes of [result].
    - numpy floating point numbers are idealised as exact rationals [Qc]:
      rounding, infinities and NaN are outside the model.
    - A numpy array of shape (N,4) is a list of rows, each row a 4-tuple. *)

From Stdlib Require Import ZArith QArith Qcanon Lia Lqa String.
From stdpp Require Import base option numbers list list_monad sorting strings gmap.

Local Open Scope Z_scope.

(** ** Python outcomes *)

Inductive exn : Type :=
  | IndexError
  | ValueError
  | TypeError
  | AttributeError
  | KeyError
  | ZeroDivisionError.

Inductive result (A : Type) : Type :=
  | Ok (a : A)
  | Raise (e : exn).
Arguments Ok {A} a.
Arguments Raise {A} e.

#[global] Instance result_ret : MRet result := fun _ a => Ok a.
#[global] Instance result_bind : MBind result := fun _ _ k m =>
  match m with
  | Ok a => k a
  | Raise e => Raise e
  end.
#[global] Instance result_fmap : FMap result := fun _ _ g m =>
  match m with
  | Ok a => Ok (g a)
  | Raise e => Raise e
  end.

(** [l[k]] for a non-negative position: [IndexError] out of range. *)
Definition index {A} (l : list A) (k : nat) : result A :=
  match l !! k with
  | Some a => Ok a
  | None => Raise IndexError
  end.

(** [l[k]] for a Python integer: negative positions count from the end. *)
Definition py_index {A} (l : list A) (k : Z) : result A :=
  let n := Z.of_nat (length l) in
  if decide (0 <= k < n) then index l (Z.to_nat k)
  else if decide (- n <= k < 0) then index l (Z.to_nat (n + k))
  else Raise IndexError.

(** [l[:k]]: a slice never raises, it clamps. *)
Definition py_slice_to {A} (l : list A) (k : Z) : list A :=
  let n := Z.of_nat (length l) in
  if decide (0 <= k) then take (Z.to_nat k) l
  else take (Z.to_nat (n + k)) l.

(** Fancy indexing [a[idx]] with an integer index array. *)
Definition take_idx {A} (a : list A) (idx : list nat) : result (list A) :=
  mapM (index a) idx.

(** A stateful computation over a store [St]: an exception leaves the
    store as it was when it was raised. *)
Definition stateful (St A : Type) : Type := St -> St * result A.

Definition sret {St A} (a : A) : stateful St A := fun h => (h, Ok a).
Definition sbind {St A B} (m : stateful St A) (k : A -> stateful St B)
  : stateful St B :=
  fun h => match m h with
           | (h, Ok a) => k a h
           | (h, Raise e) => (h, Raise e)
           end.
Definition lift {St A} (r : result A) : stateful St A := fun h => (h, r).

Notation "'do' x <- m ; k" := (sbind m (fun x => k))
  (at level 10, x name, m at level 100, k at level 200).
Notation "'do' ' pat <- m ; k" := (sbind m (fun x => match x with pat => k end))
  (at level 10, pat pattern, m at level 100, k at level 200).

Definition loc : Type := nat.

(** ** Numbers *)

Module Num.
Local Open Scope Qc_scope.

Definition of_Z (z : Z) : Qc := Q2Qc (inject_Z z).
Definition frac (a : Z) (b : positive) : Qc := Q2Qc (Qmake a b).

Definition leb (a b : Qc) : bool := Qle_bool a b.
Definition eqb (a b : Qc) : bool := Qeq_bool a b.

(** [np.maximum], [np.minimum] and [ndarray.clip] on scalars. *)
Definition maximum (a b : Qc) : Qc := if leb a b then b else a.
Definition minimum (a b : Qc) : Qc := if leb a b then a else b.
Definition clip (lo hi v : Qc) : Qc := minimum hi (maximum lo v).

Definition abs (a : Qc) : Qc := if leb 0 a then a else - a.

(** The literal [1e-7]. *)
Definition eps : Qc := frac 1 10000000.
End Num.

(** ** [horizon/yolotrt/postprocessing.py]: pure functions *)

Definition box : Type := Qc * Qc * Qc * Qc.

Module Postprocessing.
Import Num.
Local Open Scope Qc_scope.

Definition cxcywh_to_xyxy (bboxes : list box) : list box :=
  map (fun '(center_x, center_y, width, height) =>
         let top_left_x := center_x - width / 2 in
         let top_left_y := center_y - height / 2 in
         let bottom_right_x := center_x + width / 2 in
         let bottom_right_y := center_y + height / 2 in
         (top_left_x, top_left_y, bottom_right_x, bottom_right_y)) bboxes.

Definition xyxy_to_xywh (bboxes : list box) : list box :=
  map (fun '(top_left_x, top_left_y, bottom_right_x, bottom_right_y) =>
         let width := bottom_right_x - top_left_x in
         let height := bottom_right_y - top_left_y in
         (top_left_x, top_left_y, width, height)) bboxes.

(** The (4,N) array of the source is held as the N rows of its transpose. *)
Definition intersection_box (target_box : box) (boxes : list box) : list box :=
  let '(x1, y1, x2, y2) := target_box in
  map (fun '(a1, b1, a2, b2) =>
         (maximum x1 a1, maximum y1 b1, minimum x2 a2, minimum y2 b2)) boxes.

Definition intersection_area (target_box : box) (boxes : list box) : list Qc :=
  map (fun '(xx1, yy1, xx2, yy2) =>
         let w := maximum 0 (xx2 - xx1 + 1) in
         let h := maximum 0 (yy2 - yy1 + 1) in
         w * h) (intersection_box target_box boxes).

(** [areas] and [boxes] are both indexed by [order[1:]] in [nms], so they
    have one length and the broadcast is element by element. *)
Definition iou (target_box : box) (boxes : list box)
           (target_area : Qc) (areas : list Qc) : list Qc :=
  let inter := intersection_area target_box boxes in
  let union := zip_with (fun a i => target_area + a - i) areas inter in
  let union := map (fun u => if eqb u 0 then u + eps else u) union in
  zip_with Qcdiv inter union.

(** The entry of [iou] for one candidate [b] of area [a]. *)
Definition iou1 (target_box b : box) (target_area a : Qc) : Qc :=
  default 0 (head (iou target_box [b] target_area [a])).

(** [(x2 - x1) * (y2 - y1)], line 220 of [nms]. *)
Definition area (b : box) : Qc :=
  let '(x1, y1, x2, y2) := b in (x2 - x1) * (y2 - y1).

(** The overlap [ovr] that [nms] computes for the pair of a kept box [a]
    and a candidate [b]. *)
Definition pair_iou (a b : box) : Qc := iou1 a b (area a) (area b).

(** [np.argsort]: positions in ascending order of their key.  numpy does
    not fix the order of equal keys; here ties stay in input order. *)
Fixpoint insert_pos (scores : list Qc) (k : nat) (sorted : list nat) : list nat :=
  match sorted with
  | [] => [k]
  | j :: rest =>
      if leb (default 0 (scores !! j)) (default 0 (scores !! k))
      then j :: insert_pos scores k rest
      else k :: j :: rest
  end.
Definition argsort (scores : list Qc) : list nat :=
  foldl (fun acc k => insert_pos scores k acc) [] (seq 0 (length scores)).

(** [np.where(mask)[0]] *)
Fixpoint where_from (k : nat) (mask : list bool) : list nat :=
  match mask with
  | [] => []
  | b :: rest => if b then k :: where_from (S k) rest else where_from (S k) rest
  end.
Definition where_ (mask : list bool) : list nat := where_from 0 mask.

(** [np.union1d]: the sorted union without repetitions. *)
Definition union1d (a b : list nat) : list nat :=
  merge_sort Nat.le (remove_dups (a ++ b)).

(** [bool(classes)] as [if classes:] computes it: [None] is false, an
    array of one element has the truth value of that element, an empty
    array is false, and a longer array raises [ValueError] ("the truth
    value of an array with more than one element is ambiguous"). *)
Definition truth (classes : option (list Z)) : result bool :=
  match classes with
  | None => Ok false
  | Some [] => Ok false
  | Some [c] => Ok (negb (c =? 0)%Z)
  | Some _ => Raise ValueError
  end.

(** The body of [if classes:], line 238: the positions of [order[1:]]
    whose class differs from that of [i] are added to [idxs]. *)
Definition different_class (classes : option (list Z)) (i : nat)
           (rest : list nat) (idxs : list nat) : result (list nat) :=
  match classes with
  | Some cls =>
      crest ← take_idx cls rest;
      ci ← index cls i;
      Ok (union1d idxs (where_ (map (fun c => negb (c =? ci)%Z) crest)))
  | None => Raise TypeError
  end.

(** One round of the [while] body of [nms], entered with
    [order = i :: rest] and [rest] non-empty; gives the next [order] and
    [keep]. *)
Definition nms_round (bboxes : list box) (areas : list Qc) (iou_thresh : Qc)
           (classes : option (list Z)) (i : nat) (rest : list nat)
           (keep : list bool) : result (list nat * list bool) :=
  index keep i;;
  let keep := <[i := true]> keep in
  bi ← index bboxes i;
  brest ← take_idx bboxes rest;
  ai ← index areas i;
  arest ← take_idx areas rest;
  let ovr := iou bi brest ai arest in
  let idxs := where_ (map (fun o => leb o iou_thresh) ovr) in
  t ← truth classes;
  idxs ← (if t : bool then different_class classes i rest idxs else Ok idxs);
  order ← take_idx (i :: rest) (map S idxs);
  Ok (order, keep).

(** The [while order.size > 1] loop; [None] is the loop still running
    when the fuel is used up. *)
Fixpoint nms_while (fuel : nat) (bboxes : list box) (areas : list Qc)
         (iou_thresh : Qc) (classes : option (list Z))
         (order : list nat) (keep : list bool) : option (result (list bool)) :=
  match order with
  | i :: (_ :: _) as rest =>
      match fuel with
      | O => None
      | S fuel =>
          match nms_round bboxes areas iou_thresh classes i rest keep with
          | Ok (order, keep) =>
              nms_while fuel bboxes areas iou_thresh classes order keep
          | Raise e => Some (Raise e)
          end
      end
  | _ => Some (Ok keep)
  end.

Definition nms (bboxes : list box) (scores : list Qc) (iou_thresh : Qc)
           (classes : option (list Z)) : option (result (list bool)) :=
  let areas := map area bboxes in
  let order := reverse (argsort scores) in
  let keep := replicate (length scores) false in
  nms_while (length scores) bboxes areas iou_thresh classes order keep.

End Postprocessing.

(** ** Notions of the specification *)

Module Spec.
Import Num.
Local Open Scope Qc_scope.

(** "Within floating tolerance": each coordinate of [a] is within [tol] of
    that of [b]. *)
Definition box_close (tol : Qc) (a b : box) : Prop :=
  let '(a1, a2, a3, a4) := a in
  let '(b1, b2, b3, b4) := b in
  abs (a1 - b1) <= tol /\ abs (a2 - b2) <= tol /\
  abs (a3 - b3) <= tol /\ abs (a4 - b4) <= tol.

(** A valid center-form box has a non-negative width and height. *)
Definition valid_cxcywh (b : box) : Prop :=
  let '(_, _, w, h) := b in 0 <= w /\ 0 <= h.

(** The inclusive pixel area [(x2-x1+1)*(y2-y1+1)], clipped at 0 on a
    negative width or height. *)
Definition inclusive_area (b : box) : Qc :=
  let '(x1, y1, x2, y2) := b in
  maximum 0 (x2 - x1 + 1) * maximum 0 (y2 - y1 + 1).

(** The overlap as the specification words it: the intersection and the
    area of each box are inclusive pixel areas, and a zero union is moved
    by a small epsilon. *)
Definition inclusive_iou (a b : box) : Qc :=
  let '(x1, y1, x2, y2) := a in
  let '(a1, b1, a2, b2) := b in
  let inter :=
    inclusive_area (maximum x1 a1, maximum y1 b1, minimum x2 a2, minimum y2 b2) in
  let union := inclusive_area a + inclusive_area b - inter in
  let union := if eqb union 0 then union + eps else union in
  inter / union.
End Spec.

(** The example of the specification: boxes [[0,0,10,10],[1,1,11,11]] with
    scores [0.9, 0.8] and threshold 0.3. *)
Module Example.
Import Num.
Definition boxes : list box :=
  [ (of_Z 0, of_Z 0, of_Z 10, of_Z 10); (of_Z 1, of_Z 1, of_Z 11, of_Z 11) ].
Definition scores : list Qc := [ frac 9 10; frac 8 10 ].
Definition iou_thresh : Qc := frac 3 10.
Definition classes : list Z := [0; 1].

(** A center-form box: center (5,5), width 4, height 2. *)
Definition centered : box := (of_Z 5, of_Z 5, of_Z 4, of_Z 2).

(** Three copies of one small box. *)
Definition small : box := (of_Z 0, of_Z 0, of_Z 1, of_Z 1).
Definition triple : list box := [ small; small; small ].
Definition triple_scores : list Qc := [ frac 9 10; frac 8 10; frac 7 10 ].
End Example.

(** ** numpy arrays held by reference *)

#[global] Instance Qc_inhabited : Inhabited Qc := populate 0%Qc.

(** A two-dimensional float array is a view: all the rows of a buffer and,
    of each row, [width] entries from [offset] on.  Basic slicing gives a
    view on the same buffer, indexing with a list of positions gives a new
    buffer.  [column] is [a[:, k]] and [row] is [a[r]], both views. *)
Module Np.

Record ndarray : Type := make {
  buffer : loc;
  offset : nat;
  width : nat
}.

Record column : Type := Column {
  column_buffer : loc;
  column_at : nat
}.

Record row : Type := Row {
  row_buffer : loc;
  row_at : nat;
  row_offset : nat;
  row_width : nat
}.

Abbreviation memory := (gmap loc (list (list Qc))).

Definition rows (mem : memory) (a : ndarray) : list (list Qc) :=
  mem !!! buffer a.

(** [len(a)] *)
Definition len (a : ndarray) : stateful memory nat :=
  fun mem => (mem, Ok (length (rows mem a))).

(** The box that a row holds in the four entries from [o] on, and the row
    with these entries replaced. *)
Definition box_at (o : nat) (r : list Qc) : box :=
  (r !!! o, r !!! (o + 1)%nat, r !!! (o + 2)%nat, r !!! (o + 3)%nat).

Definition set_box (o : nat) (b : box) (r : list Qc) : list Qc :=
  let '(x1, y1, x2, y2) := b in
  <[o := x1]> (<[(o + 1)%nat := y1]> (<[(o + 2)%nat := x2]>
    (<[(o + 3)%nat := y2]> r))).

Definition on_box (o : nat) (g : box -> box) (r : list Qc) : list Qc :=
  set_box o (g (box_at o r)) r.

(** The boxes that a view of four columns shows. *)
Definition boxes (mem : memory) (a : ndarray) : list box :=
  map (box_at (offset a)) (rows mem a).

(** The memory in which the box of each row of [a] is replaced by its
    image under [g]; the other entries and buffers are as before. *)
Definition map_boxes (a : ndarray) (g : box -> box) (mem : memory) : memory :=
  <[buffer a := map (on_box (offset a) g) (rows mem a)]> mem.

(** Each row of the buffer has the four entries of the view. *)
Definition shaped (mem : memory) (a : ndarray) : Prop :=
  Forall (fun r => (offset a + 4 <= length r)%nat) (rows mem a).

(** The numbers that a column shows. *)
Definition entries (mem : memory) (c : column) : list Qc :=
  map (fun r => r !!! column_at c) (mem !!! column_buffer c).

(** [a[:, :k]] *)
Definition slice_columns (a : ndarray) (k : nat) : ndarray :=
  make (buffer a) (offset a) (Nat.min k (width a)).

(** [a[:, k]] *)
Definition get_column (a : ndarray) (k : nat) : result column :=
  if Nat.ltb k (width a) then Ok (Column (buffer a) (offset a + k))
  else Raise IndexError.

(** The rows of [a], as iteration over [a] gives them. *)
Definition iter_rows (a : ndarray) : stateful memory (list row) :=
  fun mem =>
    (mem, Ok (map (fun r => Row (buffer a) r (offset a) (width a))
                  (seq 0 (length (rows mem a))))).

(** [a[:, idx] op= v] and [a[:, idx] = g(a[:, idx])] for distinct
    positions [idx]: each listed entry [e] of each row of the buffer
    becomes [g e]. *)
Definition update_columns (a : ndarray) (idx : list nat) (g : Qc -> Qc)
  : stateful memory unit :=
  fun mem =>
    if forallb (fun k => Nat.ltb k (width a)) idx
    then (<[buffer a :=
              map (fun r => foldr (fun k r => alter g (offset a + k)%nat r) r idx)
                  (rows mem a)]> mem, Ok tt)
    else (mem, Raise IndexError).

(** [a[:, idx]] for a list of positions: a copy in a new buffer. *)
Definition take_columns (a : ndarray) (idx : list nat)
  : stateful memory ndarray :=
  fun mem =>
    if forallb (fun k => Nat.ltb k (width a)) idx
    then
      let l := fresh (dom mem) in
      (<[l := map (fun r => map (fun k => r !!! (offset a + k)%nat) idx)
                  (rows mem a)]> mem,
       Ok (make l 0 (length idx)))
    else (mem, Raise IndexError).

End Np.

(** ** [horizon/yolotrt/postprocessing.py]: transforms in place *)

Module InPlace.
Import Num Np.
Local Open Scope Qc_scope.

Definition xyxy_to_xyxyn (bboxes : ndarray) (shape : Z * Z)
  : stateful memory ndarray :=
  let '(h, w) := shape in
  do _u <- update_columns bboxes [0; 2]%nat (fun v => v / of_Z w);
  do _u <- update_columns bboxes [1; 3]%nat (fun v => v / of_Z h);
  sret bboxes.

Definition xyxyn_to_xyxy (bboxes : ndarray) (shape : Z * Z)
  : stateful memory ndarray :=
  let '(h, w) := shape in
  do _u <- update_columns bboxes [0; 2]%nat (fun v => v * of_Z w);
  do _u <- update_columns bboxes [1; 3]%nat (fun v => v * of_Z h);
  sret bboxes.

Definition clip_boxes (boxes : ndarray) (shape : Z * Z)
  : stateful memory unit :=
  do _u <- update_columns boxes [0; 2]%nat (clip 0 (of_Z (snd shape)));
  update_columns boxes [1; 3]%nat (clip 0 (of_Z (fst shape))).

(** [a / b] on Python integers. *)
Definition true_div (a b : Z) : result Qc :=
  if (b =? 0)%Z then Raise ZeroDivisionError else Ok (of_Z a / of_Z b).

(** With a zero side in [from_shape] the gain is 0 and the source divides
    the boxes by 0.0, which leaves infinities or NaN in them; as all
    values that are not finite this is outside the model, where the
    quotient by 0 is 0. *)
Definition scale_boxes (bboxes : ndarray) (from_shape to_shape : Z * Z)
  : stateful memory ndarray :=
  do g0 <- lift (true_div (fst from_shape) (fst to_shape));
  do g1 <- lift (true_div (snd from_shape) (snd to_shape));
  let gain := minimum g0 g1 in
  let pad := ((of_Z (snd from_shape) - of_Z (snd to_shape) * gain) / 2,
              (of_Z (fst from_shape) - of_Z (fst to_shape) * gain) / 2) in
  do _u <- update_columns bboxes [0; 2]%nat (fun v => v - fst pad);
  do _u <- update_columns bboxes [1; 3]%nat (fun v => v - snd pad);
  do _u <- update_columns bboxes (seq 0 (Nat.min 4 (width bboxes)))
                          (fun v => v / gain);
  do _u <- clip_boxes bboxes to_shape;
  sret bboxes.

(** What the transforms leave of a box (x1, y1, x2, y2). *)
Definition normalised (shape : Z * Z) (b : box) : box :=
  let '(h, w) := shape in
  let '(x1, y1, x2, y2) := b in
  (x1 / of_Z w, y1 / of_Z h, x2 / of_Z w, y2 / of_Z h).

Definition denormalised (shape : Z * Z) (b : box) : box :=
  let '(h, w) := shape in
  let '(x1, y1, x2, y2) := b in
  (x1 * of_Z w, y1 * of_Z h, x2 * of_Z w, y2 * of_Z h).

Definition clipped (shape : Z * Z) (b : box) : box :=
  let '(h, w) := shape in
  let '(x1, y1, x2, y2) := b in
  (clip 0 (of_Z w) x1, clip 0 (of_Z h) y1,
   clip 0 (of_Z w) x2, clip 0 (of_Z h) y2).

Definition rescaled (from_shape to_shape : Z * Z) (b : box) : box :=
  let gain := minimum (of_Z (fst from_shape) / of_Z (fst to_shape))
                      (of_Z (snd from_shape) / of_Z (snd to_shape)) in
  let pad_x := (of_Z (snd from_shape) - of_Z (snd to_shape) * gain) / 2 in
  let pad_y := (of_Z (fst from_shape) - of_Z (fst to_shape) * gain) / 2 in
  let '(x1, y1, x2, y2) := b in
  clipped to_shape ((x1 - pad_x) / gain, (y1 - pad_y) / gain,
                    (x2 - pad_x) / gain, (y2 - pad_y) / gain).

End InPlace.

(** ** [hybrids/inference/ahoy.py]: presentation adapters

    [ahoy.py] takes [xyxy_to_xyxyn] from the [postprocessing] module next
    to it; the function of that name above is used. *)

Module AHOYv5.
Import Num Np.

Record tf_proposal : Type := {
  detection_boxes : ndarray;
  detection_scores : column;
  detection_classes : column;
  num_detections : nat
}.

(** [[b, cls_map[c], int(c), s]] *)
Record qa_entry : Type := {
  qa_box : row;
  qa_name : string;
  qa_class : Z;
  qa_score : Qc
}.

Inductive presentation : Type :=
  | TF (proposals : list tf_proposal)
  | QA (proposals : list (list qa_entry))
  | Raw (bboxes : list ndarray) (scores classes : list column).

(** [cls_map[c]] for a float [c]: the entry of the integer equal to [c]. *)
Definition lookup_class (cls_map : gmap Z string) (c : Qc) : result string :=
  if Pos.eqb (Qden c) 1
  then match cls_map !! Qnum c with
       | Some name => Ok name
       | None => Raise KeyError
       end
  else Raise KeyError.

(** [int(c)]: towards zero. *)
Definition int (c : Qc) : Z := Z.quot (Qnum c) (Zpos (Qden c)).

Fixpoint to_tf_loop (items : list (ndarray * column * column))
         (orig_shape : Z * Z) : stateful memory (list tf_proposal) :=
  match items with
  | [] => sret []
  | (bbs, scs, cls) :: items =>
      do bbs <- InPlace.xyxy_to_xyxyn bbs orig_shape;
      do bbs <- take_columns bbs [1; 0; 3; 2]%nat;
      do n <- len bbs;
      do proposals <- to_tf_loop items orig_shape;
      sret (Build_tf_proposal bbs scs cls n :: proposals)
  end.

Definition to_tf (bboxes : list ndarray) (scores classes : list column)
           (orig_shape : Z * Z) : stateful memory (list tf_proposal) :=
  to_tf_loop (zip (zip bboxes scores) classes) orig_shape.

Definition qa_entries (cls_map : gmap Z string)
           (items : list (row * Qc * Qc)) : result (list qa_entry) :=
  mapM (fun '(b, s, c) =>
          name ← lookup_class cls_map c;
          Ok (Build_qa_entry b name (int c) s)) items.

Fixpoint to_qa_loop (cls_map : gmap Z string)
         (items : list (ndarray * column * column))
         (orig_shape : Z * Z) : stateful memory (list (list qa_entry)) :=
  match items with
  | [] => sret []
  | (bbs, scs, cls) :: items =>
      do bbs <- InPlace.xyxy_to_xyxyn bbs orig_shape;
      do bs <- iter_rows bbs;
      do es <- (fun mem =>
                  (mem, qa_entries cls_map
                          (zip (zip bs (entries mem scs)) (entries mem cls))));
      do proposals <- to_qa_loop cls_map items orig_shape;
      sret (es :: proposals)
  end.

(** [not cls_map]: [None] or an empty mapping. *)
Definition to_qa (bboxes : list ndarray) (scores classes : list column)
           (orig_shape : Z * Z) (cls_map : option (gmap Z string))
  : stateful memory (list (list qa_entry)) :=
  match cls_map with
  | None => lift (Raise ValueError)
  | Some m =>
      if decide (m = ∅) then lift (Raise ValueError)
      else to_qa_loop m (zip (zip bboxes scores) classes) orig_shape
  end.

Definition to_mode (dets : list ndarray) (output_mode : string)
           (orig_shape : Z * Z) (cls_map : option (gmap Z string))
  : stateful memory presentation :=
  let bboxes := map (fun det => slice_columns det 4) dets in
  do scores <- lift (mapM (fun det => get_column det 4) dets);
  do classes <- lift (mapM (fun det => get_column det 5) dets);
  if String.eqb output_mode "tf" then
    do r <- to_tf bboxes scores classes orig_shape; sret (TF r)
  else if String.eqb output_mode "qa" then
    do r <- to_qa bboxes scores classes orig_shape cls_map; sret (QA r)
  else sret (Raw bboxes scores classes).

End AHOYv5.

(** One image with two detections of 6 columns, in a 100 x 200 frame
    (height x width). *)
Module Detections.
Import Num.
Definition rows : list (list Qc) :=
  [ [of_Z 20; of_Z 10; of_Z 120; of_Z 60; frac 9 10; of_Z 0];
    [of_Z 0; of_Z 50; of_Z 200; of_Z 100; frac 8 10; of_Z 1] ].
Definition memory : Np.memory := {[ 0%nat := rows ]}.
Definition det : Np.ndarray := Np.make 0%nat 0%nat 6%nat.
Definition orig_shape : Z * Z := (100, 200).
Definition cls_map : gmap Z string := {[ 0 := "boat"; 1 := "buoy" ]}.
End Detections.

(** ** [models/custom.py]: the layer graph *)

(** [m.i]: the position that the model parser gives a layer, or the name
    that [_get_classification_heads] gives a head. *)
Inductive ident : Type :=
  | IInt (n : Z)
  | IStr (s : string).

(** [m.f]: one Python integer ([-1] is "the previous layer") or a list of
    them. *)
Inductive from : Type :=
  | FInt (n : Z)
  | FList (l : list Z).

(** The attributes of a layer that the sources read.  [conv_in_channels]
    is [m.conv.in_channels] when [m] has a [conv], [cv1_conv_in_channels]
    is [m.cv1.conv.in_channels] when it has a [cv1]; [args] are the
    arguments a head was built with. *)
Module Layer.
Record t : Type := make {
  i : ident;
  f : from;
  type : string;
  conv_in_channels : option Z;
  cv1_conv_in_channels : option Z;
  args : list Z
}.
End Layer.

#[global] Instance layer_inhabited : Inhabited Layer.t :=
  populate (Layer.make (IInt 0) (FInt (-1)) "" None None []).

Definition Classify_type : string := "models.common.Classify".
Definition SPPF_type : string := "models.common.SPPF".

(** [model.save]: a list as the parser leaves it, a set after assembly. *)
Inductive save_t : Type :=
  | SaveList (l : list Z)
  | SaveSet (s : gset Z).

(** [m.i in self.save] *)
Definition in_save (id : ident) (save : save_t) : bool :=
  match id, save with
  | IInt n, SaveList l => bool_decide (n ∈ l)
  | IInt n, SaveSet s => bool_decide (n ∈ s)
  | IStr _, _ => false
  end.

(** ["pitch" in m.i]: a substring test on a string, [TypeError] on an
    integer. *)
Definition occurs_in (sub : string) (id : ident) : result bool :=
  match id with
  | IStr s => Ok (bool_decide (is_Some (String.index 0 sub s)))
  | IInt _ => Raise TypeError
  end.

(** [_find_cutoff]: the loop over [enumerate(model.model)]. *)
Fixpoint _find_cutoff_from (i : nat) (layers : list Layer.t) : result Z :=
  match layers with
  | [] => Raise ValueError
  | m :: layers =>
      if String.eqb (Layer.type m) SPPF_type
      then Ok (Z.of_nat i - 1)
      else _find_cutoff_from (S i) layers
  end.

Definition _find_cutoff (model : list Layer.t) : result Z :=
  _find_cutoff_from 0 model.

(** ** Assembly: the object store *)

(** Objects are held by reference.  A store has the layer objects, the
    [nn.Sequential] containers (the ordered dictionary [_modules] of names
    and children) and the loaded detection models with their attributes
    [model] and [save].  A reference always has its object. *)

Module DetectionModel.
Record t : Type := make {
  model : loc;
  save : save_t
}.
End DetectionModel.

#[global] Instance detection_model_inhabited : Inhabited DetectionModel.t :=
  populate (DetectionModel.make 0%nat (SaveList [])).

Module Store.
Record t : Type := make {
  layers : gmap loc Layer.t;
  sequentials : gmap loc (list (string * loc));
  models : gmap loc DetectionModel.t;
  next : loc
}.
End Store.

Definition get_model (model : loc) : stateful Store.t DetectionModel.t :=
  fun h => (h, Ok (Store.models h !!! model)).
Definition set_model (model : loc) (d : DetectionModel.t) : stateful Store.t unit :=
  fun h => (Store.make (Store.layers h) (Store.sequentials h)
              (<[model := d]> (Store.models h)) (Store.next h), Ok tt).
Definition get_sequential (s : loc) : stateful Store.t (list (string * loc)) :=
  fun h => (h, Ok (Store.sequentials h !!! s)).
Definition set_sequential (s : loc) (d : list (string * loc)) : stateful Store.t unit :=
  fun h => (Store.make (Store.layers h) (<[s := d]> (Store.sequentials h))
              (Store.models h) (Store.next h), Ok tt).
Definition get_layer (m : loc) : stateful Store.t Layer.t :=
  fun h => (h, Ok (Store.layers h !!! m)).
Definition new_layer (m : Layer.t) : stateful Store.t loc :=
  fun h => (Store.make (<[Store.next h := m]> (Store.layers h))
              (Store.sequentials h) (Store.models h) (S (Store.next h)),
            Ok (Store.next h)).
Definition new_sequential (d : list (string * loc)) : stateful Store.t loc :=
  fun h => (Store.make (Store.layers h)
              (<[Store.next h := d]> (Store.sequentials h))
              (Store.models h) (S (Store.next h)),
            Ok (Store.next h)).

(** The layers of a container, in order: what [for m in model] visits. *)
Definition graph (h : Store.t) (s : loc) : list Layer.t :=
  map (fun '(_, m) => Store.layers h !!! m) (Store.sequentials h !!! s).

(** [OrderedDict.__setitem__]: a known key keeps its place. *)
Fixpoint dict_set (name : string) (v : loc) (d : list (string * loc))
  : list (string * loc) :=
  match d with
  | [] => [(name, v)]
  | (k, w) :: d =>
      if String.eqb k name then (k, v) :: d else (k, w) :: dict_set name v d
  end.

(** [nn.Sequential.add_module(name, module)] for a name that is no other
    attribute of the container. *)
Definition add_module (s : loc) (name : string) (m : loc) : stateful Store.t unit :=
  do d <- get_sequential s;
  set_sequential s (dict_set name m d).

(** [model.save + [cutoff]] then [set(list(...))]: a set cannot be added
    to a list. *)
Definition save_with (save : save_t) (cutoff : Z) : result save_t :=
  match save with
  | SaveList l => Ok (SaveSet (list_to_set (l ++ [cutoff])))
  | SaveSet _ => Raise TypeError
  end.

(** [m.conv.in_channels if hasattr(m, "conv") else m.cv1.conv.in_channels] *)
Definition channels (m : Layer.t) : result Z :=
  match Layer.conv_in_channels m with
  | Some ch => Ok ch
  | None =>
      match Layer.cv1_conv_in_channels m with
      | Some ch => Ok ch
      | None => Raise AttributeError
      end
  end.

(** [Classify(ch, nc)] with [i], [f] and [type] set as the sources do.  The
    attributes of the class itself are defined outside these sources and
    none is recorded. *)
Definition Classify (name : string) (ch nc cutoff : Z) : Layer.t :=
  Layer.make (IStr name) (FInt cutoff) Classify_type None None [ch; nc].

Definition _get_classification_heads (model : loc) (cutoff nc_pitch nc_theta : Z)
  : stateful Store.t (loc * loc) :=
  do d <- get_model model;
  do children <- get_sequential (DetectionModel.model d);
  do ' (_, after) <- lift (py_index children (cutoff + 1));
  do m <- get_layer after;
  do ch <- lift (channels m);
  do c_pitch <- new_layer (Classify "c_pitch" ch nc_pitch cutoff);
  do c_theta <- new_layer (Classify "c_theta" ch nc_theta cutoff);
  sret (c_pitch, c_theta).

(** The instance attributes of [HorizonModel] and of [Hydra]. *)
Module Instance.
Record t : Type := make {
  nc_pitch : Z;
  nc_theta : Z;
  cutoff : Z;
  model : loc;
  save : save_t
}.
End Instance.

Module HorizonModel.

Definition _from_detection_model (nc_pitch nc_theta : Z)
           (model : loc) (cutoff : Z) : stateful Store.t unit :=
  do ' (c_pitch, c_theta) <-
     _get_classification_heads model cutoff nc_pitch nc_theta;
  do d <- get_model model;
  do save <- lift (save_with (DetectionModel.save d) cutoff);
  do _u <- set_model model (DetectionModel.make (DetectionModel.model d) save);
  do children <- get_sequential (DetectionModel.model d);
  do truncated <- new_sequential (py_slice_to children (cutoff + 1));
  do _u <- set_model model (DetectionModel.make truncated save);
  do _u <- add_module truncated "c_pitch" c_pitch;
  add_module truncated "c_theta" c_theta.

(** [__init__] from the loaded detection model on. *)
Definition init (model : loc) (nc_pitch nc_theta : Z) (cutoff : option Z)
  : stateful Store.t Instance.t :=
  do d <- get_model model;
  do cutoff <-
     match cutoff with
     | None => fun h => (h, _find_cutoff (graph h (DetectionModel.model d)))
     | Some c => sret c
     end;
  do _u <- _from_detection_model nc_pitch nc_theta model cutoff;
  do d <- get_model model;
  sret (Instance.make nc_pitch nc_theta cutoff
          (DetectionModel.model d) (DetectionModel.save d)).

End HorizonModel.

(** ** The forward passes of [Hydra] *)

(** What flows between layers: [None], a tensor of the compute engine, or
    a list gathered from earlier layers. *)
#[warnings="-register-all"]
Inductive value (T : Type) : Type :=
  | VNone
  | VTensor (t : T)
  | VList (l : list (value T)).
Arguments VNone {T}.
Arguments VTensor {T} t.
Arguments VList {T} l.

(** The local variables of a forward pass. *)
Module Frame.
Record t (T : Type) : Type := make {
  x : value T;
  y : list (value T);
  x_pitch : value T;
  x_theta : value T
}.
Arguments make {T}.
Arguments x {T}.
Arguments y {T}.
Arguments x_pitch {T}.
Arguments x_theta {T}.
End Frame.

Inductive task : Type := detection | horizon | both.

(** What [forward] returns: [x], [(x_pitch, x_theta)] or
    [(x, x_pitch, x_theta)]. *)
Inductive output (T : Type) : Type :=
  | Detection (x : value T)
  | Horizon (x_pitch x_theta : value T)
  | Both (x x_pitch x_theta : value T).
Arguments Detection {T}.
Arguments Horizon {T}.
Arguments Both {T}.

(** A run gives the positions of the layers it called, in order, and its
    outcome. *)
Definition traced (A : Type) : Type := list nat * result A.

(** [for m in self.model], with the position of [m] made explicit. *)
Fixpoint for_each {St : Type} (body : nat -> Layer.t -> St -> traced St)
         (p : nat) (layers : list Layer.t) (st : St) : traced St :=
  match layers with
  | [] => ([], Ok st)
  | m :: layers =>
      match body p m st with
      | (c, Ok st) =>
          let '(cs, r) := for_each body (S p) layers st in (c ++ cs, r)
      | (c, Raise e) => (c, Raise e)
      end
  end.

Module Hydra.

Definition _add_classification_heads (nc_pitch nc_theta : Z)
           (model : loc) (cutoff : Z) : stateful Store.t unit :=
  do ' (c_pitch, c_theta) <-
     _get_classification_heads model cutoff nc_pitch nc_theta;
  do d <- get_model model;
  do save <- lift (save_with (DetectionModel.save d) cutoff);
  do _u <- set_model model (DetectionModel.make (DetectionModel.model d) save);
  do _u <- add_module (DetectionModel.model d) "c_pitch" c_pitch;
  add_module (DetectionModel.model d) "c_theta" c_theta.

Definition init (model : loc) (nc_pitch nc_theta : Z) (cutoff : option Z)
  : stateful Store.t Instance.t :=
  do d <- get_model model;
  do cutoff <-
     match cutoff with
     | None => fun h => (h, _find_cutoff (graph h (DetectionModel.model d)))
     | Some c => sret c
     end;
  do _u <- _add_classification_heads nc_pitch nc_theta model cutoff;
  do d <- get_model model;
  sret (Instance.make nc_pitch nc_theta cutoff
          (DetectionModel.model d) (DetectionModel.save d)).

Section Engine.
Context {T : Type}.

(** The compute engine: [m(x)]. *)
Variable call : Layer.t -> value T -> result (value T).

(** The input of a layer: [x] unless [m.f != -1]. *)
Definition gather (m : Layer.t) (x : value T) (y : list (value T))
  : result (value T) :=
  match Layer.f m with
  | FInt (-1) => Ok x
  | FInt k => py_index y k
  | FList js =>
      VList <$> mapM (fun j => if (j =? -1)%Z then Ok x else py_index y j) js
  end.

(** The branches on the kind of layer, shared by [_horizon_once] and
    [_forward_once]; [p] is the position of [m], [x] its gathered input. *)
Definition run_layer (save : save_t) (p : nat) (m : Layer.t)
           (x : value T) (st : Frame.t T) : traced (Frame.t T) :=
  let classify := String.eqb (Layer.type m) Classify_type in
  let plain :=
    ([p], r ← call m x;
          Ok (Frame.make r (Frame.y st ++ [if in_save (Layer.i m) save then r else VNone])
                    (Frame.x_pitch st) (Frame.x_theta st))) in
  if classify then
    match occurs_in "pitch" (Layer.i m) with
    | Raise e => ([], Raise e)
    | Ok true =>
        ([p], r ← call m x; Ok (Frame.make x (Frame.y st) r (Frame.x_theta st)))
    | Ok false =>
        match occurs_in "theta" (Layer.i m) with
        | Raise e => ([], Raise e)
        | Ok true =>
            ([p], r ← call m x; Ok (Frame.make x (Frame.y st) (Frame.x_pitch st) r))
        | Ok false => plain
        end
    end
  else plain.

(** [isinstance(m.i, int) and m.i > self.cutoff] *)
Definition past_cutoff (cutoff : Z) (m : Layer.t) : bool :=
  match Layer.i m with
  | IInt n => bool_decide (cutoff < n)
  | IStr _ => false
  end.

Definition _horizon_once_body (cutoff : Z) (save : save_t)
           (p : nat) (m : Layer.t) (st : Frame.t T) : traced (Frame.t T) :=
  if past_cutoff cutoff m then ([], Ok st)
  else
    match gather m (Frame.x st) (Frame.y st) with
    | Raise e => ([], Raise e)
    | Ok x => run_layer save p m x st
    end.

Definition _horizon_once (model : list Layer.t) (cutoff : Z) (save : save_t)
           (x : value T) : traced (value T * value T) :=
  let '(calls, r) :=
    for_each (_horizon_once_body cutoff save) 0 model (Frame.make x [] VNone VNone) in
  (calls, st ← r; Ok (Frame.x_pitch st, Frame.x_theta st)).

Definition _detect_once_body (save : save_t)
           (p : nat) (m : Layer.t) (st : Frame.t T) : traced (Frame.t T) :=
  if String.eqb (Layer.type m) Classify_type then ([], Ok st)
  else
    match gather m (Frame.x st) (Frame.y st) with
    | Raise e => ([], Raise e)
    | Ok x =>
        ([p], r ← call m x;
              Ok (Frame.make r (Frame.y st ++ [if in_save (Layer.i m) save then r else VNone])
                        (Frame.x_pitch st) (Frame.x_theta st)))
    end.

Definition _detect_once (model : list Layer.t) (save : save_t)
           (x : value T) : traced (value T) :=
  let '(calls, r) :=
    for_each (_detect_once_body save) 0 model (Frame.make x [] VNone VNone) in
  (calls, st ← r; Ok (Frame.x st)).

Definition _forward_once_body (save : save_t)
           (p : nat) (m : Layer.t) (st : Frame.t T) : traced (Frame.t T) :=
  match gather m (Frame.x st) (Frame.y st) with
  | Raise e => ([], Raise e)
  | Ok x => run_layer save p m x st
  end.

Definition _forward_once (model : list Layer.t) (save : save_t)
           (x : value T) : traced (value T * value T * value T) :=
  let '(calls, r) :=
    for_each (_forward_once_body save) 0 model (Frame.make x [] VNone VNone) in
  (calls, st ← r; Ok (Frame.x st, Frame.x_pitch st, Frame.x_theta st)).

Definition forward (task_ : task) (model : list Layer.t) (cutoff : Z)
           (save : save_t) (x : value T) : traced (output T) :=
  match task_ with
  | detection =>
      let '(calls, r) := _detect_once model save x in
      (calls, Detection <$> r)
  | horizon =>
      let '(calls, r) := _horizon_once model cutoff save x in
      (calls, (fun '(p, t) => Horizon p t) <$> r)
  | both =>
      let '(calls, r) := _forward_once model save x in
      (calls, (fun '(x, p, t) => Both x p t) <$> r)
  end.

End Engine.
End Hydra.

(** ** A small detection model *)

(** Five layers numbered by the parser, an SPPF at position 2, and the
    positions 1 and 3 saved for the later layers that read them. *)
Module Yolo.

Definition layer (n : Z) (f : from) (type : string)
           (conv cv1 : option Z) : Layer.t :=
  Layer.make (IInt n) f type conv cv1 [].

Definition layers : list Layer.t :=
  [ layer 0 (FInt (-1)) "models.common.Conv" (Some 3) None;
    layer 1 (FInt (-1)) "models.common.C3" None (Some 16);
    layer 2 (FInt (-1)) SPPF_type None (Some 32);
    layer 3 (FList [-1; 1]) "models.common.Concat" None None;
    layer 4 (FList [1; 3]) "models.yolo.Detect" None None ].

(** The same layers without the SPPF. *)
Definition layers_without_sppf : list Layer.t :=
  [ layer 0 (FInt (-1)) "models.common.Conv" (Some 3) None;
    layer 1 (FInt (-1)) "models.common.C3" None (Some 16);
    layer 2 (FInt (-1)) "models.yolo.Detect" None None ].

(** The store after loading: the layers at 0..4, their container at 5 and
    the detection model at 6. *)
Definition store : Store.t :=
  Store.make
    (list_to_map (zip (seq 0 5) layers))
    {[ 5%nat := [("0", 0%nat); ("1", 1%nat); ("2", 2%nat); ("3", 3%nat); ("4", 4%nat)] ]}
    {[ 6%nat := DetectionModel.make 5%nat (SaveList [1; 3]) ]}
    7%nat.
Definition base : loc := 6%nat.

(** A compute engine that names each output after the layer that made
    it. *)
Definition call (m : Layer.t) (x : value ident) : result (value ident) :=
  Ok (VTensor (Layer.i m)).
Definition image : value ident := VTensor (IStr "image").

(** The graph that [Hydra] runs after assembly with 500 classes for each
    head. *)
Definition hydra_layers : list Layer.t :=
  layers ++ [Classify "c_pitch" 32 500 1; Classify "c_theta" 32 500 1].
Definition hydra_save : save_t := SaveSet {[1; 3]}.

End Yolo.

(** ** The result slots of the specification *)

(** A run leaves a detection output, pitch logits and theta logits: a
    slot holds what [forward] returns for it, and is absent when
    [forward] does not return it. *)
Module Slots.
Record t (T : Type) : Type := make {
  detectionOutput : option (value T);
  pitchLogits : option (value T);
  thetaLogits : option (value T)
}.
Arguments make {T}.
Arguments detectionOutput {T}.
Arguments pitchLogits {T}.
Arguments thetaLogits {T}.
End Slots.


(** ** Further notions *)

(** A box (x1, y1, x2, y2) lies inside a frame of shape (height, width). *)
Definition inside_frame (shape : Z * Z) (b : box) : Prop :=
  let '(h, w) := shape in
  let '(x1, y1, x2, y2) := b in
  (0 <= x1 <= Num.of_Z w /\ 0 <= y1 <= Num.of_Z h /\
   0 <= x2 <= Num.of_Z w /\ 0 <= y2 <= Num.of_Z h)%Qc.

(** [bbs[:, [1, 0, 3, 2]]] on one row: the box (x1, y1, x2, y2) as
    [y1, x1, y2, x2]. *)
Definition tf_row (b : box) : list Qc :=
  let '(x1, y1, x2, y2) := b in [y1; x1; y2; x2].

(** What [to_mode] makes of one detection array: the view [det[:, :4]] and
    the columns [det[:, 4]] and [det[:, 5]]. *)
Definition det_views (det : Np.ndarray) : Np.ndarray * Np.column * Np.column :=
  (Np.slice_columns det 4,
   Np.Column (Np.buffer det) (Np.offset det + 4),
   Np.Column (Np.buffer det) (Np.offset det + 5)).

(** A class mapping that knows the class 0 only. *)
Definition boats_only : gmap Z string := {[ 0 := "boat" ]}.

(** ** The forward pass of [HorizonModel] *)

(** [HorizonModel._forward_once] has, line for line, the loop of
    [Hydra._forward_once]; it returns [(x_pitch, x_theta)]. *)
Module HorizonModelPass.
Section Engine.
Context {T : Type}.
Variable call : Layer.t -> value T -> result (value T).

Definition _forward_once (model : list Layer.t) (save : save_t)
           (x : value T) : traced (value T * value T) :=
  let '(calls, r) :=
    for_each (Hydra._forward_once_body call save) 0 model
             (Frame.make x [] VNone VNone) in
  (calls, st ← r; Ok (Frame.x_pitch st, Frame.x_theta st)).

End Engine.
End HorizonModelPass.

(** The layers that a pass of [Hydra] does not skip: [_detect_once] skips
    the [Classify] layers, [_horizon_once] the layers whose integer index
    is past the cutoff, [_forward_once] none. *)
Definition computed_in (t : task) (cutoff : Z) (m : Layer.t) : bool :=
  match t with
  | detection => negb (String.eqb (Layer.type m) Classify_type)
  | horizon => negb (Hydra.past_cutoff cutoff m)
  | both => true
  end.

(** The positions, from [p] on, of the layers that [runs] lets through. *)
Fixpoint positions_from (runs : Layer.t -> bool) (p : nat)
         (layers : list Layer.t) : list nat :=
  match layers with
  | [] => []
  | m :: layers =>
      if runs m then p :: positions_from runs (S p) layers
      else positions_from runs (S p) layers
  end.

(** ** [models/custom.py]: the hooks of [AHOY] *)

(** Python dictionaries keep the order of insertion: a dictionary is the
    list of its items. *)
Section Dict.
Context {K V : Type} `{EqDecision K}.

(** [k in d] *)
Definition has_key (k : K) (d : list (K * V)) : bool :=
  bool_decide (k ∈ d.*1).

(** [d[k] = v]: a known key keeps its place. *)
Fixpoint set_item (k : K) (v : V) (d : list (K * V)) : list (K * V) :=
  match d with
  | [] => [(k, v)]
  | (k', v') :: d =>
      if decide (k' = k) then (k', v) :: d else (k', v') :: set_item k v d
  end.

(** [if k in d: del d[k]] *)
Definition del_item (k : K) (d : list (K * V)) : list (K * V) :=
  filter (fun kv => kv.1 <> k) d.

End Dict.

(** The module keeps its hooks in the dictionaries [_forward_pre_hooks]
    and [_forward_hooks] of [nn.Module], under the id of the handle that
    registering returns; handle ids come from one counter.  [AHOY] keeps
    the handles in [self.hooks]. *)
Module AHOY.

Inductive hook : Type :=
  | _preprocessing_hook
  | _postprocessing_hook.

Inductive hooks_dict : Type :=
  | forward_pre_hooks
  | forward_hooks.

(** A [RemovableHandle]: the dictionary it removes from, and its id. *)
Record handle : Type := Handle {
  dict : hooks_dict;
  id : nat
}.

Record t : Type := make {
  hooks : list (string * handle);
  _forward_pre_hooks : list (nat * hook);
  _forward_hooks : list (nat * hook);
  next_id : nat
}.

(** [nn.Module.register_forward_pre_hook] and [register_forward_hook] *)
Definition register_forward_pre_hook (f : hook) (s : t) : t * handle :=
  (make (hooks s) (set_item (next_id s) f (_forward_pre_hooks s))
        (_forward_hooks s) (S (next_id s)),
   Handle forward_pre_hooks (next_id s)).

Definition register_forward_hook (f : hook) (s : t) : t * handle :=
  (make (hooks s) (_forward_pre_hooks s)
        (set_item (next_id s) f (_forward_hooks s)) (S (next_id s)),
   Handle forward_hooks (next_id s)).

(** [handle.remove()] *)
Definition remove (h : handle) (s : t) : t :=
  match dict h with
  | forward_pre_hooks =>
      make (hooks s) (del_item (id h) (_forward_pre_hooks s))
           (_forward_hooks s) (next_id s)
  | forward_hooks =>
      make (hooks s) (_forward_pre_hooks s)
           (del_item (id h) (_forward_hooks s)) (next_id s)
  end.

Definition set_hooks (d : list (string * handle)) (s : t) : t :=
  make d (_forward_pre_hooks s) (_forward_hooks s) (next_id s).

Definition register_preprocessing_hook (s : t) : t :=
  if has_key "preprocessing" (hooks s) then s
  else
    let '(s, h) := register_forward_pre_hook _preprocessing_hook s in
    set_hooks (set_item "preprocessing" h (hooks s)) s.

Definition register_postprocessing_hook (s : t) : t :=
  if has_key "postprocessing" (hooks s) then s
  else
    let '(s, h) := register_forward_hook _postprocessing_hook s in
    set_hooks (set_item "postprocessing" h (hooks s)) s.

Definition register_io_hooks (s : t) : t :=
  register_postprocessing_hook (register_preprocessing_hook s).

Definition remove_hooks (s : t) : t :=
  let s := foldl (fun s '(_, hook) => remove hook s) s (hooks s) in
  set_hooks [] s.

End AHOY.

(** A module on which a user registered one forward hook of their own
    before. *)
Definition ahoy_fresh : AHOY.t :=
  AHOY.make [] [] [(3%nat, AHOY._postprocessing_hook)] 4.

(** The entries that [to_qa] makes of one detection array, read off the
    memory [mem]: for each row its view of the four box columns, the name
    and the integer of its class, and its score. *)
Definition qa_of_detection (cls_map : gmap Z string) (mem : Np.memory)
           (det : Np.ndarray) : result (list AHOYv5.qa_entry) :=
  AHOYv5.qa_entries cls_map
    (zip (zip (map (fun r => Np.Row (Np.buffer det) r (Np.offset det) 4)
                   (seq 0 (length (Np.rows mem det))))
              (Np.entries mem (det_views det).1.2))
         (Np.entries mem (det_views det).2)).

(** * Properties *)

Import Postprocessing.

(** ** Indexing *)

Lemma index_Ok {A} (l : list A) (k : nat) (a : A) :
  index l k = Ok a <-> l !! k = Some a.
Proof.
  unfold index. destruct (l !! k); split; intros H; congruence.
Qed.

Lemma index_lt {A} (l : list A) (k : nat) :
  (k < length l)%nat -> exists a, index l k = Ok a.
Proof.
  intros H. destruct (lookup_lt_is_Some_2 l k H) as [a Ha].
  exists a. by apply index_Ok.
Qed.

Lemma take_idx_cons {A} (a : list A) (k : nat) (idx : list nat) :
  take_idx a (k :: idx) =
  (y ← index a k; ys ← take_idx a idx; Ok (y :: ys)).
Proof. reflexivity. Qed.

Lemma take_idx_Ok {A} (a : list A) (idx : list nat) (l : list A) :
  take_idx a idx = Ok l -> Forall2 (fun k x => a !! k = Some x) idx l.
Proof.
  revert l. induction idx as [|k idx IH]; intros l.
  - intros [= <-]. constructor.
  - rewrite take_idx_cons. destruct (index a k) as [y|e] eqn:Hy; [|done].
    simpl. destruct (take_idx a idx) as [ys|e]; [|done].
    intros [= <-]. constructor; [by apply index_Ok | by apply IH].
Qed.

Lemma take_idx_total {A} (a : list A) (idx : list nat) :
  Forall (fun k => (k < length a)%nat) idx -> exists l, take_idx a idx = Ok l.
Proof.
  induction 1 as [|k idx Hk _ [l Hl]].
  - by exists [].
  - destruct (index_lt a k Hk) as [y Hy]. exists (y :: l).
    rewrite take_idx_cons, Hy. simpl. by rewrite Hl.
Qed.

(** ** Numbers *)

Lemma leb_le (a b : Qc) : Num.leb a b = true <-> (a <= b)%Qc.
Proof. unfold Num.leb, Qcle. apply Qle_bool_iff. Qed.

Lemma leb_total (a b : Qc) : Num.leb a b = false -> Num.leb b a = true.
Proof.
  intros H. apply leb_le. destruct (Qclt_le_dec b a) as [Hlt|Hle].
  - by apply Qclt_le_weak.
  - apply leb_le in Hle. congruence.
Qed.

Lemma maximum_comm (a b : Qc) : Num.maximum a b = Num.maximum b a.
Proof.
  unfold Num.maximum.
  destruct (Num.leb a b) eqn:Hab, (Num.leb b a) eqn:Hba; try done.
  - apply leb_le in Hab, Hba. by apply Qcle_antisym.
  - apply leb_total in Hab. congruence.
Qed.

Lemma minimum_comm (a b : Qc) : Num.minimum a b = Num.minimum b a.
Proof.
  unfold Num.minimum.
  destruct (Num.leb a b) eqn:Hab, (Num.leb b a) eqn:Hba; try done.
  - apply leb_le in Hab, Hba. by apply Qcle_antisym.
  - apply leb_total in Hab. congruence.
Qed.

(** Closed equations between rationals are decided on their fractions. *)
Ltac qc_eq := apply Qc_is_canon; vm_compute; reflexivity.

(** ** The overlap measure of [nms] *)

Lemma iou_cons (t b : box) (bs : list box) (ta a : Qc) (areas : list Qc) :
  iou t (b :: bs) ta (a :: areas) = iou1 t b ta a :: iou t bs ta areas.
Proof. destruct t as [[[x1 y1] x2] y2], b as [[[a1 b1] a2] b2]. reflexivity. Qed.

Lemma iou_lookup (t : box) (bs : list box) (ta : Qc) (areas : list Qc)
      (p : nat) (b : box) (a : Qc) :
  bs !! p = Some b -> areas !! p = Some a ->
  iou t bs ta areas !! p = Some (iou1 t b ta a).
Proof.
  revert areas p. induction bs as [|b0 bs IH]; intros [|a0 areas] [|p] Hb Ha;
    try done; rewrite iou_cons; simplify_eq/=; [done | by apply IH].
Qed.

Lemma length_iou (t : box) (bs : list box) (ta : Qc) (areas : list Qc) :
  length bs = length areas -> length (iou t bs ta areas) = length bs.
Proof.
  revert areas. induction bs as [|b0 bs IH]; intros [|a0 areas] Hl; try done.
  { by destruct t as [[[x1 y1] x2] y2]. }
  rewrite iou_cons. simpl in *. f_equal. apply IH. lia.
Qed.

Lemma pair_iou_sym (a b : box) : pair_iou a b = pair_iou b a.
Proof.
  destruct a as [[[x1 y1] x2] y2], b as [[[a1 b1] a2] b2].
  unfold pair_iou, iou1, iou, intersection_area, intersection_box, area. simpl.
  rewrite (maximum_comm x1 a1), (maximum_comm y1 b1),
    (minimum_comm x2 a2), (minimum_comm y2 b2).
  rewrite (Qcplus_comm ((x2 - x1) * (y2 - y1))%Qc).
  reflexivity.
Qed.

(** ** Index arrays of [nms] *)

Lemma elem_of_where_from (s : nat) (mask : list bool) (k : nat) :
  k ∈ where_from s mask -> exists p, k = (s + p)%nat /\ mask !! p = Some true.
Proof.
  revert s. induction mask as [|b mask IH]; intros s; simpl.
  - by intros ?%elem_of_nil.
  - destruct b.
    + intros [->|H]%elem_of_cons.
      * exists 0%nat. split; [lia|done].
      * destruct (IH _ H) as (p & -> & Hp). exists (S p). split; [lia|done].
    + intros H. destruct (IH _ H) as (p & -> & Hp). exists (S p). split; [lia|done].
Qed.

Lemma length_where_from (s : nat) (mask : list bool) :
  (length (where_from s mask) <= length mask)%nat.
Proof.
  revert s. induction mask as [|b mask IH]; intros s; simpl; [lia|].
  destruct b; simpl; specialize (IH (S s)); lia.
Qed.

Lemma insert_pos_perm (scores : list Qc) (k : nat) (l : list nat) :
  insert_pos scores k l ≡ₚ k :: l.
Proof.
  induction l as [|j l IH]; simpl; [done|].
  destruct (Num.leb _ _); [|done].
  rewrite IH. apply Permutation_swap.
Qed.

Lemma argsort_perm (scores : list Qc) :
  argsort scores ≡ₚ seq 0 (length scores).
Proof.
  unfold argsort.
  assert (forall ks acc,
    foldl (fun acc k => insert_pos scores k acc) acc ks ≡ₚ ks ++ acc) as H.
  { induction ks as [|k ks IH]; intros acc; simpl; [done|].
    rewrite IH, insert_pos_perm. by rewrite Permutation_middle. }
  rewrite H. by rewrite app_nil_r.
Qed.

Lemma argsort_length (scores : list Qc) :
  length (reverse (argsort scores)) = length scores.
Proof. by rewrite length_reverse, argsort_perm, length_seq. Qed.

Lemma argsort_range (scores : list Qc) :
  Forall (fun k => (k < length scores)%nat) (reverse (argsort scores)).
Proof.
  apply Forall_forall. intros k Hk.
  rewrite elem_of_reverse, argsort_perm in Hk. apply elem_of_seq in Hk. lia.
Qed.

(** ** One round of agnostic suppression *)

Lemma nms_round_agnostic (bboxes : list box) (iou_thresh : Qc) (i : nat)
      (rest : list nat) (keep : list bool) (order' : list nat) (keep' : list bool) :
  nms_round bboxes (map area bboxes) iou_thresh None i rest keep = Ok (order', keep') ->
  keep' = <[i := true]> keep /\
  (length order' <= length rest)%nat /\
  forall j, j ∈ order' ->
    j ∈ rest /\
    exists bi bj, bboxes !! i = Some bi /\ bboxes !! j = Some bj /\
                  Num.leb (pair_iou bi bj) iou_thresh = true.
Proof.
  unfold nms_round.
  destruct (index keep i) as [ki|] eqn:Hki; [simpl|done].
  destruct (index bboxes i) as [bi|] eqn:Hbi; [simpl|done].
  destruct (take_idx bboxes rest) as [brest|] eqn:Hbrest; [simpl|done].
  destruct (index (map area bboxes) i) as [ai|] eqn:Hai; [simpl|done].
  destruct (take_idx (map area bboxes) rest) as [arest|] eqn:Harest; [simpl|done].
  set (idxs := where_ _).
  destruct (take_idx (i :: rest) (map S idxs)) as [order|] eqn:Horder; [simpl|done].
  intros [= <- <-].
  apply index_Ok in Hbi, Hai.
  apply take_idx_Ok in Hbrest, Harest, Horder.
  rewrite list_lookup_fmap, Hbi in Hai. simplify_eq/=.
  split; [done|]. split.
  { apply Forall2_length in Horder. rewrite length_map in Horder.
    rewrite <- Horder.
    etrans; [apply length_where_from|].
    rewrite length_map, length_iou.
    - apply Forall2_length in Hbrest. lia.
    - apply Forall2_length in Hbrest, Harest. lia. }
  intros j Hj.
  apply list_elem_of_lookup in Hj as [n Hn].
  destruct (Forall2_lookup_r _ _ _ _ _ Horder Hn) as (k' & Hk' & Hlk).
  apply list_lookup_fmap_Some in Hk' as (k & -> & Hk). simpl in Hlk.
  assert (k ∈ idxs) as Hin by (apply list_elem_of_lookup; eauto).
  apply elem_of_where_from in Hin as (p & -> & Hp). simpl in *.
  apply list_lookup_fmap_Some in Hp as (v & Hv & Hle).
  destruct (Forall2_lookup_l _ _ _ _ _ Hbrest Hlk) as (bj & Hbj & Hlj).
  destruct (Forall2_lookup_l _ _ _ _ _ Harest Hlk) as (aj & Haj & Hla).
  rewrite list_lookup_fmap, Hlj in Hla. simplify_eq/=.
  rewrite (iou_lookup _ _ _ _ _ _ _ Hbj Haj) in Hle. simplify_eq/=.
  split; [apply list_elem_of_lookup; eauto|].
  exists bi, bj. done.
Qed.

Lemma nms_round_agnostic_total (bboxes : list box) (iou_thresh : Qc) (i : nat)
      (rest : list nat) (keep : list bool) :
  length keep = length bboxes ->
  (i < length bboxes)%nat ->
  Forall (fun k => (k < length bboxes)%nat) rest ->
  exists order' keep',
    nms_round bboxes (map area bboxes) iou_thresh None i rest keep = Ok (order', keep').
Proof.
  intros Hlen Hi Hrest. unfold nms_round.
  destruct (index_lt keep i) as [ki ->]; [lia|]. simpl.
  destruct (index_lt bboxes i Hi) as [bi ->]. simpl.
  destruct (take_idx_total bboxes rest Hrest) as [brest Hbrest]. rewrite Hbrest. simpl.
  destruct (index_lt (map area bboxes) i) as [ai ->]; [by rewrite length_map|]. simpl.
  destruct (take_idx_total (map area bboxes) rest) as [arest Harest];
    [by rewrite length_map|]. rewrite Harest. simpl.
  set (idxs := where_ _).
  destruct (take_idx_total (i :: rest) (map S idxs)) as [order Horder].
  { apply Forall_forall. intros k' Hk'.
    apply list_elem_of_fmap in Hk' as (k & -> & Hk).
    apply elem_of_where_from in Hk as (p & -> & Hp).
    apply lookup_lt_Some in Hp. rewrite length_map, length_iou in Hp.
    - apply take_idx_Ok, Forall2_length in Hbrest. simpl. lia.
    - apply take_idx_Ok, Forall2_length in Hbrest, Harest. lia. }
  rewrite Horder. simpl. eauto.
Qed.

(** ** The suppression loop, agnostic case *)

Section AgnosticLoop.
Variable bboxes : list box.
Variable iou_thresh : Qc.

(** Boxes [k] and [j] may both be kept: their overlap is within the
    threshold. *)
Let compatible (k j : nat) : Prop :=
  forall bk bj, bboxes !! k = Some bk -> bboxes !! j = Some bj ->
                Num.leb (pair_iou bk bj) iou_thresh = true.

Let survivors_ok (order : list nat) (keep : list bool) : Prop :=
  forall k j, keep !! k = Some true -> j ∈ order -> compatible k j.

Let kept_ok (keep : list bool) : Prop :=
  forall k j, k <> j -> keep !! k = Some true -> keep !! j = Some true ->
              compatible k j.

Lemma compatible_sym (k j : nat) : compatible k j -> compatible j k.
Proof. intros H bj bk Hj Hk. rewrite pair_iou_sym. by apply H. Qed.

Lemma nms_while_agnostic (fuel : nat) :
  forall (order : list nat) (keep : list bool),
    length keep = length bboxes ->
    Forall (fun k => (k < length bboxes)%nat) order ->
    (length order <= S fuel)%nat ->
    survivors_ok order keep ->
    kept_ok keep ->
    exists keep',
      nms_while fuel bboxes (map area bboxes) iou_thresh None order keep
        = Some (Ok keep') /\
      length keep' = length bboxes /\
      kept_ok keep'.
Proof.
  induction fuel as [|fuel IH]; intros order keep Hlen Hrange Hfuel Hsurv Hkept.
  - destruct order as [|i [|j rest]]; simpl in *; [eauto..|lia].
  - destruct order as [|i [|j rest]]; simpl; [eauto..|].
    apply Forall_cons in Hrange as [Hi Hrest].
    destruct (nms_round_agnostic_total bboxes iou_thresh i (j :: rest) keep
                Hlen Hi Hrest) as (order' & keep' & Hround).
    rewrite Hround.
    apply nms_round_agnostic in Hround as (-> & Hshort & Hpass).
    apply IH.
    + by rewrite length_insert.
    + apply Forall_forall. intros k Hk.
      destruct (Hpass k Hk) as [Hin _].
      by apply (proj1 (Forall_forall _ _) Hrest).
    + simpl in *. lia.
    + intros k j' Hk Hj'. destruct (Hpass j' Hj') as (Hin & bi & bj & Hbi & Hbj & Hle).
      destruct (decide (k = i)) as [->|Hne].
      * intros bk bj0 Hbk Hbj0. by simplify_eq.
      * rewrite list_lookup_insert_ne in Hk by done.
        apply (Hsurv k j' Hk). by apply elem_of_cons; right.
    + intros k j' Hne Hk Hj'.
      destruct (decide (k = i)) as [->|Hki], (decide (j' = i)) as [->|Hji];
        try done.
      * rewrite list_lookup_insert_ne in Hj' by done.
        apply compatible_sym, (Hsurv j' i Hj'). by apply elem_of_cons; left.
      * rewrite list_lookup_insert_ne in Hk by done.
        apply (Hsurv k i Hk). by apply elem_of_cons; left.
      * rewrite !list_lookup_insert_ne in * by done. by apply Hkept.
Qed.
End AgnosticLoop.

(** ** The first pick of [nms] *)

Section FirstPick.
Variable scores : list Qc.

Let key (k : nat) : Qc := default 0%Qc (scores !! k).

Let ascending : list nat -> Prop :=
  StronglySorted (fun a b => (key a <= key b)%Qc).

Lemma insert_pos_ascending (k : nat) (l : list nat) :
  ascending l -> ascending (insert_pos scores k l).
Proof.
  induction 1 as [|j l Hl IH Hj]; simpl.
  - repeat constructor.
  - fold (key j). fold (key k).
    destruct (Num.leb (key j) (key k)) eqn:Hjk.
    + constructor; [done|].
      rewrite insert_pos_perm. apply Forall_cons. split; [|done].
      apply leb_le. exact Hjk.
    + apply leb_total, leb_le in Hjk.
      constructor; [by constructor|].
      constructor; [done|].
      eapply Forall_impl; [exact Hj|]. intros b Hb. simpl in *.
      by etrans.
Qed.

Lemma argsort_ascending : ascending (argsort scores).
Proof.
  unfold argsort.
  assert (forall ks acc, ascending acc ->
            ascending (foldl (fun acc k => insert_pos scores k acc) acc ks)) as H.
  { induction ks as [|k ks IH]; intros acc Hacc; simpl; [done|].
    by apply IH, insert_pos_ascending. }
  apply H. constructor.
Qed.

(** The first position of the descending order has a highest score. *)
Lemma argsort_first_is_highest (i : nat) (rest : list nat) (j : nat) :
  reverse (argsort scores) = i :: rest ->
  (j < length scores)%nat ->
  (key j <= key i)%Qc.
Proof.
  intros Hrev Hj.
  assert (argsort scores = reverse rest ++ [i]) as Hsorted.
  { rewrite <- (reverse_involutive (argsort scores)), Hrev.
    by rewrite reverse_cons. }
  pose proof argsort_ascending as Hasc. rewrite Hsorted in Hasc.
  assert (j ∈ reverse rest ++ [i]) as Hin.
  { rewrite <- Hsorted, argsort_perm. apply elem_of_seq. lia. }
  apply elem_of_app in Hin as [Hin|Hin].
  - clear Hsorted. induction (reverse rest) as [|b l IH]; [by apply elem_of_nil in Hin|].
    simpl in Hasc. apply StronglySorted_inv in Hasc as [Hasc Hb].
    apply elem_of_cons in Hin as [->|Hin]; [|by apply IH].
    rewrite Forall_app, Forall_singleton in Hb. by destruct Hb.
  - apply list_elem_of_singleton in Hin as ->. apply Qcle_refl.
Qed.

End FirstPick.

Lemma nms_round_keep (bboxes : list box) (areas : list Qc) (iou_thresh : Qc)
      (classes : option (list Z)) (i : nat) (rest : list nat)
      (keep : list bool) (order' : list nat) (keep' : list bool) :
  nms_round bboxes areas iou_thresh classes i rest keep = Ok (order', keep') ->
  (i < length keep)%nat /\ keep' = <[i := true]> keep.
Proof.
  unfold nms_round.
  destruct (index keep i) as [ki|] eqn:Hki; [simpl|done].
  destruct (index bboxes i) as [bi|]; [simpl|done].
  destruct (take_idx bboxes rest) as [brest|]; [simpl|done].
  destruct (index areas i) as [ai|]; [simpl|done].
  destruct (take_idx areas rest) as [arest|]; [simpl|done].
  destruct (truth classes) as [t|]; [simpl|done].
  destruct (if t then _ else _) as [idxs|]; [simpl|done].
  destruct (take_idx _ _) as [order|]; [simpl|done].
  intros [= <- <-]. split; [|done].
  apply index_Ok, lookup_lt_Some in Hki. done.
Qed.

Lemma nms_while_keeps (fuel : nat) (bboxes : list box) (areas : list Qc)
      (iou_thresh : Qc) (classes : option (list Z)) :
  forall (order : list nat) (keep keep' : list bool) (k : nat),
    nms_while fuel bboxes areas iou_thresh classes order keep = Some (Ok keep') ->
    keep !! k = Some true -> keep' !! k = Some true.
Proof.
  induction fuel as [|fuel IH]; intros order keep keep' k.
  - destruct order as [|i [|j rest]]; simpl; [by intros [= <-]..|done].
  - destruct order as [|i [|j rest]]; simpl; [by intros [= <-]..|].
    destruct (nms_round _ _ _ _ _ _ _) as [[order1 keep1]|] eqn:Hround; [|done].
    apply nms_round_keep in Hround as [Hi ->].
    intros Hrun Hk. apply (IH _ _ _ _ Hrun).
    destruct (decide (k = i)) as [->|Hne].
    + by apply list_lookup_insert_eq.
    + by rewrite list_lookup_insert_ne.
Qed.

(** With two boxes or more, a box of highest score is kept by every run of
    [nms] that returns a mask. *)
Lemma nms_keeps_highest_of_several (bboxes : list box) (scores : list Qc)
      (iou_thresh : Qc) (classes : option (list Z)) (keep : list bool) :
  (2 <= length scores)%nat ->
  nms bboxes scores iou_thresh classes = Some (Ok keep) ->
  exists i si,
    scores !! i = Some si /\ keep !! i = Some true /\
    forall j sj, scores !! j = Some sj -> (sj <= si)%Qc.
Proof.
  intros Hn. unfold nms.
  pose proof (argsort_length scores) as Hlen.
  pose proof (argsort_range scores) as Hrange.
  pose proof (argsort_first_is_highest scores) as Hfirst.
  destruct (reverse (argsort scores)) as [|i [|j rest]]; simpl in Hlen; [lia..|].
  apply Forall_cons in Hrange as [Hi _].
  destruct (lookup_lt_is_Some_2 scores i Hi) as [si Hsi].
  destruct (length scores) as [|n] eqn:Hs; [lia|]. cbn [nms_while].
  destruct (nms_round _ _ _ _ _ _ _) as [[order1 keep1]|] eqn:Hround; [|done].
  apply nms_round_keep in Hround as [Hik ->].
  intros Hrun. exists i, si. split; [done|]. split.
  - apply (nms_while_keeps _ _ _ _ _ _ _ _ _ Hrun).
    by apply list_lookup_insert_eq.
  - intros j' sj Hj.
    pose proof (lookup_lt_Some _ _ _ Hj) as Hlt. rewrite Hs in Hlt.
    pose proof (Hfirst i (j :: rest) j' eq_refl Hlt) as Hle.
    by rewrite Hj, Hsi in Hle.
Qed.

(** ** The class-aware branch *)

Lemma where_from_elem_of (s : nat) (mask : list bool) (p : nat) :
  mask !! p = Some true -> (s + p)%nat ∈ where_from s mask.
Proof.
  revert s p. induction mask as [|b mask IH]; intros s [|p] Hp; simplify_eq/=.
  - rewrite Nat.add_0_r. by left.
  - replace (s + S p)%nat with (S s + p)%nat by lia.
    destruct b; [right|]; by apply IH.
Qed.

Lemma elem_of_union1d (a b : list nat) (k : nat) :
  k ∈ union1d a b <-> k ∈ a \/ k ∈ b.
Proof.
  unfold union1d.
  rewrite merge_sort_Permutation, elem_of_remove_dups. apply elem_of_app.
Qed.

(** Were the body of [if classes:] reached, it would keep in [order], next
    to the candidates of low overlap, exactly the candidates whose class
    differs from that of the kept box. *)
Lemma different_class_keeps (cls : list Z) (i : nat) (rest idxs idxs' : list nat) :
  different_class (Some cls) i rest idxs = Ok idxs' ->
  forall k, k ∈ idxs' <->
            k ∈ idxs \/
            exists j cj ci, rest !! k = Some j /\ cls !! j = Some cj /\
                            cls !! i = Some ci /\ cj <> ci.
Proof.
  unfold different_class.
  destruct (take_idx cls rest) as [crest|] eqn:Hcrest; [simpl|done].
  destruct (index cls i) as [ci|] eqn:Hci; [simpl|done].
  intros [= <-] k. apply take_idx_Ok in Hcrest. apply index_Ok in Hci.
  rewrite elem_of_union1d. apply or_iff_compat_l. split.
  - intros (p & -> & Hp)%elem_of_where_from. simpl in *.
    apply list_lookup_fmap_Some in Hp as (cj & Hne & Hcj).
    destruct (Forall2_lookup_r _ _ _ _ _ Hcrest Hcj) as (j & Hj & Hlj).
    exists j, cj, ci. repeat split; try done.
    intros ->. by rewrite Z.eqb_refl in Hne.
  - intros (j & cj & ci' & Hj & Hcj & Hci' & Hne). simplify_eq.
    destruct (Forall2_lookup_l _ _ _ _ _ Hcrest Hj) as (cj' & Hcj' & Hlj).
    simplify_eq. apply (where_from_elem_of 0).
    rewrite list_lookup_fmap, Hcj'. simpl. f_equal.
    by apply negb_true_iff, Z.eqb_neq.
Qed.

(** ** Results on [nms] *)

Lemma iou_single (a b : box) :
  iou a [b] (area a) [area b] = [pair_iou a b].
Proof.
  rewrite iou_cons. unfold pair_iou. f_equal.
  by destruct a as [[[x1 y1] x2] y2].
Qed.

(** The run of the specification's example keeps the first box only. *)
Lemma nms_example :
  nms Example.boxes Example.scores Example.iou_thresh None
  = Some (Ok [true; false]).
Proof. vm_compute. reflexivity. Qed.

(** What the loop guarantees.  Agnostic [nms] (classes = None) on N boxes
    with N scores returns a mask [keep] of length N, hence with at most N
    boxes kept, and for any two distinct kept boxes the number that [iou]
    computes is at most [iou_thresh]. *)
Theorem nms_agnostic_kept_pairwise (bboxes : list box) (scores : list Qc)
        (iou_thresh : Qc) :
  length bboxes = length scores ->
  exists keep,
    nms bboxes scores iou_thresh None = Some (Ok keep) /\
    length keep = length scores /\
    (length (filter (fun b : bool => b = true) keep) <= length bboxes)%nat /\
    forall i j bi bj,
      i <> j -> keep !! i = Some true -> keep !! j = Some true ->
      bboxes !! i = Some bi -> bboxes !! j = Some bj ->
      exists v, iou bi [bj] (area bi) [area bj] = [v] /\ (v <= iou_thresh)%Qc.
Proof.
  intros Hlen. unfold nms.
  destruct (nms_while_agnostic bboxes iou_thresh (length scores)
              (reverse (argsort scores)) (replicate (length scores) false))
    as (keep & Hrun & Hk & Hpairs).
  - by rewrite length_replicate.
  - rewrite Hlen. apply argsort_range.
  - rewrite argsort_length. lia.
  - intros k j Hk _. apply lookup_replicate in Hk as [? _]. done.
  - intros k j _ Hk _. apply lookup_replicate in Hk as [? _]. done.
  - exists keep. split; [done|]. split; [congruence|]. split.
    { rewrite <- Hk. apply length_filter. }
    intros i j bi bj Hne Hi Hj Hbi Hbj.
    exists (pair_iou bi bj). split; [apply iou_single|].
    apply leb_le. by apply (Hpairs i j).
Qed.

Lemma nms_agnostic_kept_pairwise_witness :
  exists keep,
    nms Example.boxes Example.scores Example.iou_thresh None = Some (Ok keep) /\
    length keep = length Example.scores /\
    (length (filter (fun b : bool => b = true) keep) <= length Example.boxes)%nat /\
    forall i j bi bj,
      i <> j -> keep !! i = Some true -> keep !! j = Some true ->
      Example.boxes !! i = Some bi -> Example.boxes !! j = Some bj ->
      exists v, iou bi [bj] (area bi) [area bj] = [v]
                /\ (v <= Example.iou_thresh)%Qc.
Proof.
  apply (nms_agnostic_kept_pairwise Example.boxes Example.scores
           Example.iou_thresh).
  reflexivity.
Defined.

(** C1. With exactly one input box the loop [while order.size > 1] is never
    entered, and the mask that [nms] returns does not keep that box, for any
    box, score, threshold and classes. *)
Theorem nms_single_box_not_kept (b : box) (s : Qc) (iou_thresh : Qc)
        (classes : option (list Z)) :
  nms [b] [s] iou_thresh classes = Some (Ok [false]).
Proof. reflexivity. Qed.

(** C4. With a class array of the length of the input, and at least two
    boxes, [nms] stops in its first round at [if classes:] with
    [ValueError]: no mask is returned and no candidate is compared by
    class. *)
Theorem nms_with_classes_raises (bboxes : list box) (scores : list Qc)
        (iou_thresh : Qc) (classes : list Z) :
  length bboxes = length scores ->
  length classes = length scores ->
  (2 <= length scores)%nat ->
  nms bboxes scores iou_thresh (Some classes) = Some (Raise ValueError).
Proof.
  intros Hb Hc Hn. unfold nms.
  pose proof (argsort_length scores) as Hlen.
  pose proof (argsort_range scores) as Hrange.
  destruct (reverse (argsort scores)) as [|i [|j rest]]; simpl in Hlen; [lia..|].
  destruct (length scores) as [|n] eqn:Hs; [lia|]. cbn [nms_while].
  apply Forall_cons in Hrange as [Hi Hrest].
  unfold nms_round.
  destruct (index_lt (replicate (S n) false) i) as [ki ->];
    [by rewrite length_replicate|]. cbn [mbind result_bind].
  destruct (index_lt bboxes i) as [bi ->]; [lia|]. cbn [mbind result_bind].
  destruct (take_idx_total bboxes (j :: rest)) as [brest ->];
    [by rewrite Hb|]. cbn [mbind result_bind].
  destruct (index_lt (map area bboxes) i) as [ai ->];
    [rewrite length_map; lia|]. cbn [mbind result_bind].
  destruct (take_idx_total (map area bboxes) (j :: rest)) as [arest ->];
    [by rewrite length_map, Hb|]. cbn [mbind result_bind].
  destruct classes as [|c0 [|c1 classes]]; simpl in Hc; [lia..|]. done.
Qed.

Lemma nms_with_classes_raises_witness :
  nms Example.boxes Example.scores Example.iou_thresh (Some Example.classes)
  = Some (Raise ValueError).
Proof.
  apply (nms_with_classes_raises Example.boxes Example.scores
           Example.iou_thresh Example.classes); simpl; lia.
Defined.

(** ** Box formats *)

Lemma cxcywh_xyxy_xywh (bboxes : list box) :
  xyxy_to_xywh (cxcywh_to_xyxy bboxes)
  = map (fun '(cx, cy, w, h) => (cx - w / 2, cy - h / 2, w, h)%Qc) bboxes.
Proof.
  unfold xyxy_to_xywh, cxcywh_to_xyxy. rewrite map_map.
  apply map_ext. intros [[[cx cy] w] h]. simpl.
  f_equal; [f_equal|]; field; done.
Qed.

(** C2, as the code has it. Converting center-form boxes to corner form and
    back with [xyxy_to_xywh] gives, for each (cx, cy, w, h), the box
    (cx - w/2, cy - h/2, w, h): the width and height come back, the first
    two coordinates are the top-left corner and not the center. *)
Theorem xywh_of_cxcywh_is_top_left (bboxes : list box) :
  xyxy_to_xywh (cxcywh_to_xyxy bboxes)
  = map (fun '(cx, cy, w, h) => (cx - w / 2, cy - h / 2, w, h)%Qc) bboxes.
Proof. apply cxcywh_xyxy_xywh. Qed.

(** C2, as stated, fails: the valid box with center (5,5), width 4 and
    height 2 comes back as (3,4,4,2), which is not within one unit of it. *)
Lemma roundtrip_counterexample :
  Spec.valid_cxcywh Example.centered /\
  exists r, xyxy_to_xywh (cxcywh_to_xyxy [Example.centered]) = [r] /\
            r = (Num.of_Z 3, Num.of_Z 4, Num.of_Z 4, Num.of_Z 2) /\
            ~ Spec.box_close 1 r Example.centered.
Proof.
  split.
  { split; apply leb_le; vm_compute; reflexivity. }
  exists (Num.of_Z 3, Num.of_Z 4, Num.of_Z 4, Num.of_Z 2).
  split; [|split; [done|]].
  - rewrite cxcywh_xyxy_xywh. simpl. repeat f_equal; qc_eq.
  - intros [H _]. apply leb_le in H. vm_compute in H. discriminate.
Qed.

(** ** The overlap formula *)

(** C3. The area of each box in [nms] is [(x2-x1)*(y2-y1)], without the
    [+1] of the intersection and without clipping: on the example of the
    specification the code computes the overlap 100/100 = 1 where inclusive
    areas give 100/142, and for two copies of the box (0,0,1,1) it computes
    4/(1+1-4) = -2 where inclusive areas give 1. *)
Theorem iou_box_area_not_inclusive :
  map area Example.boxes = [Num.of_Z 100; Num.of_Z 100] /\
  map Spec.inclusive_area Example.boxes = [Num.of_Z 121; Num.of_Z 121] /\
  iou (Num.of_Z 0, Num.of_Z 0, Num.of_Z 10, Num.of_Z 10)
      [(Num.of_Z 1, Num.of_Z 1, Num.of_Z 11, Num.of_Z 11)]
      (Num.of_Z 100) [Num.of_Z 100] = [Num.of_Z 1] /\
  Spec.inclusive_iou (Num.of_Z 0, Num.of_Z 0, Num.of_Z 10, Num.of_Z 10)
      (Num.of_Z 1, Num.of_Z 1, Num.of_Z 11, Num.of_Z 11) = Num.frac 100 142 /\
  iou Example.small [Example.small] (area Example.small) [area Example.small]
    = [Num.of_Z (-2)] /\
  Spec.inclusive_iou Example.small Example.small = Num.of_Z 1.
Proof.
  repeat split;
    unfold Spec.inclusive_iou, iou, intersection_area, intersection_box; simpl;
    repeat f_equal; qc_eq.
Qed.

(** C5. Of three copies of the box (0,0,1,1), given with the scores 0.9,
    0.8 and 0.7 and the threshold 0.3, agnostic [nms] keeps the first two:
    two kept boxes that are one and the same box, of intersection over
    union 1.  The number that [iou] computes for them is -2, the area of
    each box being taken as 1 and their intersection as 4. *)
Theorem nms_keeps_identical_boxes :
  nms Example.triple Example.triple_scores Example.iou_thresh None
    = Some (Ok [true; true; false]) /\
  Example.triple !! 0%nat = Some Example.small /\
  Example.triple !! 1%nat = Some Example.small /\
  Spec.inclusive_iou Example.small Example.small = Num.of_Z 1 /\
  (Example.iou_thresh < Num.of_Z 1)%Qc /\
  iou Example.small [Example.small] (area Example.small) [area Example.small]
    = [Num.of_Z (-2)].
Proof.
  split; [vm_compute; reflexivity|].
  split; [reflexivity|]. split; [reflexivity|].
  split; [unfold Spec.inclusive_iou; simpl; qc_eq|].
  split; [reflexivity|].
  unfold iou, intersection_area, intersection_box; simpl. repeat f_equal. qc_eq.
Qed.

(** ** Cutoff search *)

Lemma _find_cutoff_from_first (i : nat) (model : list Layer.t) (k : nat) (m : Layer.t) :
  model !! k = Some m ->
  Layer.type m = SPPF_type ->
  (forall j m', (j < k)%nat -> model !! j = Some m' -> Layer.type m' <> SPPF_type) ->
  _find_cutoff_from i model = Ok (Z.of_nat (i + k) - 1).
Proof.
  revert i k. induction model as [|m0 model IH]; intros i k Hk Hm Hfirst; [done|].
  simpl. destruct k as [|k]; simpl in Hk.
  - simplify_eq. rewrite Hm, String.eqb_refl. do 3 f_equal. lia.
  - destruct (String.eqb_spec (Layer.type m0) SPPF_type) as [Heq|_].
    + by destruct (Hfirst 0%nat m0); [lia|..].
    + rewrite (IH (S i) k); [do 3 f_equal; lia|done..|].
      intros j m' Hj Hm'. apply (Hfirst (S j)); [lia|done].
Qed.

Lemma _find_cutoff_from_none (i : nat) (model : list Layer.t) :
  (forall m, m ∈ model -> Layer.type m <> SPPF_type) ->
  _find_cutoff_from i model = Raise ValueError.
Proof.
  revert i. induction model as [|m0 model IH]; intros i Hno; [done|].
  simpl. destruct (String.eqb_spec (Layer.type m0) SPPF_type) as [Heq|_].
  - destruct (Hno m0); [by left|done].
  - apply IH. intros m Hm. apply Hno. by right.
Qed.

(** C7. Without a given cutoff, [_find_cutoff] scans the layers in order:
    if the first SPPF layer is at position k it returns k - 1, and if no
    layer is an SPPF it raises [ValueError] (the configuration error of the
    specification). *)
Theorem find_cutoff_first_landmark (model : list Layer.t) :
  (forall k m,
     model !! k = Some m ->
     Layer.type m = SPPF_type ->
     (forall j m', (j < k)%nat -> model !! j = Some m' ->
                   Layer.type m' <> SPPF_type) ->
     _find_cutoff model = Ok (Z.of_nat k - 1)) /\
  ((forall m, m ∈ model -> Layer.type m <> SPPF_type) ->
   _find_cutoff model = Raise ValueError).
Proof.
  split.
  - intros k m Hk Hm Hfirst. apply (_find_cutoff_from_first 0 model k m); done.
  - apply _find_cutoff_from_none.
Qed.

Lemma find_cutoff_first_landmark_witness :
  _find_cutoff Yolo.layers = Ok 1 /\
  _find_cutoff Yolo.layers_without_sppf = Raise ValueError.
Proof.
  split.
  - apply (proj1 (find_cutoff_first_landmark Yolo.layers) 2%nat
             (Yolo.layer 2 (FInt (-1)) SPPF_type None (Some 32))).
    + reflexivity.
    + reflexivity.
    + intros j m' Hj Hm'.
      destruct j as [|[|j]]; simpl in Hm'; [| |lia]; by simplify_eq.
  - apply (proj2 (find_cutoff_first_landmark Yolo.layers_without_sppf)).
    intros m Hm. unfold Yolo.layers_without_sppf in Hm.
    repeat (apply elem_of_cons in Hm as [->|Hm]; [done|]).
    by apply elem_of_nil in Hm.
Defined.

(** ** Loops over the layers *)

Section ForEach.
Context {St : Type}.
Variable body : nat -> Layer.t -> St -> traced St.

Lemma for_each_app (p : nat) (l1 l2 : list Layer.t) (st : St) :
  for_each body p (l1 ++ l2) st =
  match for_each body p l1 st with
  | (c, Ok st') =>
      let '(cs, r) := for_each body (p + length l1) l2 st' in (c ++ cs, r)
  | (c, Raise e) => (c, Raise e)
  end.
Proof.
  revert p st. induction l1 as [|m l1 IH]; intros p st; simpl.
  - rewrite Nat.add_0_r. by destruct (for_each body p l2 st).
  - destruct (body p m st) as [c [st'|e]]; [|done].
    rewrite IH. destruct (for_each body (S p) l1 st') as [c1 [st1|e]]; [|done].
    replace (p + S (length l1))%nat with (S p + length l1)%nat by lia.
    destruct (for_each body (S p + length l1) l2 st1) as [cs r].
    by rewrite (assoc_L (++)).
Qed.

(** A layer that is called is one that the body of the loop lets through. *)
Lemma for_each_calls (P : Layer.t -> Prop) :
  (forall p m st q, q ∈ (body p m st).1 -> q = p /\ P m) ->
  forall layers p st q,
    q ∈ (for_each body p layers st).1 ->
    exists m, (p <= q)%nat /\ layers !! (q - p)%nat = Some m /\ P m.
Proof.
  intros Hbody. induction layers as [|m layers IH]; intros p st q; simpl.
  - by intros ?%elem_of_nil.
  - specialize (Hbody p m st q).
    destruct (body p m st) as [c [st'|e]]; simpl in *.
    + specialize (IH (S p) st' q).
      destruct (for_each body (S p) layers st') as [cs r]; simpl in *.
      intros [Hq|Hq]%elem_of_app.
      * destruct (Hbody Hq) as [-> HP]. exists m.
        rewrite Nat.sub_diag. done.
      * destruct (IH Hq) as (m' & Hle & Hm' & HP). exists m'.
        split; [lia|]. split; [|done].
        replace (q - p)%nat with (S (q - S p)) by lia. done.
    + intros Hq. destruct (Hbody Hq) as [-> HP]. exists m.
      rewrite Nat.sub_diag. done.
Qed.

(** A property of the local variables that each round keeps holds at the
    end. *)
Lemma for_each_invariant (I : St -> Prop) :
  (forall p m st c st', body p m st = (c, Ok st') -> I st -> I st') ->
  forall layers p st c st',
    for_each body p layers st = (c, Ok st') -> I st -> I st'.
Proof.
  intros Hbody. induction layers as [|m layers IH]; intros p st c st'; simpl.
  - by intros [= _ <-].
  - destruct (body p m st) as [c0 [st0|e]] eqn:Hb; [|done].
    destruct (for_each body (S p) layers st0) as [cs r] eqn:Hf.
    intros [= _ ->] HI. eapply IH; [done|]. by eapply Hbody.
Qed.


End ForEach.

(** ** The forward passes *)

Section Passes.
Context {T : Type}.
Variable call : Layer.t -> value T -> result (value T).

Lemma run_layer_calls (save : save_t) (p : nat) (m : Layer.t) (x : value T)
      (st : Frame.t T) (q : nat) :
  q ∈ (Hydra.run_layer call save p m x st).1 -> q = p.
Proof.
  unfold Hydra.run_layer.
  destruct (String.eqb _ _); [|by intros ->%list_elem_of_singleton].
  destruct (occurs_in "pitch" _) as [[|]|]; simpl;
    [by intros ->%list_elem_of_singleton| |by intros ?%elem_of_nil].
  destruct (occurs_in "theta" _) as [[|]|]; simpl;
    [by intros ->%list_elem_of_singleton..|by intros ?%elem_of_nil].
Qed.

Lemma _horizon_once_body_calls (cutoff : Z) (save : save_t) (p : nat)
      (m : Layer.t) (st : Frame.t T) (q : nat) :
  q ∈ (Hydra._horizon_once_body call cutoff save p m st).1 ->
  q = p /\ Hydra.past_cutoff cutoff m = false.
Proof.
  unfold Hydra._horizon_once_body.
  destruct (Hydra.past_cutoff cutoff m); [by intros ?%elem_of_nil|].
  destruct (Hydra.gather _ _ _); [|by intros ?%elem_of_nil].
  intros ?%run_layer_calls. done.
Qed.

Lemma _detect_once_body_calls (save : save_t) (p : nat)
      (m : Layer.t) (st : Frame.t T) (q : nat) :
  q ∈ (Hydra._detect_once_body call save p m st).1 ->
  q = p /\ Layer.type m <> Classify_type.
Proof.
  unfold Hydra._detect_once_body.
  destruct (String.eqb_spec (Layer.type m) Classify_type) as [|Hne];
    [by intros ?%elem_of_nil|].
  destruct (Hydra.gather _ _ _); [|by intros ?%elem_of_nil].
  by intros ->%list_elem_of_singleton.
Qed.

Lemma _horizon_once_calls (model : list Layer.t) (cutoff : Z) (save : save_t)
      (x : value T) (q : nat) :
  q ∈ (Hydra._horizon_once call model cutoff save x).1 ->
  exists m, model !! q = Some m /\ Hydra.past_cutoff cutoff m = false.
Proof.
  unfold Hydra._horizon_once.
  destruct (for_each _ _ _ _) as [calls r] eqn:Hrun. simpl. intros Hq.
  destruct (for_each_calls (Hydra._horizon_once_body call cutoff save)
              (fun m => Hydra.past_cutoff cutoff m = false)
              (_horizon_once_body_calls cutoff save)
              model 0%nat (Frame.make x [] VNone VNone) q) as (m & _ & Hm & HP).
  { by rewrite Hrun. }
  rewrite Nat.sub_0_r in Hm. eauto.
Qed.

Lemma _detect_once_calls (model : list Layer.t) (save : save_t)
      (x : value T) (q : nat) :
  q ∈ (Hydra._detect_once call model save x).1 ->
  exists m, model !! q = Some m /\ Layer.type m <> Classify_type.
Proof.
  unfold Hydra._detect_once.
  destruct (for_each _ _ _ _) as [calls r] eqn:Hrun. simpl. intros Hq.
  destruct (for_each_calls (Hydra._detect_once_body call save)
              (fun m => Layer.type m <> Classify_type)
              (_detect_once_body_calls save)
              model 0%nat (Frame.make x [] VNone VNone) q) as (m & _ & Hm & HP).
  { by rewrite Hrun. }
  rewrite Nat.sub_0_r in Hm. eauto.
Qed.

(** C8, as the code has it. In [_horizon_once] no layer whose index [m.i] is
    an integer greater than the cutoff is called, whatever the graph, the
    saved positions, the input and the outcome of the run. *)
Theorem horizon_once_skips_detection_tail (model : list Layer.t) (cutoff : Z)
        (save : save_t) (x : value T) (p : nat) (m : Layer.t) (n : Z) :
  model !! p = Some m ->
  Layer.i m = IInt n ->
  cutoff < n ->
  p ∉ (Hydra._horizon_once call model cutoff save x).1.
Proof.
  intros Hm Hi Hn Hp.
  apply _horizon_once_calls in Hp as (m' & Hm' & Hpast).
  simplify_eq. unfold Hydra.past_cutoff in Hpast. rewrite Hi in Hpast.
  by rewrite bool_decide_eq_false in Hpast.
Qed.

End Passes.

Lemma horizon_once_skips_detection_tail_witness :
  4%nat ∉ (Hydra._horizon_once Yolo.call Yolo.hydra_layers 1
             Yolo.hydra_save Yolo.image).1.
Proof.
  apply (horizon_once_skips_detection_tail Yolo.call Yolo.hydra_layers 1
           Yolo.hydra_save Yolo.image 4%nat
           (Yolo.layer 4 (FList [1; 3]) "models.yolo.Detect" None None) 4).
  - reflexivity.
  - reflexivity.
  - lia.
Defined.

(** C8, as stated, fails: in the graph that [Hydra] assembles from the
    small detection model the cutoff is 1, the heads sit at the positions
    5 and 6, and [_horizon_once] calls both. *)
Lemma horizon_once_calls_positions_past_cutoff :
  exists h inst,
    Hydra.init Yolo.base 500 500 None Yolo.store = (h, Ok inst) /\
    Instance.cutoff inst = 1 /\
    graph h (Instance.model inst) = Yolo.hydra_layers /\
    Instance.save inst = Yolo.hydra_save /\
    (Hydra._horizon_once Yolo.call (graph h (Instance.model inst))
       (Instance.cutoff inst) (Instance.save inst) Yolo.image).1
    = [0; 1; 5; 6]%nat /\
    Instance.cutoff inst < Z.of_nat 5.
Proof.
  eexists _, _. split; [vm_compute; reflexivity|].
  repeat split; try (vm_compute; reflexivity).
Qed.

(** ** The heads and the small model *)

(** A head is no layer of the detection tail: [_horizon_once] runs it as
    [_forward_once] does. *)
Lemma horizon_body_head {T} (call : Layer.t -> value T -> result (value T))
      (cutoff : Z) (save : save_t) (p : nat) (name : string)
      (ch nc : Z) (st : Frame.t T) :
  Hydra._horizon_once_body call cutoff save p (Classify name ch nc cutoff) st
  = Hydra._forward_once_body call save p (Classify name ch nc cutoff) st.
Proof. reflexivity. Qed.

Lemma yolo_layers_numbered (k : nat) (m : Layer.t) :
  Yolo.layers !! k = Some m ->
  Layer.i m = IInt (Z.of_nat k) /\ Layer.type m <> Classify_type.
Proof.
  intros Hm.
  destruct k as [|[|[|[|[|k]]]]]; simpl in Hm; [..|done]; by simplify_eq.
Qed.

(** In the mode of both tasks the value returned as [x] is the input
    gathered for the last head, here the output of layer 1 at the cutoff,
    and not the output of the last detection layer 4. *)
Lemma forward_both_returns_input_of_last_head :
  Hydra.forward Yolo.call both Yolo.hydra_layers 1 Yolo.hydra_save Yolo.image
  = ([0; 1; 2; 3; 4; 5; 6]%nat,
     Ok (Both (VTensor (IInt 1)) (VTensor (IStr "c_pitch"))
              (VTensor (IStr "c_theta")))).
Proof. vm_compute. reflexivity. Qed.

(** ** Assembly *)

(** Unfolding of the stateful steps of assembly. *)
Ltac unfold_assembly :=
  unfold Hydra.init, HorizonModel.init, Hydra._add_classification_heads,
    HorizonModel._from_detection_model, _get_classification_heads,
    add_module, sbind, get_model, set_model, get_sequential, set_sequential,
    get_layer, new_layer, new_sequential, lift, sret.

Lemma hydra_init_effect (base : loc) (nc_pitch nc_theta : Z)
      (cutoff : option Z) (h h' : Store.t) (inst : Instance.t) :
  Hydra.init base nc_pitch nc_theta cutoff h = (h', Ok inst) ->
  let d := Store.models h !!! base in
  let s := DetectionModel.model d in
  Instance.model inst = s /\
  DetectionModel.model (Store.models h' !!! base) = s /\
  Store.sequentials h' !!! s =
    dict_set "c_theta" (S (Store.next h))
      (dict_set "c_pitch" (Store.next h) (Store.sequentials h !!! s)) /\
  match cutoff with
  | Some c => Instance.cutoff inst = c
  | None => _find_cutoff (graph h s) = Ok (Instance.cutoff inst)
  end /\
  exists l,
    DetectionModel.save d = SaveList l /\
    Instance.save inst = SaveSet (list_to_set (l ++ [Instance.cutoff inst])) /\
    DetectionModel.save (Store.models h' !!! base) = Instance.save inst.
Proof.
  unfold_assembly. simpl.
  set (d := Store.models h !!! base).
  set (s := DetectionModel.model d).
  destruct cutoff as [c|];
    [|destruct (_find_cutoff (graph h s)) as [c|] eqn:Hfind; [|done]];
    (destruct (py_index _ _) as [[name after]|]; [|done]);
    (destruct (channels _) as [ch|]; [|done]); simpl;
    fold d; fold s;
    (destruct (DetectionModel.save d) as [l|gs] eqn:Hsave; [|done]); simpl;
    intros [= <- <-]; simpl;
    rewrite !lookup_total_insert_eq; simpl;
    (repeat split; try done); by exists l.
Qed.

Lemma horizon_init_effect (base : loc) (nc_pitch nc_theta : Z)
      (cutoff : option Z) (h h' : Store.t) (inst : Instance.t) :
  HorizonModel.init base nc_pitch nc_theta cutoff h = (h', Ok inst) ->
  let d := Store.models h !!! base in
  let s := DetectionModel.model d in
  let s' := S (S (Store.next h)) in
  Instance.model inst = s' /\
  DetectionModel.model (Store.models h' !!! base) = s' /\
  Store.sequentials h' !!! s' =
    dict_set "c_theta" (S (Store.next h))
      (dict_set "c_pitch" (Store.next h)
         (py_slice_to (Store.sequentials h !!! s) (Instance.cutoff inst + 1))) /\
  (s <> s' -> Store.sequentials h' !!! s = Store.sequentials h !!! s) /\
  match cutoff with
  | Some c => Instance.cutoff inst = c
  | None => _find_cutoff (graph h s) = Ok (Instance.cutoff inst)
  end /\
  exists l,
    DetectionModel.save d = SaveList l /\
    Instance.save inst = SaveSet (list_to_set (l ++ [Instance.cutoff inst])) /\
    DetectionModel.save (Store.models h' !!! base) = Instance.save inst.
Proof.
  unfold_assembly. simpl.
  set (d := Store.models h !!! base).
  set (s := DetectionModel.model d).
  destruct cutoff as [c|];
    [|destruct (_find_cutoff (graph h s)) as [c|] eqn:Hfind; [|done]];
    (destruct (py_index _ _) as [[name after]|]; [|done]);
    (destruct (channels _) as [ch|]; [|done]); simpl;
    fold d; fold s;
    (destruct (DetectionModel.save d) as [l|gs] eqn:Hsave; [|done]); simpl;
    intros [= <- <-]; simpl;
    rewrite !lookup_total_insert_eq; simpl;
    (repeat split; try done);
    try (by exists l);
    intros Hne; by rewrite !lookup_total_insert_ne by done.
Qed.

(** The layer objects of the base are left as they are by both
    assemblies; the two heads are new objects. *)
Lemma assembly_layers (base : loc) (nc_pitch nc_theta : Z)
      (cutoff : option Z) (h h' : Store.t) (inst : Instance.t) :
  Hydra.init base nc_pitch nc_theta cutoff h = (h', Ok inst) \/
  HorizonModel.init base nc_pitch nc_theta cutoff h = (h', Ok inst) ->
  forall m, m <> Store.next h -> m <> S (Store.next h) ->
            Store.layers h' !! m = Store.layers h !! m.
Proof.
  unfold_assembly. simpl.
  set (d := Store.models h !!! base).
  set (s := DetectionModel.model d).
  intros [Hrun|Hrun]; revert Hrun;
    (destruct cutoff as [c|];
     [|destruct (_find_cutoff (graph h s)) as [c|] eqn:Hfind; [|done]]);
    (destruct (py_index _ _) as [[name after]|]; [|done]);
    (destruct (channels _) as [ch|]; [|done]); simpl;
    fold d; fold s;
    (destruct (DetectionModel.save d) as [l|gs] eqn:Hsave; [|done]); simpl;
    intros [= <- <-]; simpl;
    intros m Hm1 Hm2; by rewrite !lookup_insert_ne by done.
Qed.

(** A base whose [save] is already a set cannot be assembled from. *)
Lemma assembly_on_assembled_raises (base : loc) (nc_pitch nc_theta : Z)
      (cutoff : option Z) (h : Store.t) (gs : gset Z) :
  DetectionModel.save (Store.models h !!! base) = SaveSet gs ->
  (exists e, (Hydra.init base nc_pitch nc_theta cutoff h).2 = Raise e) /\
  (exists e, (HorizonModel.init base nc_pitch nc_theta cutoff h).2 = Raise e).
Proof.
  intros Hsave. unfold_assembly. simpl.
  set (d := Store.models h !!! base) in *.
  set (s := DetectionModel.model d).
  split;
    (destruct cutoff as [c|];
     [|destruct (_find_cutoff (graph h s)) as [c|] eqn:Hfind; [|by eexists]]);
    (destruct (py_index _ _) as [[name after]|]; [|by eexists]);
    (destruct (channels _) as [ch|]; [|by eexists]); simpl;
    fold d; rewrite Hsave; simpl; by eexists.
Qed.

(** C6, as the code has it. Both assemblies work on the loaded detection
    model in place.  [Hydra] adds the two heads to the container of the
    base; [HorizonModel] rebinds the base to a new container with the
    layers up to the cutoff and the two heads.  In both the cutoff is
    added to [save] of the base, which becomes a set, and the assembled
    model holds the very container and [save] of the base.  The layer
    objects of the base, and so their wiring, are left as they are.  A
    further assembly from a base that was assembled from raises. *)
Theorem assembly_in_place (base : loc) (nc_pitch nc_theta : Z)
        (cutoff : option Z) (h h' : Store.t) (inst : Instance.t) :
  let d := Store.models h !!! base in
  let d' := Store.models h' !!! base in
  let s := DetectionModel.model d in
  let heads (children : list (string * loc)) :=
    dict_set "c_theta" (S (Store.next h))
      (dict_set "c_pitch" (Store.next h) children) in
  (Hydra.init base nc_pitch nc_theta cutoff h = (h', Ok inst) ->
   DetectionModel.model d' = s /\
   Store.sequentials h' !!! s = heads (Store.sequentials h !!! s)) /\
  (HorizonModel.init base nc_pitch nc_theta cutoff h = (h', Ok inst) ->
   DetectionModel.model d' = S (S (Store.next h)) /\
   Store.sequentials h' !!! DetectionModel.model d' =
     heads (py_slice_to (Store.sequentials h !!! s) (Instance.cutoff inst + 1)) /\
   (s <> S (S (Store.next h)) ->
    Store.sequentials h' !!! s = Store.sequentials h !!! s)) /\
  (Hydra.init base nc_pitch nc_theta cutoff h = (h', Ok inst) \/
   HorizonModel.init base nc_pitch nc_theta cutoff h = (h', Ok inst) ->
   Instance.model inst = DetectionModel.model d' /\
   Instance.save inst = DetectionModel.save d' /\
   (exists l, DetectionModel.save d = SaveList l /\
              DetectionModel.save d'
              = SaveSet (list_to_set (l ++ [Instance.cutoff inst]))) /\
   (forall m, m <> Store.next h -> m <> S (Store.next h) ->
              Store.layers h' !! m = Store.layers h !! m) /\
   (forall nc_pitch' nc_theta' cutoff',
      (exists e, (Hydra.init base nc_pitch' nc_theta' cutoff' h').2 = Raise e) /\
      (exists e, (HorizonModel.init base nc_pitch' nc_theta' cutoff' h').2
                 = Raise e))).
Proof.
  simpl. split; [|split].
  - intros Hrun. apply hydra_init_effect in Hrun as (_ & Hm & Hs & _). done.
  - intros Hrun.
    apply horizon_init_effect in Hrun as (_ & Hm & Hs & Hold & _).
    simpl in *. rewrite Hm. done.
  - intros Hrun.
    pose proof (assembly_layers _ _ _ _ _ _ _ Hrun) as Hlayers.
    assert (Instance.model inst = DetectionModel.model (Store.models h' !!! base) /\
            exists l, DetectionModel.save (Store.models h !!! base) = SaveList l /\
                      Instance.save inst
                      = SaveSet (list_to_set (l ++ [Instance.cutoff inst])) /\
                      DetectionModel.save (Store.models h' !!! base)
                      = Instance.save inst) as (Hmodel & l & Hl & Hsave & Hsame).
    { destruct Hrun as [Hrun|Hrun].
      - apply hydra_init_effect in Hrun as (Hi & Hm & _ & _ & Hsave).
        simpl in *. split; [congruence|done].
      - apply horizon_init_effect in Hrun as (Hi & Hm & _ & _ & _ & Hsave).
        simpl in *. split; [congruence|done]. }
    split; [done|]. split; [done|]. split; [exists l; split; congruence|].
    split; [done|].
    intros nc_pitch' nc_theta' cutoff'.
    eapply assembly_on_assembled_raises. rewrite Hsame, Hsave. done.
Qed.

Lemma assembly_in_place_witness :
  exists h' inst,
    Hydra.init Yolo.base 500 500 None Yolo.store = (h', Ok inst) /\
    Instance.model inst = DetectionModel.model (Store.models h' !!! Yolo.base) /\
    Instance.save inst = DetectionModel.save (Store.models h' !!! Yolo.base) /\
    exists e, (Hydra.init Yolo.base 500 500 None h').2 = Raise e.
Proof.
  destruct (Hydra.init Yolo.base 500 500 None Yolo.store) as [h' r] eqn:Hrun.
  assert (exists inst, r = Ok inst) as [inst ->].
  { vm_compute in Hrun. injection Hrun as _ <-. by eexists. }
  exists h', inst. split; [done|].
  destruct (assembly_in_place Yolo.base 500 500 None Yolo.store h' inst)
    as (_ & _ & Hcommon).
  destruct (Hcommon (or_introl Hrun)) as (Hm & Hs & _ & _ & Htwice).
  split; [done|]. split; [done|].
  apply (Htwice 500 500 None).
Defined.

(** C6, as stated, fails: after either assembly from the small detection
    model its layers and its [save] differ from what they were, the
    assembled model holds the container of the base, and assembling once
    more from the same base raises ([TypeError] at [model.save + [cutoff]]
    for [Hydra]; for [HorizonModel] the SPPF is gone and the cutoff search
    raises [ValueError]). *)
Lemma assembly_mutates_base :
  let before := Store.models Yolo.store !!! Yolo.base in
  (exists h inst,
     Hydra.init Yolo.base 500 500 None Yolo.store = (h, Ok inst) /\
     let after := Store.models h !!! Yolo.base in
     graph h (DetectionModel.model after)
       <> graph Yolo.store (DetectionModel.model before) /\
     DetectionModel.save after <> DetectionModel.save before /\
     Instance.model inst = DetectionModel.model after /\
     (Hydra.init Yolo.base 500 500 None h).2 = Raise TypeError) /\
  (exists h inst,
     HorizonModel.init Yolo.base 500 500 None Yolo.store = (h, Ok inst) /\
     let after := Store.models h !!! Yolo.base in
     graph h (DetectionModel.model after)
       <> graph Yolo.store (DetectionModel.model before) /\
     DetectionModel.save after <> DetectionModel.save before /\
     Instance.model inst = DetectionModel.model after /\
     (HorizonModel.init Yolo.base 500 500 None h).2 = Raise ValueError).
Proof.
  split.
  - eexists _, _. split; [vm_compute; reflexivity|].
    split; [vm_compute; discriminate|].
    split; [vm_compute; discriminate|].
    split; vm_compute; reflexivity.
  - eexists _, _. split; [vm_compute; reflexivity|].
    split; [vm_compute; discriminate|].
    split; [vm_compute; discriminate|].
    split; vm_compute; reflexivity.
Qed.

(** ** Rows of a buffer *)

Lemma row_split (o : nat) (r : list Qc) :
  (o + 4 <= length r)%nat ->
  exists pre x1 y1 x2 y2 post,
    r = pre ++ x1 :: y1 :: x2 :: y2 :: post /\ length pre = o.
Proof.
  intros Hlen. exists (take o r).
  pose proof (take_drop o r) as Hr.
  pose proof (length_drop r o) as Hd.
  destruct (drop o r) as [|x1 [|y1 [|x2 [|y2 post]]]]; simpl in Hd; try lia.
  exists x1, y1, x2, y2, post. split; [done|].
  rewrite length_take. lia.
Qed.

Lemma box_at_app (pre : list Qc) (x1 y1 x2 y2 : Qc) (post : list Qc) :
  Np.box_at (length pre) (pre ++ x1 :: y1 :: x2 :: y2 :: post) = (x1, y1, x2, y2).
Proof.
  unfold Np.box_at. rewrite !lookup_total_app_r by lia.
  replace (length pre - length pre)%nat with 0%nat by lia.
  replace (length pre + 1 - length pre)%nat with 1%nat by lia.
  replace (length pre + 2 - length pre)%nat with 2%nat by lia.
  replace (length pre + 3 - length pre)%nat with 3%nat by lia.
  reflexivity.
Qed.

Lemma set_box_app (pre : list Qc) (b : box) (x1 y1 x2 y2 : Qc) (post : list Qc) :
  Np.set_box (length pre) b (pre ++ x1 :: y1 :: x2 :: y2 :: post)
  = pre ++ b.1.1.1 :: b.1.1.2 :: b.1.2 :: b.2 :: post.
Proof.
  destruct b as [[[b1 b2] b3] b4]. unfold Np.set_box.
  rewrite <- (Nat.add_0_r (length pre)) at 1.
  rewrite !insert_app_r. reflexivity.
Qed.

(** The in-place update of the entries [idx] of a row, as [update_columns]
    does it. *)
Lemma alter_columns_app (g : Qc -> Qc) (idx : list nat) (pre l : list Qc) :
  foldr (fun k r => alter g (length pre + k)%nat r) (pre ++ l) idx
  = pre ++ foldr (fun k r => alter g k r) l idx.
Proof.
  induction idx as [|k idx IH]; simpl; [done|].
  by rewrite IH, alter_app_r.
Qed.

Lemma on_box_length (o : nat) (g : box -> box) (r : list Qc) :
  length (Np.on_box o g r) = length r.
Proof.
  unfold Np.on_box, Np.set_box. destruct (g _) as [[[b1 b2] b3] b4].
  by rewrite !length_insert.
Qed.

Lemma on_box_box_at (o : nat) (g : box -> box) (r : list Qc) :
  (o + 4 <= length r)%nat ->
  Np.box_at o (Np.on_box o g r) = g (Np.box_at o r).
Proof.
  intros Hlen.
  destruct (row_split o r Hlen) as (pre & x1 & y1 & x2 & y2 & post & -> & <-).
  unfold Np.on_box. rewrite set_box_app, !box_at_app.
  by destruct (g _) as [[[b1 b2] b3] b4].
Qed.

(** Entries outside the box are left as they are. *)
Lemma on_box_other (o : nat) (g : box -> box) (r : list Qc) (k : nat) :
  (k < o \/ o + 4 <= k)%nat -> Np.on_box o g r !! k = r !! k.
Proof.
  intros Hk. unfold Np.on_box, Np.set_box.
  destruct (g _) as [[[b1 b2] b3] b4].
  rewrite !list_lookup_insert_ne by lia. done.
Qed.

Lemma update_02 (o : nat) (g : Qc -> Qc) (r : list Qc) :
  (o + 4 <= length r)%nat ->
  foldr (fun k r => alter g (o + k)%nat r) r [0; 2]%nat
  = Np.on_box o (fun '(x1, y1, x2, y2) => (g x1, y1, g x2, y2)) r.
Proof.
  intros Hlen.
  destruct (row_split o r Hlen) as (pre & x1 & y1 & x2 & y2 & post & -> & <-).
  unfold Np.on_box. rewrite alter_columns_app, set_box_app, box_at_app.
  reflexivity.
Qed.

Lemma update_13 (o : nat) (g : Qc -> Qc) (r : list Qc) :
  (o + 4 <= length r)%nat ->
  foldr (fun k r => alter g (o + k)%nat r) r [1; 3]%nat
  = Np.on_box o (fun '(x1, y1, x2, y2) => (x1, g y1, x2, g y2)) r.
Proof.
  intros Hlen.
  destruct (row_split o r Hlen) as (pre & x1 & y1 & x2 & y2 & post & -> & <-).
  unfold Np.on_box. rewrite alter_columns_app, set_box_app, box_at_app.
  reflexivity.
Qed.

Lemma update_0123 (o : nat) (g : Qc -> Qc) (r : list Qc) :
  (o + 4 <= length r)%nat ->
  foldr (fun k r => alter g (o + k)%nat r) r [0; 1; 2; 3]%nat
  = Np.on_box o (fun '(x1, y1, x2, y2) => (g x1, g y1, g x2, g y2)) r.
Proof.
  intros Hlen.
  destruct (row_split o r Hlen) as (pre & x1 & y1 & x2 & y2 & post & -> & <-).
  unfold Np.on_box. rewrite alter_columns_app, set_box_app, box_at_app.
  reflexivity.
Qed.

Lemma on_box_on_box (o : nat) (g1 g2 : box -> box) (r : list Qc) :
  (o + 4 <= length r)%nat ->
  Np.on_box o g2 (Np.on_box o g1 r) = Np.on_box o (fun b => g2 (g1 b)) r.
Proof.
  intros Hlen.
  destruct (row_split o r Hlen) as (pre & x1 & y1 & x2 & y2 & post & -> & <-).
  unfold Np.on_box. rewrite !box_at_app, set_box_app, box_at_app.
  destruct (g1 _) as [[[b1 b2] b3] b4] eqn:Hg1. simpl.
  by rewrite !set_box_app.
Qed.

(** ** Buffers in memory *)

Section Buffers.
Import Np.
Implicit Types (a : ndarray) (mem : memory) (g : box -> box).

Lemma rows_map_boxes a g mem :
  rows (map_boxes a g mem) a = map (on_box (offset a) g) (rows mem a).
Proof. unfold rows, map_boxes. by rewrite lookup_total_insert_eq. Qed.

Lemma shaped_map_boxes a g mem : shaped mem a -> shaped (map_boxes a g mem) a.
Proof.
  unfold shaped. rewrite rows_map_boxes, Forall_map. intros Hs.
  eapply Forall_impl; [exact Hs|]. intros r Hr. simpl. by rewrite on_box_length.
Qed.

Lemma boxes_map_boxes a g mem :
  shaped mem a -> boxes (map_boxes a g mem) a = map g (boxes mem a).
Proof.
  intros Hs. unfold boxes. rewrite rows_map_boxes, !map_map.
  apply map_ext_Forall. eapply Forall_impl; [exact Hs|].
  intros r Hr. by apply on_box_box_at.
Qed.

Lemma map_boxes_compose a g1 g2 mem :
  shaped mem a ->
  map_boxes a g2 (map_boxes a g1 mem) = map_boxes a (fun b => g2 (g1 b)) mem.
Proof.
  intros Hs. unfold map_boxes at 1. rewrite rows_map_boxes.
  unfold map_boxes. rewrite insert_insert_eq. f_equal.
  rewrite map_map. apply map_ext_Forall. eapply Forall_impl; [exact Hs|].
  intros r Hr. by apply on_box_on_box.
Qed.

Lemma map_boxes_ext a g g' mem :
  (forall b, g b = g' b) -> map_boxes a g mem = map_boxes a g' mem.
Proof.
  intros Hg. unfold map_boxes. f_equal. apply map_ext. intros r.
  unfold on_box. by rewrite Hg.
Qed.

Lemma update_columns_map_boxes a (idx : list nat) (f : Qc -> Qc) g mem :
  shaped mem a ->
  forallb (fun k => Nat.ltb k (width a)) idx = true ->
  (forall r, (offset a + 4 <= length r)%nat ->
     foldr (fun k r => alter f (offset a + k)%nat r) r idx = on_box (offset a) g r) ->
  update_columns a idx f mem = (map_boxes a g mem, Ok tt).
Proof.
  intros Hs Hidx Hrow. unfold update_columns. rewrite Hidx.
  unfold map_boxes. do 2 f_equal.
  apply map_ext_Forall. eapply Forall_impl; [exact Hs|].
  intros r Hr. by apply Hrow.
Qed.

End Buffers.

(** ** The transforms in place *)

Section Transforms.
Import Np.
Implicit Types (a : ndarray) (mem : memory).

Lemma columns_in_range a (idx : list nat) :
  (4 <= width a)%nat ->
  Forall (fun k => (k < 4)%nat) idx ->
  forallb (fun k => Nat.ltb k (width a)) idx = true.
Proof.
  intros Hw Hidx. apply forallb_forall. intros k Hk.
  apply Nat.ltb_lt. apply list_elem_of_In in Hk.
  pose proof (proj1 (Forall_forall _ _) Hidx k Hk). simpl in *. lia.
Qed.

Lemma two_updates a (f0 f1 : Qc -> Qc) (g : box -> box) mem :
  (4 <= width a)%nat ->
  shaped mem a ->
  (forall x1 y1 x2 y2, g (x1, y1, x2, y2) = (f0 x1, f1 y1, f0 x2, f1 y2)) ->
  (do _u <- update_columns a [0; 2]%nat f0;
   update_columns a [1; 3]%nat f1) mem
  = (map_boxes a g mem, Ok tt).
Proof.
  intros Hw Hs Hg. unfold sbind.
  rewrite (update_columns_map_boxes a [0; 2]%nat f0
             (fun '(x1, y1, x2, y2) => (f0 x1, y1, f0 x2, y2)) mem Hs);
    [|apply columns_in_range; [done|repeat constructor; lia]
     |intros r Hr; by apply update_02].
  rewrite (update_columns_map_boxes a [1; 3]%nat f1
             (fun '(x1, y1, x2, y2) => (x1, f1 y1, x2, f1 y2)));
    [|by apply shaped_map_boxes
     |apply columns_in_range; [done|repeat constructor; lia]
     |intros r Hr; by apply update_13].
  rewrite map_boxes_compose by done. f_equal.
  apply map_boxes_ext. intros [[[x1 y1] x2] y2]. by rewrite Hg.
Qed.

Lemma xyxy_to_xyxyn_effect a (shape : Z * Z) mem :
  (4 <= width a)%nat -> shaped mem a ->
  InPlace.xyxy_to_xyxyn a shape mem
  = (map_boxes a (InPlace.normalised shape) mem, Ok a).
Proof.
  intros Hw Hs. destruct shape as [h w]. unfold InPlace.xyxy_to_xyxyn.
  pose proof (two_updates a (fun v => v / Num.of_Z w)%Qc
                (fun v => v / Num.of_Z h)%Qc
                (InPlace.normalised (h, w)) mem Hw Hs) as H2.
  unfold sbind in *. destruct (update_columns a [0; 2]%nat _ mem) as [m1 [[]|e]].
  - rewrite H2; [done|]. by intros x1 y1 x2 y2.
  - discriminate H2. by intros x1 y1 x2 y2.
Qed.

Lemma xyxyn_to_xyxy_effect a (shape : Z * Z) mem :
  (4 <= width a)%nat -> shaped mem a ->
  InPlace.xyxyn_to_xyxy a shape mem
  = (map_boxes a (InPlace.denormalised shape) mem, Ok a).
Proof.
  intros Hw Hs. destruct shape as [h w]. unfold InPlace.xyxyn_to_xyxy.
  pose proof (two_updates a (fun v => v * Num.of_Z w)%Qc
                (fun v => v * Num.of_Z h)%Qc
                (InPlace.denormalised (h, w)) mem Hw Hs) as H2.
  unfold sbind in *. destruct (update_columns a [0; 2]%nat _ mem) as [m1 [[]|e]].
  - rewrite H2; [done|]. by intros x1 y1 x2 y2.
  - discriminate H2. by intros x1 y1 x2 y2.
Qed.

Lemma clip_boxes_effect a (shape : Z * Z) mem :
  (4 <= width a)%nat -> shaped mem a ->
  InPlace.clip_boxes a shape mem
  = (map_boxes a (InPlace.clipped shape) mem, Ok tt).
Proof.
  intros Hw Hs. destruct shape as [h w]. unfold InPlace.clip_boxes.
  apply two_updates; [done..|]. by intros x1 y1 x2 y2.
Qed.

Lemma scale_boxes_effect a (from_shape to_shape : Z * Z) mem :
  (4 <= width a)%nat -> shaped mem a ->
  to_shape.1 <> 0 -> to_shape.2 <> 0 ->
  InPlace.scale_boxes a from_shape to_shape mem
  = (map_boxes a (InPlace.rescaled from_shape to_shape) mem, Ok a).
Proof.
  intros Hw Hs H0 H1. unfold InPlace.scale_boxes, InPlace.true_div, lift.
  unfold sbind at 1.
  destruct (Z.eqb_spec to_shape.1 0) as [|_]; [done|].
  unfold sbind at 1.
  destruct (Z.eqb_spec to_shape.2 0) as [|_]; [done|].
  cbv zeta.
  set (gain := Num.minimum _ _).
  set (pad_x := ((_ - _ * gain) / 2)%Qc).
  set (pad_y := ((_ - _ * gain) / 2)%Qc).
  pose proof (two_updates a (fun v => v - pad_x)%Qc (fun v => v - pad_y)%Qc
                (fun '(x1, y1, x2, y2) =>
                   (x1 - pad_x, y1 - pad_y, x2 - pad_x, y2 - pad_y)%Qc)
                mem Hw Hs) as H2.
  unfold sbind in *. simpl fst. simpl snd.
  destruct (update_columns a [0; 2]%nat _ mem) as [m1 [[]|e]];
    [|discriminate H2; by intros x1 y1 x2 y2].
  rewrite H2 by (by intros x1 y1 x2 y2).
  replace (Nat.min 4 (width a)) with 4%nat by lia.
  rewrite (update_columns_map_boxes a (seq 0 4) (fun v => v / gain)%Qc
             (fun '(x1, y1, x2, y2) =>
                (x1 / gain, y1 / gain, x2 / gain, y2 / gain)%Qc));
    [|by apply shaped_map_boxes
     |apply columns_in_range; [done|repeat constructor; lia]
     |intros r Hr; by apply update_0123].
  rewrite map_boxes_compose by done.
  rewrite clip_boxes_effect; [|done|by apply shaped_map_boxes].
  rewrite map_boxes_compose by done. reflexivity.
Qed.

End Transforms.

(** ** The presentation adapters *)

Section Adapters.
Import Np.
Implicit Types (a : ndarray) (mem : memory).
Variable orig_shape : Z * Z.

(** The boxes of [a] can be normalised in [mem]. *)
Let ready mem a : Prop :=
  (4 <= width a)%nat /\ is_Some (mem !! buffer a) /\ shaped mem a.

(** From [mem] to [mem'] the boxes of each array of [arrays] were
    normalised in place and every other buffer of [mem] was kept. *)
Let overwritten (arrays : list ndarray) mem mem' : Prop :=
  (forall a, a ∈ arrays -> is_Some (mem !! buffer a) ->
     rows mem' a = map (on_box (offset a) (InPlace.normalised orig_shape)) (rows mem a)) /\
  (forall l, is_Some (mem !! l) -> l ∉ map buffer arrays -> mem' !! l = mem !! l) /\
  (forall l, is_Some (mem !! l) -> is_Some (mem' !! l)).

Lemma overwritten_nil mem : overwritten [] mem mem.
Proof. split; [|done]. by intros a ?%elem_of_nil. Qed.

(** One array is normalised, going from [mem] to [mem1], and then the
    others, going from [mem1] to [mem']. *)
Lemma overwritten_cons a (arrays : list ndarray) mem mem1 mem' :
  NoDup (map buffer (a :: arrays)) ->
  mem1 !! buffer a
    = Some (map (on_box (offset a) (InPlace.normalised orig_shape)) (rows mem a)) ->
  (forall l, is_Some (mem !! l) -> l <> buffer a -> mem1 !! l = mem !! l) ->
  overwritten arrays mem1 mem' ->
  overwritten (a :: arrays) mem mem'.
Proof.
  intros [Hnotin Hnodup]%NoDup_cons Hnew Hframe (Hitems & Hkeep & Hsome).
  assert (forall l, is_Some (mem !! l) -> is_Some (mem1 !! l)) as Hsome1.
  { intros l Hl. destruct (decide (l = buffer a)) as [->|Hne].
    - by rewrite Hnew.
    - by rewrite Hframe. }
  split; [|split].
  - intros a' [->|Hin]%elem_of_cons Ha'.
    + unfold rows at 1. rewrite lookup_total_alt, Hkeep, Hnew; [done| |done].
      by rewrite Hnew.
    + rewrite (Hitems a' Hin) by (by apply Hsome1). f_equal. unfold rows.
      rewrite !lookup_total_alt, Hframe; [done..|].
      intros Heq. apply Hnotin. rewrite <- Heq.
      apply list_elem_of_fmap. by exists a'.
  - intros l Hl Hnot. rewrite Hkeep.
    + apply Hframe; [done|]. intros ->. apply Hnot. simpl. by left.
    + by apply Hsome1.
    + intros Hin. apply Hnot. simpl. by right.
  - intros l Hl. by apply Hsome, Hsome1.
Qed.

Lemma fresh_buffer_ne mem (l : loc) :
  is_Some (mem !! l) -> l <> fresh (dom mem).
Proof.
  intros Hl ->. apply elem_of_dom in Hl. by apply (is_fresh (dom mem)).
Qed.

Lemma map_boxes_lookup_ne a (g : box -> box) mem (l : loc) :
  l <> buffer a -> map_boxes a g mem !! l = mem !! l.
Proof. intros Hne. unfold map_boxes. by rewrite lookup_insert_ne. Qed.

Lemma map_boxes_lookup_eq a (g : box -> box) mem :
  map_boxes a g mem !! buffer a = Some (map (on_box (offset a) g) (rows mem a)).
Proof. unfold map_boxes. by rewrite lookup_insert_eq. Qed.

Lemma ready_frame mem mem1 a :
  ready mem a ->
  mem1 !! buffer a = mem !! buffer a ->
  ready mem1 a.
Proof.
  intros (Hw & Hsome & Hshaped) Heq. split; [done|]. split; [by rewrite Heq|].
  unfold shaped, rows in *. by rewrite lookup_total_alt, Heq, <- lookup_total_alt.
Qed.

Lemma to_tf_loop_overwrites (items : list (ndarray * column * column)) :
  forall mem,
    Forall (fun a => ready mem a) (items.*1.*1) ->
    NoDup (map buffer (items.*1.*1)) ->
    exists mem' proposals,
      AHOYv5.to_tf_loop items orig_shape mem = (mem', Ok proposals) /\
      overwritten (items.*1.*1) mem mem'.
Proof.
  induction items as [|[[bbs scs] cls] items IH]; intros mem Hready Hnodup.
  - exists mem, []. split; [done|]. apply overwritten_nil.
  - simpl in Hready, Hnodup.
    apply Forall_cons in Hready as [(Hw & Hsome & Hshaped) Hready].
    pose proof Hnodup as [Hnotin Hnodup']%NoDup_cons.
    cbn [AHOYv5.to_tf_loop]. unfold sbind at 1.
    rewrite xyxy_to_xyxyn_effect by done.
    set (mem1 := map_boxes bbs (InPlace.normalised orig_shape) mem).
    unfold sbind at 1. unfold take_columns.
    rewrite columns_in_range; [|done|repeat constructor; lia].
    set (mem2 := <[fresh (dom mem1) := _]> mem1).
    unfold sbind at 1. unfold len at 1.
    assert (forall l, is_Some (mem !! l) -> is_Some (mem1 !! l)) as Hsome1.
    { intros l Hl. destruct (decide (l = buffer bbs)) as [->|Hne].
      - unfold mem1. by rewrite map_boxes_lookup_eq.
      - unfold mem1. by rewrite map_boxes_lookup_ne. }
    assert (forall l, is_Some (mem !! l) -> l <> buffer bbs ->
                      mem2 !! l = mem !! l) as Hframe.
    { intros l Hl Hne. unfold mem2.
      rewrite lookup_insert_ne by (apply not_eq_sym, fresh_buffer_ne, Hsome1, Hl).
      by apply map_boxes_lookup_ne. }
    assert (mem2 !! buffer bbs
            = Some (map (on_box (offset bbs) (InPlace.normalised orig_shape))
                        (rows mem bbs))) as Hnew.
    { unfold mem2.
      rewrite lookup_insert_ne by (apply not_eq_sym, fresh_buffer_ne, Hsome1, Hsome).
      apply map_boxes_lookup_eq. }
    destruct (IH mem2) as (mem' & proposals & Hrun & Hover); [|done|].
    { apply Forall_forall. intros a Ha.
      pose proof (proj1 (Forall_forall _ _) Hready a Ha) as Hra.
      apply (ready_frame mem); [done|]. apply Hframe; [apply Hra|].
      intros Heq. apply Hnotin. rewrite <- Heq.
      apply list_elem_of_fmap. by exists a. }
    unfold sbind at 1. rewrite Hrun. unfold sret.
    eexists _, _. split; [reflexivity|].
    by apply (overwritten_cons bbs _ mem mem2 mem').
Qed.

Lemma to_qa_loop_overwrites (cls_map : gmap Z string)
      (items : list (ndarray * column * column)) :
  forall mem mem' proposals,
    Forall (fun a => ready mem a) (items.*1.*1) ->
    NoDup (map buffer (items.*1.*1)) ->
    AHOYv5.to_qa_loop cls_map items orig_shape mem = (mem', Ok proposals) ->
    overwritten (items.*1.*1) mem mem'.
Proof.
  induction items as [|[[bbs scs] cls] items IH];
    intros mem mem' proposals Hready Hnodup.
  - intros [= <- _]. apply overwritten_nil.
  - simpl in Hready, Hnodup.
    apply Forall_cons in Hready as [(Hw & Hsome & Hshaped) Hready].
    pose proof Hnodup as [Hnotin Hnodup']%NoDup_cons.
    cbn [AHOYv5.to_qa_loop]. unfold sbind at 1.
    rewrite xyxy_to_xyxyn_effect by done.
    set (mem1 := map_boxes bbs (InPlace.normalised orig_shape) mem).
    unfold sbind at 1. unfold iter_rows at 1.
    unfold sbind at 1.
    destruct (AHOYv5.qa_entries _ _) as [es|e]; [|done].
    unfold sbind at 1.
    destruct (AHOYv5.to_qa_loop cls_map items orig_shape mem1)
      as [mem'' [rest|e]] eqn:Hrun; [|done].
    unfold sret. intros [= <- _].
    apply (overwritten_cons bbs _ mem mem1 mem''); [done| | |].
    + apply map_boxes_lookup_eq.
    + intros l _ Hne. by apply map_boxes_lookup_ne.
    + apply (IH mem1 mem'' rest); [|done..].
      apply Forall_forall. intros a Ha.
      pose proof (proj1 (Forall_forall _ _) Hready a Ha) as Hra.
      apply (ready_frame mem); [done|]. apply map_boxes_lookup_ne.
      intros Heq. apply Hnotin. rewrite <- Heq.
      apply list_elem_of_fmap. by exists a.
Qed.

End Adapters.

Lemma mapM_Ok {A B} (g : A -> result B) (l : list A) (k : list B) :
  mapM g l = Ok k -> Forall2 (fun x y => g x = Ok y) l k.
Proof.
  revert k. induction l as [|x l IH]; intros k.
  - intros [= <-]. constructor.
  - change (mapM g (x :: l)) with (y ← g x; ys ← mapM g l; Ok (y :: ys)).
    destruct (g x) as [y|e] eqn:Hy; [|done]. simpl.
    destruct (mapM g l) as [ys|e]; [|done].
    intros [= <-]. constructor; [done|by apply IH].
Qed.

Lemma to_mode_overwrites (dets : list Np.ndarray) (output_mode : string)
      (orig_shape : Z * Z) (cls_map : option (gmap Z string))
      (mem mem' : Np.memory) (out : AHOYv5.presentation) :
  output_mode = "tf" \/ output_mode = "qa" ->
  NoDup (map Np.buffer dets) ->
  (forall det, det ∈ dets ->
     is_Some (mem !! Np.buffer det) /\ Np.shaped mem det) ->
  AHOYv5.to_mode dets output_mode orig_shape cls_map mem = (mem', Ok out) ->
  forall det, det ∈ dets ->
    Np.boxes mem' (Np.slice_columns det 4)
    = map (InPlace.normalised orig_shape) (Np.boxes mem (Np.slice_columns det 4)).
Proof.
  intros Hmode Hnodup Hdets. unfold AHOYv5.to_mode.
  unfold sbind at 1. unfold lift at 1.
  destruct (mapM (fun det => Np.get_column det 4) dets)
    as [scores|] eqn:Hscores; [|done].
  unfold sbind at 1. unfold lift at 1.
  destruct (mapM (fun det => Np.get_column det 5) dets)
    as [classes|] eqn:Hclasses; [|done].
  apply mapM_Ok in Hscores, Hclasses.
  set (bboxes := map (fun det => Np.slice_columns det 4) dets).
  set (items := zip (zip bboxes scores) classes).
  assert (items.*1.*1 = bboxes) as Hitems.
  { unfold items. rewrite !fst_zip; [done|..].
    - unfold bboxes. rewrite length_map.
      apply Forall2_length in Hscores. lia.
    - rewrite length_zip. unfold bboxes. rewrite length_map.
      apply Forall2_length in Hscores, Hclasses. lia. }
  assert (Forall (fun a => (4 <= Np.width a)%nat /\
                           is_Some (mem !! Np.buffer a) /\ Np.shaped mem a)
                 (items.*1.*1)) as Hready.
  { rewrite Hitems. unfold bboxes. apply Forall_map, Forall_forall.
    intros det Hdet. destruct (Hdets det Hdet) as [Hsome Hshaped].
    apply list_elem_of_lookup in Hdet as [n Hn].
    destruct (Forall2_lookup_l _ _ _ _ _ Hscores Hn) as (c & _ & Hc).
    unfold Np.get_column in Hc.
    destruct (Nat.ltb_spec 4 (Np.width det)) as [Hlt|]; [|done].
    split; [unfold Np.slice_columns; cbn [Np.width]; lia|]. done. }
  assert (NoDup (map Np.buffer (items.*1.*1))) as Hnodup'.
  { rewrite Hitems. unfold bboxes. by rewrite map_map. }
  assert ((forall a, a ∈ items.*1.*1 -> is_Some (mem !! Np.buffer a) ->
             Np.rows mem' a
             = map (Np.on_box (Np.offset a) (InPlace.normalised orig_shape))
                   (Np.rows mem a)) ->
          forall det, det ∈ dets ->
            Np.boxes mem' (Np.slice_columns det 4)
            = map (InPlace.normalised orig_shape)
                  (Np.boxes mem (Np.slice_columns det 4))) as Hconclude.
  { intros Hrows det Hdet. destruct (Hdets det Hdet) as [Hsome Hshaped].
    unfold Np.boxes. rewrite Hrows; [|rewrite Hitems|done].
    - rewrite !map_map. apply map_ext_Forall.
      eapply Forall_impl; [exact Hshaped|]. intros r Hr.
      by apply on_box_box_at.
    - unfold bboxes. apply list_elem_of_fmap. by exists det. }
  destruct Hmode as [-> | ->].
  - rewrite String.eqb_refl. unfold AHOYv5.to_tf. fold bboxes. fold items.
    destruct (to_tf_loop_overwrites orig_shape items mem Hready Hnodup')
      as (mem1 & proposals & Hrun & Hover & _).
    unfold sbind. rewrite Hrun. unfold sret. intros [= <- _].
    by apply Hconclude.
  - change ("qa" =? "tf")%string with false. rewrite String.eqb_refl.
    unfold AHOYv5.to_qa. fold bboxes.
    destruct cls_map as [m|]; [|done].
    destruct (decide (m = ∅)); [done|]. fold items.
    unfold sbind.
    destruct (AHOYv5.to_qa_loop m items orig_shape mem)
      as [mem1 [proposals|e]] eqn:Hrun; [|done].
    unfold sret. intros [= <- _].
    destruct (to_qa_loop_overwrites orig_shape m items mem mem1 proposals
                Hready Hnodup' Hrun) as (Hover & _).
    by apply Hconclude.
Qed.

Lemma detections_shaped : Np.shaped Detections.memory Detections.det.
Proof.
  unfold Np.shaped.
  replace (Np.rows Detections.memory Detections.det) with Detections.rows
    by (vm_compute; reflexivity).
  repeat constructor; simpl; lia.
Qed.

(** ** The truncated graph *)

(** The layers that [HorizonModel] keeps, [model.model[:cutoff + 1]] of a
    graph whose layers carry their position as index, have no index past
    the cutoff: the detection tail is not in the graph that
    [HorizonModel] runs. *)
Lemma truncated_graph_has_no_tail (base : list Layer.t) (cutoff : Z)
      (p : nat) (m : Layer.t) (n : Z) :
  (forall k m, base !! k = Some m -> Layer.i m = IInt (Z.of_nat k)) ->
  0 <= cutoff ->
  py_slice_to base (cutoff + 1) !! p = Some m ->
  Layer.i m = IInt n ->
  n <= cutoff.
Proof.
  intros Hbase Hcut Hp Hi. unfold py_slice_to in Hp.
  destruct (decide (0 <= cutoff + 1)) as [_|]; [|lia].
  apply lookup_take_Some in Hp as [Hm Hlt].
  rewrite (Hbase p m Hm) in Hi. simplify_eq. lia.
Qed.

(** * Further properties *)

(** ** [nms]: termination and the shape of the mask *)

Lemma where_from_sublist (s : nat) (mask : list bool) :
  where_from s mask `sublist_of` seq s (length mask).
Proof.
  revert s. induction mask as [|b mask IH]; intros s; simpl; [constructor|].
  destruct b; [apply sublist_skip|apply sublist_cons]; apply IH.
Qed.

Lemma where_NoDup (mask : list bool) : NoDup (where_ mask).
Proof.
  eapply sublist_NoDup; [apply NoDup_seq|apply where_from_sublist].
Qed.

Lemma union1d_NoDup (a b : list nat) : NoDup (union1d a b).
Proof.
  unfold union1d. rewrite merge_sort_Permutation. apply NoDup_remove_dups.
Qed.

Lemma take_idx_length {A} (a : list A) (idx : list nat) (l : list A) :
  take_idx a idx = Ok l -> length l = length idx.
Proof. intros H%take_idx_Ok. symmetry. by eapply Forall2_length. Qed.

(** Distinct positions of a list are no more than its length. *)
Lemma take_idx_NoDup_length {A} (a : list A) (idx : list nat) (l : list A) :
  NoDup idx -> take_idx a idx = Ok l -> (length l <= length a)%nat.
Proof.
  intros Hnodup H. rewrite (take_idx_length _ _ _ H).
  rewrite <- (length_seq (length a) 0%nat) at 1.
  apply submseteq_length.
  apply NoDup_submseteq; [done|]. intros k Hk.
  apply take_idx_Ok in H.
  apply list_elem_of_lookup in Hk as [n Hn].
  destruct (Forall2_lookup_l _ _ _ _ _ H Hn) as (x & _ & Hx).
  apply lookup_lt_Some in Hx. apply elem_of_seq. lia.
Qed.

Lemma take_idx_shift {A} (x : A) (a : list A) (idx : list nat) :
  take_idx (x :: a) (map S idx) = take_idx a idx.
Proof.
  induction idx as [|k idx IH]; [done|].
  change (map S (k :: idx)) with (S k :: map S idx).
  by rewrite !take_idx_cons, IH.
Qed.

(** Each round of the loop leaves fewer candidates than it found and a
    mask of the same length, with or without classes. *)
Lemma nms_round_shrinks (bboxes : list box) (areas : list Qc) (iou_thresh : Qc)
      (classes : option (list Z)) (i : nat) (rest : list nat)
      (keep : list bool) (order' : list nat) (keep' : list bool) :
  nms_round bboxes areas iou_thresh classes i rest keep = Ok (order', keep') ->
  (length order' <= length rest)%nat /\ length keep' = length keep.
Proof.
  unfold nms_round.
  destruct (index keep i) as [ki|]; [simpl|done].
  destruct (index bboxes i) as [bi|]; [simpl|done].
  destruct (take_idx bboxes rest) as [brest|]; [simpl|done].
  destruct (index areas i) as [ai|]; [simpl|done].
  destruct (take_idx areas rest) as [arest|]; [simpl|done].
  set (idxs0 := where_ _).
  destruct (truth classes) as [t|]; [simpl|done].
  destruct (if t then _ else _) as [idxs|] eqn:Hidxs; [simpl|done].
  destruct (take_idx _ _) as [order|] eqn:Horder; [simpl|done].
  intros [= <- <-]. split; [|by rewrite length_insert].
  assert (NoDup idxs) as Hnodup.
  { destruct t.
    - unfold different_class in Hidxs. destruct classes as [cls|]; [|done].
      destruct (take_idx cls rest) as [crest|]; [simpl in Hidxs|done].
      destruct (index cls i) as [ci|]; [simpl in Hidxs|done].
      injection Hidxs as <-. apply union1d_NoDup.
    - injection Hidxs as <-. apply where_NoDup. }
  rewrite take_idx_shift in Horder.
  by apply take_idx_NoDup_length in Horder.
Qed.

Lemma nms_while_returns (bboxes : list box) (areas : list Qc) (iou_thresh : Qc)
      (classes : option (list Z)) (fuel : nat) :
  forall (order : list nat) (keep : list bool),
    (length order <= S fuel)%nat ->
    exists r,
      nms_while fuel bboxes areas iou_thresh classes order keep = Some r /\
      forall keep', r = Ok keep' -> length keep' = length keep.
Proof.
  induction fuel as [|fuel IH]; intros order keep Hfuel.
  - destruct order as [|i [|j rest]]; simpl in *; [| |lia];
      (eexists; split; [done|]; by intros keep' [= <-]).
  - destruct order as [|i [|j rest]]; simpl;
      [eexists; split; [done|]; by intros keep' [= <-]..|].
    destruct (nms_round _ _ _ _ _ _ _) as [[order1 keep1]|e] eqn:Hround.
    + apply nms_round_shrinks in Hround as [Hshort Hlen].
      destruct (IH order1 keep1) as (r & Hr & Hkeep); [simpl in *; lia|].
      exists r. split; [done|]. intros keep' Hk. rewrite <- Hlen. by apply Hkeep.
    + eexists. split; [done|]. done.
Qed.

(** [nms] comes to an end on every input, with or without classes: the
    loop [while order.size > 1] drops at least one candidate in each
    round.  It ends with an exception or with a mask that has one entry
    for each score. *)
Theorem nms_terminates (bboxes : list box) (scores : list Qc) (iou_thresh : Qc)
        (classes : option (list Z)) :
  exists r,
    nms bboxes scores iou_thresh classes = Some r /\
    forall keep, r = Ok keep -> length keep = length scores.
Proof.
  unfold nms.
  destruct (nms_while_returns bboxes (map area bboxes) iou_thresh classes
              (length scores) (reverse (argsort scores))
              (replicate (length scores) false)) as (r & Hr & Hkeep).
  - rewrite argsort_length. lia.
  - exists r. split; [done|]. intros keep Hk.
    rewrite (Hkeep keep Hk). apply length_replicate.
Qed.

(** ** [nms]: the box that is never kept *)

Lemma take_idx_beyond {A} (a : list A) (idx : list nat) (l : list A) :
  take_idx a idx = Ok l ->
  Forall (fun k => (length a <= k)%nat) idx ->
  l = [].
Proof.
  intros H%take_idx_Ok Hidx. destruct H as [|k x idx l Hk _]; [done|].
  apply Forall_cons in Hidx as [Hge _].
  apply lookup_lt_Some in Hk. lia.
Qed.

Lemma where_from_ge (s : nat) (mask : list bool) :
  Forall (fun k => (s <= k)%nat) (where_from s mask).
Proof.
  apply Forall_forall. intros k (p & -> & _)%elem_of_where_from. lia.
Qed.

(** The candidates picked by a mask come in the order of the array they
    are picked from. *)
Lemma take_idx_where_from_sublist {A} (mask : list bool) :
  forall (pre l out : list A),
    take_idx (pre ++ l) (where_from (length pre) mask) = Ok out ->
    out `sublist_of` l.
Proof.
  induction mask as [|b mask IH]; intros pre l out.
  - intros [= <-]. apply sublist_nil_l.
  - destruct l as [|x l].
    + rewrite app_nil_r. intros H.
      rewrite (take_idx_beyond _ _ _ H); [constructor|apply where_from_ge].
    + assert (pre ++ x :: l = (pre ++ [x]) ++ l) as Hsplit
        by (by rewrite <- (assoc_L (++))).
      assert (S (length pre) = length (pre ++ [x])) as Hlen
        by (rewrite length_app; simpl; lia).
      simpl. destruct b.
      * rewrite take_idx_cons. unfold index at 1.
        rewrite list_lookup_middle by done. simpl.
        rewrite Hsplit, Hlen.
        destruct (take_idx _ _) as [out'|] eqn:Hout; [|done].
        intros [= <-]. apply sublist_skip. by eapply IH.
      * rewrite Hsplit, Hlen. intros Hout. apply sublist_cons. by eapply IH.
Qed.

Lemma nms_round_agnostic_sublist (bboxes : list box) (areas : list Qc)
      (iou_thresh : Qc) (i : nat) (rest : list nat) (keep : list bool)
      (order' : list nat) (keep' : list bool) :
  nms_round bboxes areas iou_thresh None i rest keep = Ok (order', keep') ->
  order' `sublist_of` rest /\ keep' = <[i := true]> keep.
Proof.
  unfold nms_round.
  destruct (index keep i) as [ki|]; [simpl|done].
  destruct (index bboxes i) as [bi|]; [simpl|done].
  destruct (take_idx bboxes rest) as [brest|]; [simpl|done].
  destruct (index areas i) as [ai|]; [simpl|done].
  destruct (take_idx areas rest) as [arest|]; [simpl|done].
  rewrite take_idx_shift.
  destruct (take_idx _ _) as [order|] eqn:Horder; [simpl|done].
  intros [= <- <-]. split; [|done].
  by eapply (take_idx_where_from_sublist _ [] rest order).
Qed.

(** A candidate that stands last among distinct candidates is not the
    first of two or more of them. *)
Lemma sublist_last_not_first (x : nat) (rest init : list nat) :
  x ∉ init -> (x :: rest) `sublist_of` (init ++ [x]) -> rest = [].
Proof.
  induction init as [|y init IH]; simpl; intros Hnotin Hsub.
  - apply sublist_cons_r in Hsub as [Hsub|(l' & [= <-] & Hsub)].
    + by apply sublist_nil_r in Hsub.
    + by apply sublist_nil_r.
  - apply sublist_cons_r in Hsub as [Hsub|(l' & [= <- <-] & Hsub)].
    + apply IH; [|done]. intros Hin. apply Hnotin. by right.
    + destruct Hnotin. by left.
Qed.

Lemma nms_while_agnostic_lowest (bboxes : list box) (areas : list Qc)
      (iou_thresh : Qc) (lowest : nat) (init : list nat) (fuel : nat) :
  lowest ∉ init ->
  forall (order : list nat) (keep keep' : list bool),
    order `sublist_of` (init ++ [lowest]) ->
    keep !! lowest = Some false ->
    nms_while fuel bboxes areas iou_thresh None order keep = Some (Ok keep') ->
    keep' !! lowest = Some false.
Proof.
  intros Hnotin.
  induction fuel as [|fuel IH]; intros order keep keep' Hsub Hkeep.
  - destruct order as [|i [|j rest]]; simpl; [by intros [= <-]..|done].
  - destruct order as [|i [|j rest]]; simpl; [by intros [= <-]..|].
    destruct (nms_round _ _ _ _ _ _ _) as [[order1 keep1]|] eqn:Hround; [|done].
    apply nms_round_agnostic_sublist in Hround as [Hsub1 ->].
    apply IH.
    + etrans; [exact Hsub1|]. etrans; [|exact Hsub]. by apply sublist_cons.
    + rewrite list_lookup_insert_ne; [done|]. intros ->.
      by pose proof (sublist_last_not_first _ _ _ Hnotin Hsub).
Qed.

(** Whatever the boxes and the threshold, agnostic [nms] does not keep
    the box that comes last in the descending order of the scores, a box
    of lowest score: the loop ends with one candidate left, which it does
    not mark. *)
Theorem nms_never_keeps_lowest (bboxes : list box) (scores : list Qc)
        (iou_thresh : Qc) (keep : list bool) :
  scores <> [] ->
  nms bboxes scores iou_thresh None = Some (Ok keep) ->
  exists l sl,
    scores !! l = Some sl /\ keep !! l = Some false /\
    forall j sj, scores !! j = Some sj -> (sl <= sj)%Qc.
Proof.
  intros Hne. unfold nms.
  pose proof (argsort_perm scores) as Hperm.
  pose proof (argsort_ascending scores) as Hasc.
  destruct (argsort scores) as [|l tl] eqn:Hsort.
  { apply Permutation_length in Hperm. rewrite length_seq in Hperm.
    destruct scores; [done|simpl in Hperm; lia]. }
  assert (NoDup (l :: tl)) as [Hnotin _]%NoDup_cons
    by (rewrite Hperm; apply NoDup_seq).
  assert (l < length scores)%nat as Hl.
  { assert (l ∈ seq 0 (length scores)) as Hin by (rewrite <- Hperm; by left).
    apply elem_of_seq in Hin. lia. }
  destruct (lookup_lt_is_Some_2 scores l Hl) as [sl Hsl].
  rewrite reverse_cons. intros Hrun.
  exists l, sl. split; [done|]. split.
  - apply (nms_while_agnostic_lowest bboxes (map area bboxes) iou_thresh l
             (reverse tl) (length scores) ltac:(by rewrite elem_of_reverse)
             _ _ _ ltac:(done) ltac:(by apply lookup_replicate) Hrun).
  - intros j sj Hj. pose proof (lookup_lt_Some _ _ _ Hj) as Hlt.
    assert (j ∈ l :: tl) as Hin by (rewrite Hperm; apply elem_of_seq; lia).
    apply StronglySorted_inv in Hasc as [_ Hall].
    apply elem_of_cons in Hin as [->|Hin].
    + simplify_eq. apply Qcle_refl.
    + pose proof (proj1 (Forall_forall _ _) Hall j Hin) as Hle.
      simpl in Hle. by rewrite Hsl, Hj in Hle.
Qed.

Lemma nms_never_keeps_lowest_witness :
  exists l sl,
    Example.scores !! l = Some sl /\ [true; false] !! l = Some false /\
    forall j sj, Example.scores !! j = Some sj -> (sl <= sj)%Qc.
Proof.
  apply (nms_never_keeps_lowest Example.boxes Example.scores
           Example.iou_thresh [true; false]).
  - discriminate.
  - vm_compute. reflexivity.
Defined.

(** With two boxes or more, a box of highest score is kept by every run of
    [nms] that returns a mask: on the example of the specification. *)
Lemma nms_keeps_highest_of_several_witness :
  exists i si,
    Example.scores !! i = Some si /\ [true; false] !! i = Some true /\
    forall j sj, Example.scores !! j = Some sj -> (sj <= si)%Qc.
Proof.
  apply (nms_keeps_highest_of_several Example.boxes Example.scores
           Example.iou_thresh None [true; false]).
  - simpl. lia.
  - vm_compute. reflexivity.
Defined.

(** ** Arithmetic on exact rationals *)

(** Linear goals over [Qc] are decided on the underlying fractions. *)
Ltac qc_lra :=
  unfold Qcle, Qclt, Qcminus, Qcplus, Qcopp, Qcmult in *;
  cbn [this Q2Qc] in *;
  rewrite ?Qred_correct in *;
  lra.

Lemma maximum_cases (a b : Qc) :
  (Num.maximum a b = a /\ (b <= a)%Qc) \/ (Num.maximum a b = b /\ (a <= b)%Qc).
Proof.
  unfold Num.maximum. destruct (Num.leb a b) eqn:H.
  - right. split; [done|]. by apply leb_le.
  - left. split; [done|]. by apply leb_le, leb_total.
Qed.

Lemma minimum_cases (a b : Qc) :
  (Num.minimum a b = a /\ (a <= b)%Qc) \/ (Num.minimum a b = b /\ (b <= a)%Qc).
Proof.
  unfold Num.minimum. destruct (Num.leb a b) eqn:H.
  - left. split; [done|]. by apply leb_le.
  - right. split; [done|]. by apply leb_le, leb_total.
Qed.

Lemma clip_cases (lo hi v : Qc) :
  (Num.clip lo hi v = hi /\ (hi <= lo \/ hi <= v)%Qc) \/
  (Num.clip lo hi v = lo /\ (v <= lo /\ lo <= hi)%Qc) \/
  (Num.clip lo hi v = v /\ (lo <= v /\ v <= hi)%Qc).
Proof.
  unfold Num.clip.
  destruct (maximum_cases lo v) as [[-> Hm]|[-> Hm]];
    destruct (minimum_cases hi lo) as [[Hn Hl]|[Hn Hl]];
    destruct (minimum_cases hi v) as [[Hn' Hl']|[Hn' Hl']];
    rewrite ?Hn, ?Hn'; eauto 6.
Qed.

Lemma of_Z_nonneg (z : Z) : 0 <= z -> (0 <= Num.of_Z z)%Qc.
Proof.
  intros Hz. unfold Num.of_Z, Qcle. cbn [this Q2Qc]. rewrite !Qred_correct.
  unfold Qle. simpl. lia.
Qed.

Lemma of_Z_neq_0 (z : Z) : z <> 0 -> Num.of_Z z <> 0%Qc.
Proof.
  intros Hz H. apply Hz. unfold Num.of_Z in H.
  apply (f_equal this) in H. cbn [this Q2Qc] in H.
  assert (inject_Z z == 0)%Q as Hq by (rewrite <- (Qred_correct (inject_Z z)), H; reflexivity).
  unfold Qeq in Hq. simpl in Hq. lia.
Qed.

(** ** Box geometry *)

Lemma half_sign (w : Qc) :
  ((0 <= w -> 0 <= w / 2) /\ (w <= 0 -> w / 2 <= 0))%Qc.
Proof.
  assert (0 <= / 2)%Qc as Hhalf by (apply leb_le; vm_compute; reflexivity).
  unfold Qcdiv. split; intros Hw.
  - rewrite <- (Qcmult_0_l (/ 2)). by apply Qcmult_le_compat_r.
  - rewrite <- (Qcmult_0_l (/ 2)). by apply Qcmult_le_compat_r.
Qed.

(** The corners that [cxcywh_to_xyxy] gives lie on either side of the
    center: for a width that is not negative the left edge is at or
    before the center and the right edge at or after it, and likewise
    for the height.  A negative width or height is no error: it gives
    the corners the other way round. *)
Theorem cxcywh_to_xyxy_corners_around_center (bboxes : list box) :
  Forall2 (fun '(cx, cy, w, h) '(x1, y1, x2, y2) =>
             ((0 <= w -> x1 <= cx /\ cx <= x2) /\
              (0 <= h -> y1 <= cy /\ cy <= y2) /\
              (w <= 0 -> x2 <= cx /\ cx <= x1) /\
              (h <= 0 -> y2 <= cy /\ cy <= y1))%Qc)
          bboxes (cxcywh_to_xyxy bboxes).
Proof.
  unfold cxcywh_to_xyxy. induction bboxes as [|[[[cx cy] w] h] bboxes IH];
    simpl; constructor; [|done].
  destruct (half_sign w) as [Hw Hw'], (half_sign h) as [Hh Hh'].
  generalize dependent (w / 2)%Qc. generalize dependent (h / 2)%Qc.
  intros h2 Hh Hh' w2 Hw Hw'.
  split; [|split; [|split]]; intros H0;
    first [specialize (Hw H0) | specialize (Hw' H0)
          | specialize (Hh H0) | specialize (Hh' H0)]; split; qc_lra.
Qed.

(** The overlap that [nms] computes for a pair of boxes does not depend
    on which of the two is the kept box and which the candidate. *)
Theorem iou_symmetric (a b : box) :
  iou a [b] (area a) [area b] = iou b [a] (area b) [area a].
Proof. by rewrite !iou_single, pair_iou_sym. Qed.

(** Two boxes that a gap of at least one unit separates, in x or in y,
    have the intersection area 0, and [iou] gives 0 for them whatever the
    areas it is given: the widths and heights of the intersection count
    both end pixels and are clipped at 0. *)
Theorem separated_boxes_have_no_overlap (x1 y1 x2 y2 a1 b1 a2 b2 : Qc)
        (target_area a : Qc) :
  (x2 + 1 <= a1 \/ a2 + 1 <= x1 \/ y2 + 1 <= b1 \/ b2 + 1 <= y1)%Qc ->
  intersection_area (x1, y1, x2, y2) [(a1, b1, a2, b2)] = [0%Qc] /\
  iou (x1, y1, x2, y2) [(a1, b1, a2, b2)] target_area [a] = [0%Qc].
Proof.
  intros Hsep.
  assert (intersection_area (x1, y1, x2, y2) [(a1, b1, a2, b2)] = [0%Qc]) as Hinter.
  { unfold intersection_area, intersection_box. simpl. f_equal.
    assert (Num.minimum x2 a2 - Num.maximum x1 a1 + 1 <= 0 \/
            Num.minimum y2 b2 - Num.maximum y1 b1 + 1 <= 0)%Qc as [Hw|Hh].
    { destruct (minimum_cases x2 a2) as [[-> ?]|[-> ?]],
               (maximum_cases x1 a1) as [[-> ?]|[-> ?]],
               (minimum_cases y2 b2) as [[-> ?]|[-> ?]],
               (maximum_cases y1 b1) as [[-> ?]|[-> ?]];
        destruct Hsep as [?|[?|[?|?]]]; first [left; qc_lra | right; qc_lra]. }
    - assert (Num.maximum 0 (Num.minimum x2 a2 - Num.maximum x1 a1 + 1) = 0%Qc) as ->;
        [|apply Qcmult_0_l].
      destruct (maximum_cases 0 (Num.minimum x2 a2 - Num.maximum x1 a1 + 1))
        as [[-> _]|[-> Hle]]; [done|by apply Qcle_antisym].
    - assert (Num.maximum 0 (Num.minimum y2 b2 - Num.maximum y1 b1 + 1) = 0%Qc) as ->;
        [|apply Qcmult_0_r].
      destruct (maximum_cases 0 (Num.minimum y2 b2 - Num.maximum y1 b1 + 1))
        as [[-> _]|[-> Hle]]; [done|by apply Qcle_antisym]. }
  split; [done|].
  unfold iou. rewrite Hinter. simpl. f_equal.
  unfold Qcdiv. apply Qcmult_0_l.
Qed.

Lemma separated_boxes_have_no_overlap_witness :
  intersection_area (Num.of_Z 0, Num.of_Z 0, Num.of_Z 10, Num.of_Z 10)
    [(Num.of_Z 11, Num.of_Z 0, Num.of_Z 20, Num.of_Z 10)] = [0%Qc] /\
  iou (Num.of_Z 0, Num.of_Z 0, Num.of_Z 10, Num.of_Z 10)
    [(Num.of_Z 11, Num.of_Z 0, Num.of_Z 20, Num.of_Z 10)]
    (Num.of_Z 100) [Num.of_Z 90] = [0%Qc].
Proof.
  apply (separated_boxes_have_no_overlap
           (Num.of_Z 0) (Num.of_Z 0) (Num.of_Z 10) (Num.of_Z 10)
           (Num.of_Z 11) (Num.of_Z 0) (Num.of_Z 20) (Num.of_Z 10)).
  left. apply leb_le. vm_compute. reflexivity.
Defined.

(** The intersection of a well-formed target box with any box is between 0
    and the pixel area of the target, both end pixels counted. *)
Theorem intersection_area_bounded (x1 y1 x2 y2 : Qc) (b : box) :
  (x1 <= x2)%Qc -> (y1 <= y2)%Qc ->
  exists v,
    intersection_area (x1, y1, x2, y2) [b] = [v] /\
    (0 <= v)%Qc /\ (v <= (x2 - x1 + 1) * (y2 - y1 + 1))%Qc.
Proof.
  intros Hx Hy. destruct b as [[[a1 b1] a2] b2].
  unfold intersection_area, intersection_box. simpl. eexists. split; [done|].
  set (w := Num.maximum 0 _). set (h := Num.maximum 0 _).
  assert (0 <= w /\ w <= x2 - x1 + 1)%Qc as [Hw0 Hw].
  { unfold w.
    destruct (minimum_cases x2 a2) as [[-> ?]|[-> ?]],
             (maximum_cases x1 a1) as [[-> ?]|[-> ?]];
      match goal with
      | |- context [Num.maximum 0 ?v] =>
          destruct (maximum_cases 0 v) as [[-> ?]|[-> ?]]
      end; split; qc_lra. }
  assert (0 <= h /\ h <= y2 - y1 + 1)%Qc as [Hh0 Hh].
  { unfold h.
    destruct (minimum_cases y2 b2) as [[-> ?]|[-> ?]],
             (maximum_cases y1 b1) as [[-> ?]|[-> ?]];
      match goal with
      | |- context [Num.maximum 0 ?v] =>
          destruct (maximum_cases 0 v) as [[-> ?]|[-> ?]]
      end; split; qc_lra. }
  split.
  - rewrite <- (Qcmult_0_l h). by apply Qcmult_le_compat_r.
  - etrans; [apply Qcmult_le_compat_r; [exact Hw|done]|].
    rewrite !(Qcmult_comm (x2 - x1 + 1)).
    apply Qcmult_le_compat_r; [done|]. by apply (Qcle_trans _ w).
Qed.

Lemma intersection_area_bounded_witness :
  exists v,
    intersection_area (Num.of_Z 0, Num.of_Z 0, Num.of_Z 10, Num.of_Z 10)
      [(Num.of_Z 1, Num.of_Z 1, Num.of_Z 11, Num.of_Z 11)] = [v] /\
    (0 <= v)%Qc /\
    (v <= (Num.of_Z 10 - Num.of_Z 0 + 1) * (Num.of_Z 10 - Num.of_Z 0 + 1))%Qc.
Proof.
  apply (intersection_area_bounded (Num.of_Z 0) (Num.of_Z 0) (Num.of_Z 10)
           (Num.of_Z 10) (Num.of_Z 1, Num.of_Z 1, Num.of_Z 11, Num.of_Z 11));
    apply leb_le; vm_compute; reflexivity.
Defined.

(** ** The transforms in place: frames, round trips and errors *)

Lemma leb_lt (a b : Qc) : Num.leb a b = false -> (b < a)%Qc.
Proof.
  intros H. destruct (Qclt_le_dec b a) as [Hlt|Hle]; [done|].
  apply leb_le in Hle. congruence.
Qed.

Lemma clip_in_range (lo hi v : Qc) :
  (lo <= hi)%Qc -> (lo <= Num.clip lo hi v <= hi)%Qc.
Proof.
  intros Hlh.
  destruct (clip_cases lo hi v) as [[-> H]|[[-> H]|[-> H]]]; split; qc_lra.
Qed.

Lemma clip_clip (lo hi v : Qc) :
  Num.clip lo hi (Num.clip lo hi v) = Num.clip lo hi v.
Proof.
  destruct (clip_cases lo hi v) as [[-> H]|[[-> H]|[-> H]]].
  - destruct (clip_cases lo hi hi) as [[-> H']|[[-> H']|[-> H']]]; try done.
    apply Qcle_antisym; qc_lra.
  - destruct (clip_cases lo hi lo) as [[-> H']|[[-> H']|[-> H']]]; try done.
    apply Qcle_antisym; qc_lra.
  - destruct (clip_cases lo hi v) as [[-> H']|[[-> H']|[-> H']]]; try done;
      apply Qcle_antisym; qc_lra.
Qed.

Lemma clip_inside (lo hi v : Qc) :
  (lo <= v <= hi)%Qc -> Num.clip lo hi v = v.
Proof.
  intros Hv.
  destruct (clip_cases lo hi v) as [[-> H]|[[-> H]|[-> H]]]; try done;
    apply Qcle_antisym; qc_lra.
Qed.

Lemma on_box_id (o : nat) (r : list Qc) :
  (o + 4 <= length r)%nat -> Np.on_box o (fun b => b) r = r.
Proof.
  intros Hlen.
  destruct (row_split o r Hlen) as (pre & x1 & y1 & x2 & y2 & post & -> & <-).
  unfold Np.on_box. by rewrite box_at_app, set_box_app.
Qed.

Lemma map_boxes_id (a : Np.ndarray) (mem : Np.memory) :
  Np.shaped mem a -> is_Some (mem !! Np.buffer a) ->
  Np.map_boxes a (fun b => b) mem = mem.
Proof.
  intros Hs [rows Hrows]. unfold Np.map_boxes. apply insert_id.
  rewrite Hrows. f_equal.
  assert (Np.rows mem a = rows) as Hr
    by (unfold Np.rows; by rewrite lookup_total_alt, Hrows).
  unfold Np.shaped in Hs. rewrite Hr in *.
  symmetry. etrans; [|apply map_id]. apply map_ext_Forall.
  eapply Forall_impl; [exact Hs|]. intros r Hlen. by apply on_box_id.
Qed.

Lemma map_boxes_frame (a : Np.ndarray) (g : box -> box) (mem : Np.memory) :
  (forall l, l <> Np.buffer a -> Np.map_boxes a g mem !! l = mem !! l) /\
  length (Np.rows (Np.map_boxes a g mem) a) = length (Np.rows mem a) /\
  (forall r row row',
     Np.rows mem a !! r = Some row ->
     Np.rows (Np.map_boxes a g mem) a !! r = Some row' ->
     length row' = length row /\
     forall k, (k < Np.offset a \/ Np.offset a + 4 <= k)%nat ->
               row' !! k = row !! k).
Proof.
  split; [|split].
  - intros l Hl. unfold Np.map_boxes. by rewrite lookup_insert_ne.
  - by rewrite rows_map_boxes, length_map.
  - intros r row row' Hrow. rewrite rows_map_boxes, list_lookup_fmap, Hrow.
    intros [= <-]. split; [apply on_box_length|].
    intros k Hk. by apply on_box_other.
Qed.

(** The four transforms write to the four box columns of the buffer of
    their view and to nothing else: every other buffer is as before, the
    buffer keeps its rows and their lengths, and in each row every entry
    outside the box is as before (on a detection array, the score and
    the class). *)
Theorem transforms_write_box_columns_only (a : Np.ndarray)
        (shape from_shape to_shape : Z * Z) (mem mem' : Np.memory) :
  (4 <= Np.width a)%nat ->
  Np.shaped mem a ->
  to_shape.1 <> 0 -> to_shape.2 <> 0 ->
  mem' = (InPlace.xyxy_to_xyxyn a shape mem).1 \/
  mem' = (InPlace.xyxyn_to_xyxy a shape mem).1 \/
  mem' = (InPlace.clip_boxes a shape mem).1 \/
  mem' = (InPlace.scale_boxes a from_shape to_shape mem).1 ->
  (forall l, l <> Np.buffer a -> mem' !! l = mem !! l) /\
  length (Np.rows mem' a) = length (Np.rows mem a) /\
  (forall r row row',
     Np.rows mem a !! r = Some row ->
     Np.rows mem' a !! r = Some row' ->
     length row' = length row /\
     forall k, (k < Np.offset a \/ Np.offset a + 4 <= k)%nat ->
               row' !! k = row !! k).
Proof.
  intros Hw Hs Hh Hwd Hrun.
  rewrite xyxy_to_xyxyn_effect, xyxyn_to_xyxy_effect, clip_boxes_effect,
    scale_boxes_effect in Hrun by done.
  simpl in Hrun. destruct Hrun as [-> |[-> |[-> | ->]]]; apply map_boxes_frame.
Qed.

Lemma transforms_write_box_columns_only_witness :
  let mem' := (InPlace.xyxy_to_xyxyn (Np.slice_columns Detections.det 4)
                 Detections.orig_shape Detections.memory).1 in
  (forall l, l <> Np.buffer (Np.slice_columns Detections.det 4) ->
             mem' !! l = Detections.memory !! l) /\
  length (Np.rows mem' (Np.slice_columns Detections.det 4))
    = length (Np.rows Detections.memory (Np.slice_columns Detections.det 4)) /\
  (forall r row row',
     Np.rows Detections.memory (Np.slice_columns Detections.det 4) !! r = Some row ->
     Np.rows mem' (Np.slice_columns Detections.det 4) !! r = Some row' ->
     length row' = length row /\
     forall k, (k < Np.offset (Np.slice_columns Detections.det 4) \/
                Np.offset (Np.slice_columns Detections.det 4) + 4 <= k)%nat ->
               row' !! k = row !! k).
Proof.
  intros mem'.
  apply (transforms_write_box_columns_only (Np.slice_columns Detections.det 4)
           Detections.orig_shape Detections.orig_shape Detections.orig_shape
           Detections.memory mem').
  - simpl. lia.
  - apply detections_shaped.
  - discriminate.
  - discriminate.
  - by left.
Defined.

Lemma clipped_inside (shape : Z * Z) (b : box) :
  0 <= shape.1 -> 0 <= shape.2 -> inside_frame shape (InPlace.clipped shape b).
Proof.
  destruct shape as [h w], b as [[[x1 y1] x2] y2]. simpl. intros Hh Hw.
  apply of_Z_nonneg in Hh, Hw.
  repeat split; by apply clip_in_range.
Qed.

(** After [clip_boxes] with a shape of non-negative sides every box of
    the view lies inside the frame of that shape. *)
Theorem clip_boxes_inside_frame (a : Np.ndarray) (shape : Z * Z)
        (mem : Np.memory) :
  (4 <= Np.width a)%nat ->
  Np.shaped mem a ->
  0 <= shape.1 -> 0 <= shape.2 ->
  exists mem',
    InPlace.clip_boxes a shape mem = (mem', Ok tt) /\
    Forall (inside_frame shape) (Np.boxes mem' a).
Proof.
  intros Hw Hs Hh Hwd. eexists. split; [by apply clip_boxes_effect|].
  rewrite boxes_map_boxes by done. apply Forall_map, Forall_forall.
  intros b _. by apply clipped_inside.
Qed.

Lemma clip_boxes_inside_frame_witness :
  exists mem',
    InPlace.clip_boxes (Np.slice_columns Detections.det 4) (50, 100)
      Detections.memory = (mem', Ok tt) /\
    Forall (inside_frame (50, 100))
           (Np.boxes mem' (Np.slice_columns Detections.det 4)).
Proof.
  apply (clip_boxes_inside_frame (Np.slice_columns Detections.det 4) (50, 100)
           Detections.memory).
  - simpl. lia.
  - apply detections_shaped.
  - simpl. lia.
  - simpl. lia.
Defined.

(** [scale_boxes] between two shapes of positive sides, so that the gain
    is positive, returns the view with every box inside the frame of the
    target shape. *)
Theorem scale_boxes_inside_frame (a : Np.ndarray) (from_shape to_shape : Z * Z)
        (mem : Np.memory) :
  (4 <= Np.width a)%nat ->
  Np.shaped mem a ->
  0 < from_shape.1 -> 0 < from_shape.2 ->
  0 < to_shape.1 -> 0 < to_shape.2 ->
  exists mem',
    InPlace.scale_boxes a from_shape to_shape mem = (mem', Ok a) /\
    Forall (inside_frame to_shape) (Np.boxes mem' a).
Proof.
  intros Hw Hs _ _ Hh Hwd. eexists.
  split; [apply scale_boxes_effect; [done..|lia|lia]|].
  rewrite boxes_map_boxes by done. apply Forall_map, Forall_forall.
  intros [[[x1 y1] x2] y2] _. unfold InPlace.rescaled.
  apply clipped_inside; lia.
Qed.

Lemma scale_boxes_inside_frame_witness :
  exists mem',
    InPlace.scale_boxes (Np.slice_columns Detections.det 4) (640, 640)
      Detections.orig_shape Detections.memory
      = (mem', Ok (Np.slice_columns Detections.det 4)) /\
    Forall (inside_frame Detections.orig_shape)
           (Np.boxes mem' (Np.slice_columns Detections.det 4)).
Proof.
  apply (scale_boxes_inside_frame (Np.slice_columns Detections.det 4)
           (640, 640) Detections.orig_shape Detections.memory).
  - simpl. lia.
  - apply detections_shaped.
  - simpl. lia.
  - simpl. lia.
  - simpl. lia.
  - simpl. lia.
Defined.

Lemma clipped_clipped (shape : Z * Z) (b : box) :
  InPlace.clipped shape (InPlace.clipped shape b) = InPlace.clipped shape b.
Proof.
  destruct shape as [h w], b as [[[x1 y1] x2] y2]. simpl.
  by rewrite !clip_clip.
Qed.

(** Clipping twice is clipping once, and clipping leaves a view whose
    boxes lie inside the frame as it is. *)
Theorem clip_boxes_idempotent (a : Np.ndarray) (shape : Z * Z)
        (mem : Np.memory) :
  (4 <= Np.width a)%nat ->
  Np.shaped mem a ->
  (do _u <- InPlace.clip_boxes a shape; InPlace.clip_boxes a shape) mem
    = InPlace.clip_boxes a shape mem /\
  (is_Some (mem !! Np.buffer a) ->
   Forall (inside_frame shape) (Np.boxes mem a) ->
   InPlace.clip_boxes a shape mem = (mem, Ok tt)).
Proof.
  intros Hw Hs. split.
  - unfold sbind. rewrite clip_boxes_effect by done.
    rewrite clip_boxes_effect; [|done|by apply shaped_map_boxes].
    rewrite map_boxes_compose by done. f_equal.
    apply map_boxes_ext. intros b. apply clipped_clipped.
  - intros Hsome Hin. rewrite clip_boxes_effect by done. f_equal.
    rewrite <- (map_boxes_id a mem Hs Hsome) at 2.
    unfold Np.map_boxes. f_equal. apply map_ext_Forall, Forall_forall.
    intros r Hr.
    assert (inside_frame shape (Np.box_at (Np.offset a) r)) as Hb.
    { apply (proj1 (Forall_forall _ _) Hin). unfold Np.boxes.
      apply list_elem_of_fmap. by exists r. }
    clear Hr. rename Hb into Hr.
    unfold Np.on_box. f_equal.
    destruct shape as [h w], (Np.box_at (Np.offset a) r) as [[[x1 y1] x2] y2].
    simpl in *. destruct Hr as (H1 & H2 & H3 & H4).
    by rewrite !clip_inside.
Qed.

Lemma clip_boxes_idempotent_witness :
  let a := Np.slice_columns Detections.det 4 in
  (do _u <- InPlace.clip_boxes a (50, 100); InPlace.clip_boxes a (50, 100))
    Detections.memory
    = InPlace.clip_boxes a (50, 100) Detections.memory /\
  (is_Some (Detections.memory !! Np.buffer a) ->
   Forall (inside_frame (50, 100)) (Np.boxes Detections.memory a) ->
   InPlace.clip_boxes a (50, 100) Detections.memory = (Detections.memory, Ok tt)).
Proof.
  apply (clip_boxes_idempotent (Np.slice_columns Detections.det 4) (50, 100)
           Detections.memory).
  - simpl. lia.
  - apply detections_shaped.
Defined.

(** Scaling between two equal shapes has gain 1 and no padding: it only
    clips the boxes to the frame. *)
Theorem scale_boxes_same_shape (a : Np.ndarray) (shape : Z * Z)
        (mem : Np.memory) :
  (4 <= Np.width a)%nat ->
  Np.shaped mem a ->
  shape.1 <> 0 -> shape.2 <> 0 ->
  InPlace.scale_boxes a shape shape mem
    = (Np.map_boxes a (InPlace.clipped shape) mem, Ok a) /\
  (InPlace.clip_boxes a shape mem).1 = (InPlace.scale_boxes a shape shape mem).1.
Proof.
  intros Hw Hs Hh Hwd.
  assert (InPlace.scale_boxes a shape shape mem
          = (Np.map_boxes a (InPlace.clipped shape) mem, Ok a)) as Hscale.
  { rewrite scale_boxes_effect by done. f_equal.
    apply map_boxes_ext. intros [[[x1 y1] x2] y2]. unfold InPlace.rescaled.
    pose proof (of_Z_neq_0 _ Hh) as Hh'. pose proof (of_Z_neq_0 _ Hwd) as Hw'.
    assert (Num.minimum (Num.of_Z shape.1 / Num.of_Z shape.1)
                        (Num.of_Z shape.2 / Num.of_Z shape.2) = 1%Qc) as ->.
    { replace (Num.of_Z shape.1 / Num.of_Z shape.1)%Qc with 1%Qc by (field; done).
      replace (Num.of_Z shape.2 / Num.of_Z shape.2)%Qc with 1%Qc by (field; done).
      done. }
    f_equal. repeat f_equal; field; repeat split; done. }
  split; [done|]. rewrite Hscale, clip_boxes_effect by done. done.
Qed.

Lemma scale_boxes_same_shape_witness :
  let a := Np.slice_columns Detections.det 4 in
  InPlace.scale_boxes a Detections.orig_shape Detections.orig_shape
    Detections.memory
    = (Np.map_boxes a (InPlace.clipped Detections.orig_shape) Detections.memory,
       Ok a) /\
  (InPlace.clip_boxes a Detections.orig_shape Detections.memory).1
    = (InPlace.scale_boxes a Detections.orig_shape Detections.orig_shape
         Detections.memory).1.
Proof.
  apply (scale_boxes_same_shape (Np.slice_columns Detections.det 4)
           Detections.orig_shape Detections.memory).
  - simpl. lia.
  - apply detections_shaped.
  - discriminate.
  - discriminate.
Defined.

(** A target shape with a zero side makes [scale_boxes] raise
    [ZeroDivisionError] at the computation of the gain, before any box is
    written. *)
Theorem scale_boxes_zero_target (a : Np.ndarray) (from_shape to_shape : Z * Z)
        (mem : Np.memory) :
  to_shape.1 = 0 \/ to_shape.2 = 0 ->
  InPlace.scale_boxes a from_shape to_shape mem = (mem, Raise ZeroDivisionError).
Proof.
  intros Hzero. unfold InPlace.scale_boxes, InPlace.true_div, lift.
  unfold sbind at 1.
  destruct (Z.eqb_spec to_shape.1 0) as [|Hne]; [done|].
  unfold sbind at 1.
  destruct (Z.eqb_spec to_shape.2 0) as [|Hne']; [done|].
  by destruct Hzero.
Qed.

Lemma scale_boxes_zero_target_witness :
  InPlace.scale_boxes Detections.det (640, 640) (0, 200) Detections.memory
  = (Detections.memory, Raise ZeroDivisionError).
Proof.
  apply (scale_boxes_zero_target Detections.det (640, 640) (0, 200)
           Detections.memory).
  by left.
Defined.

(** On a view of fewer than four columns [xyxy_to_xyxyn] raises
    [IndexError].  With three columns the exception comes from the second
    update, after the columns 0 and 2 of the buffer were divided by the
    width; with fewer the buffer is as it was. *)
Theorem xyxy_to_xyxyn_narrow_view (a : Np.ndarray) (shape : Z * Z)
        (mem : Np.memory) :
  (Np.width a < 4)%nat ->
  exists mem',
    InPlace.xyxy_to_xyxyn a shape mem = (mem', Raise IndexError) /\
    ((Np.width a < 3)%nat -> mem' = mem) /\
    (Np.width a = 3%nat ->
     mem' = <[Np.buffer a :=
                map (fun r =>
                       alter (fun v => v / Num.of_Z shape.2)%Qc (Np.offset a + 0)%nat
                         (alter (fun v => v / Num.of_Z shape.2)%Qc
                                (Np.offset a + 2)%nat r))
                    (Np.rows mem a)]> mem).
Proof.
  intros Hw. destruct shape as [h w].
  unfold InPlace.xyxy_to_xyxyn, sbind, Np.update_columns.
  destruct (Np.width a) as [|[|[|[|n]]]] eqn:Hwa; [..|lia]; simpl;
    (eexists; split; [reflexivity|]; split; [intros ?|intros ?]; try lia; done).
Qed.

Lemma xyxy_to_xyxyn_narrow_view_witness :
  exists mem',
    InPlace.xyxy_to_xyxyn (Np.slice_columns Detections.det 3)
      Detections.orig_shape Detections.memory = (mem', Raise IndexError) /\
    ((Np.width (Np.slice_columns Detections.det 3) < 3)%nat ->
     mem' = Detections.memory) /\
    (Np.width (Np.slice_columns Detections.det 3) = 3%nat ->
     mem' = <[Np.buffer (Np.slice_columns Detections.det 3) :=
                map (fun r =>
                       alter (fun v => v / Num.of_Z Detections.orig_shape.2)%Qc
                             (Np.offset (Np.slice_columns Detections.det 3) + 0)%nat
                         (alter (fun v => v / Num.of_Z Detections.orig_shape.2)%Qc
                                (Np.offset (Np.slice_columns Detections.det 3) + 2)%nat
                                r))
                    (Np.rows Detections.memory (Np.slice_columns Detections.det 3))]>
              Detections.memory).
Proof.
  apply (xyxy_to_xyxyn_narrow_view (Np.slice_columns Detections.det 3)
           Detections.orig_shape Detections.memory).
  simpl. lia.
Defined.

(** ** The presentation adapters: errors and results *)

Lemma mapM_cons {A B} (g : A -> result B) (x : A) (l : list A) :
  mapM g (x :: l) = (y ← g x; ys ← mapM g l; Ok (y :: ys)).
Proof. reflexivity. Qed.

Lemma mapM_get_column_Ok (k : nat) (dets : list Np.ndarray) :
  Forall (fun det => (k < Np.width det)%nat) dets ->
  mapM (fun det => Np.get_column det k) dets
  = Ok (map (fun det => Np.Column (Np.buffer det) (Np.offset det + k)) dets).
Proof.
  induction 1 as [|det dets Hk _ IH]; [done|].
  rewrite mapM_cons, IH.
  destruct (Np.get_column det k) as [c|e] eqn:Hg; unfold Np.get_column in Hg;
    destruct (Nat.ltb_spec k (Np.width det)) as [Hlt|]; simplify_eq; [done|lia].
Qed.

Lemma mapM_get_column_Raise (k : nat) (dets : list Np.ndarray) :
  (exists det, det ∈ dets /\ (Np.width det <= k)%nat) ->
  mapM (fun det => Np.get_column det k) dets = Raise IndexError.
Proof.
  induction dets as [|det dets IH]; intros (bad & Hin & Hbad).
  - by apply elem_of_nil in Hin.
  - rewrite mapM_cons.
    destruct (Np.get_column det k) as [c|e] eqn:Hg; unfold Np.get_column in Hg;
      destruct (Nat.ltb_spec k (Np.width det)) as [Hlt|]; simplify_eq; [|done].
    cbn [mbind result_bind].
    rewrite IH; [done|]. exists bad. split; [|done].
    apply elem_of_cons in Hin as [->|Hin]; [lia|done].
Qed.

Lemma to_mode_narrow (dets : list Np.ndarray) (output_mode : string)
      (orig_shape : Z * Z) (cls_map : option (gmap Z string))
      (mem : Np.memory) :
  (exists det, det ∈ dets /\ (Np.width det < 6)%nat) ->
  AHOYv5.to_mode dets output_mode orig_shape cls_map mem
  = (mem, Raise IndexError).
Proof.
  intros (bad & Hin & Hbad). unfold AHOYv5.to_mode.
  unfold sbind at 1. unfold lift at 1.
  destruct (decide (Forall (fun det => (4 < Np.width det)%nat) dets)) as [Hall|Hsome].
  - rewrite (mapM_get_column_Ok 4 dets Hall).
    unfold sbind at 1. unfold lift at 1.
    rewrite mapM_get_column_Raise; [done|].
    exists bad. split; [done|lia].
  - rewrite mapM_get_column_Raise; [done|].
    apply not_Forall_Exists in Hsome; [|apply _].
    apply Exists_exists in Hsome as (det & Hdet & Hw).
    exists det. split; [done|]. unfold not in Hw. simpl in Hw. lia.
Qed.

(** A detection array of fewer than six columns makes [to_mode] raise
    [IndexError] in every output mode, at the slices [det[:, 4]] and
    [det[:, 5]] and so before any box is written. *)
Theorem to_mode_narrow_detections (dets : list Np.ndarray) (output_mode : string)
        (orig_shape : Z * Z) (cls_map : option (gmap Z string))
        (mem : Np.memory) :
  (exists det, det ∈ dets /\ (Np.width det < 6)%nat) ->
  AHOYv5.to_mode dets output_mode orig_shape cls_map mem
  = (mem, Raise IndexError).
Proof. apply to_mode_narrow. Qed.

Lemma to_mode_narrow_detections_witness :
  AHOYv5.to_mode [Np.slice_columns Detections.det 5] "tf"
    Detections.orig_shape None Detections.memory
  = (Detections.memory, Raise IndexError).
Proof.
  apply (to_mode_narrow_detections [Np.slice_columns Detections.det 5] "tf"
           Detections.orig_shape None Detections.memory).
  exists (Np.slice_columns Detections.det 5).
  split; [by apply list_elem_of_singleton|simpl; lia].
Defined.

(** Without a class mapping, [None] or an empty one, the mode "qa" raises
    [ValueError] and leaves every detection array as it was. *)
Theorem to_mode_qa_without_class_map (dets : list Np.ndarray)
        (orig_shape : Z * Z) (cls_map : option (gmap Z string))
        (mem : Np.memory) :
  Forall (fun det => (6 <= Np.width det)%nat) dets ->
  cls_map = None \/ cls_map = Some ∅ ->
  AHOYv5.to_mode dets "qa" orig_shape cls_map mem = (mem, Raise ValueError).
Proof.
  intros Hw Hmap. unfold AHOYv5.to_mode.
  unfold sbind at 1. unfold lift at 1.
  rewrite (mapM_get_column_Ok 4 dets)
    by (eapply Forall_impl; [exact Hw|]; simpl; lia).
  unfold sbind at 1. unfold lift at 1.
  rewrite (mapM_get_column_Ok 5 dets)
    by (eapply Forall_impl; [exact Hw|]; simpl; lia).
  change ("qa" =? "tf")%string with false. rewrite String.eqb_refl.
  unfold AHOYv5.to_qa, sbind, lift.
  destruct Hmap as [-> | ->]; [done|].
  by destruct (decide (∅ = ∅)).
Qed.

Lemma to_mode_qa_without_class_map_witness :
  AHOYv5.to_mode [Detections.det] "qa" Detections.orig_shape None
    Detections.memory
  = (Detections.memory, Raise ValueError).
Proof.
  apply (to_mode_qa_without_class_map [Detections.det] Detections.orig_shape
           None Detections.memory).
  - repeat constructor.
  - by left.
Defined.

Lemma update_columns_frame (a : Np.ndarray) (idx : list nat) (g : Qc -> Qc)
      (mem mem' : Np.memory) (r : result unit) (l : loc) :
  Np.update_columns a idx g mem = (mem', r) ->
  l <> Np.buffer a -> mem' !! l = mem !! l.
Proof.
  unfold Np.update_columns. destruct (forallb _ _); intros [= <- _] Hne; [|done].
  by rewrite lookup_insert_ne.
Qed.

Lemma xyxy_to_xyxyn_frame (a : Np.ndarray) (shape : Z * Z)
      (mem mem' : Np.memory) (r : result Np.ndarray) (l : loc) :
  InPlace.xyxy_to_xyxyn a shape mem = (mem', r) ->
  l <> Np.buffer a -> mem' !! l = mem !! l.
Proof.
  destruct shape as [h w]. unfold InPlace.xyxy_to_xyxyn, sbind, sret.
  destruct (Np.update_columns a [0; 2]%nat _ mem) as [mem1 [[]|e]] eqn:H1.
  - destruct (Np.update_columns a [1; 3]%nat _ mem1) as [mem2 [[]|e]] eqn:H2;
      intros [= <- _] Hne;
      rewrite (update_columns_frame _ _ _ _ _ _ _ H2 Hne);
      apply (update_columns_frame _ _ _ _ _ _ _ H1 Hne).
  - intros [= <- _] Hne. apply (update_columns_frame _ _ _ _ _ _ _ H1 Hne).
Qed.

(** Whatever its outcome, the loop of [to_qa] writes to the buffers of
    its arrays only. *)
Lemma to_qa_loop_frame (cls_map : gmap Z string) (orig_shape : Z * Z)
      (items : list (Np.ndarray * Np.column * Np.column)) :
  forall (mem mem' : Np.memory) (r : result (list (list AHOYv5.qa_entry)))
         (l : loc),
    AHOYv5.to_qa_loop cls_map items orig_shape mem = (mem', r) ->
    l ∉ map Np.buffer (items.*1.*1) ->
    mem' !! l = mem !! l.
Proof.
  induction items as [|[[bbs scs] cls] items IH]; intros mem mem' r l.
  - by intros [= <- _].
  - cbn [AHOYv5.to_qa_loop]. unfold sbind at 1.
    destruct (InPlace.xyxy_to_xyxyn bbs orig_shape mem) as [mem1 [b|e]] eqn:H1.
    + unfold sbind at 1. unfold Np.iter_rows at 1. unfold sbind at 1.
      destruct (AHOYv5.qa_entries _ _) as [es|e].
      * unfold sbind at 1.
        destruct (AHOYv5.to_qa_loop cls_map items orig_shape mem1)
          as [mem2 [ps|e]] eqn:H2; unfold sret; intros [= <- _] Hl;
          (rewrite (IH _ _ _ l H2);
           [apply (xyxy_to_xyxyn_frame _ _ _ _ _ _ H1)|]);
          intros Hin; apply Hl; simpl; first [by left | by right | rewrite Hin; by left].
      * intros [= <- _] Hl. apply (xyxy_to_xyxyn_frame _ _ _ _ _ _ H1).
        intros Hin; apply Hl; simpl; rewrite Hin; by left.
    + intros [= <- _] Hl. apply (xyxy_to_xyxyn_frame _ _ _ _ _ _ H1).
      intros Hin; apply Hl; simpl; rewrite Hin; by left.
Qed.

Lemma to_mode_views (dets : list Np.ndarray) :
  Forall (fun det => (6 <= Np.width det)%nat) dets ->
  mapM (fun det => Np.get_column det 4) dets = Ok (map (fun det => (det_views det).1.2) dets) /\
  mapM (fun det => Np.get_column det 5) dets = Ok (map (fun det => (det_views det).2) dets) /\
  zip (zip (map (fun det => Np.slice_columns det 4) dets)
           (map (fun det => (det_views det).1.2) dets))
      (map (fun det => (det_views det).2) dets)
  = map det_views dets.
Proof.
  intros Hw. split; [|split].
  - apply (mapM_get_column_Ok 4). eapply Forall_impl; [exact Hw|]. simpl. lia.
  - apply (mapM_get_column_Ok 5). eapply Forall_impl; [exact Hw|]. simpl. lia.
  - clear Hw. induction dets as [|det dets IH]; [done|].
    cbn [map zip_with]. f_equal. exact IH.
Qed.

Lemma det_views_buffers (dets : list Np.ndarray) :
  map Np.buffer ((map det_views dets).*1.*1) = map Np.buffer dets.
Proof.
  induction dets as [|det dets IH]; [done|].
  cbn [map fmap list_fmap]. f_equal. exact IH.
Qed.

(** An unknown class in the mode "qa": when [to_mode] raises [KeyError],
    at [cls_map[c]], the boxes of the first detection array are already
    normalised in place. *)
Theorem to_mode_qa_unknown_class (det : Np.ndarray) (dets : list Np.ndarray)
        (orig_shape : Z * Z) (cls_map : gmap Z string)
        (mem mem' : Np.memory) :
  NoDup (map Np.buffer (det :: dets)) ->
  is_Some (mem !! Np.buffer det) ->
  Np.shaped mem det ->
  AHOYv5.to_mode (det :: dets) "qa" orig_shape (Some cls_map) mem
    = (mem', Raise KeyError) ->
  Np.boxes mem' (Np.slice_columns det 4)
  = map (InPlace.normalised orig_shape) (Np.boxes mem (Np.slice_columns det 4)).
Proof.
  intros [Hnotin _]%NoDup_cons Hsome Hshaped.
  destruct (decide (Forall (fun d => (6 <= Np.width d)%nat) (det :: dets)))
    as [Hw|Hnarrow].
  2: { rewrite to_mode_narrow; [done|].
       apply not_Forall_Exists in Hnarrow; [|apply _].
       apply Exists_exists in Hnarrow as (d & Hd & Hwd).
       exists d. split; [done|]. simpl in Hwd. lia. }
  destruct (to_mode_views (det :: dets) Hw) as (Hscores & Hclasses & Hitems).
  unfold AHOYv5.to_mode.
  unfold sbind at 1. unfold lift at 1. rewrite Hscores.
  unfold sbind at 1. unfold lift at 1. rewrite Hclasses.
  change ("qa" =? "tf")%string with false. rewrite String.eqb_refl.
  unfold AHOYv5.to_qa. destruct (decide (cls_map = ∅)); [done|].
  rewrite Hitems. cbn [map].
  apply Forall_cons in Hw as [Hwdet _].
  assert (4 <= Np.width (Np.slice_columns det 4))%nat as Hw4
    by (unfold Np.slice_columns; cbn [Np.width]; lia).
  assert (Np.boxes (Np.map_boxes (Np.slice_columns det 4)
                      (InPlace.normalised orig_shape) mem)
                   (Np.slice_columns det 4)
          = map (InPlace.normalised orig_shape)
                (Np.boxes mem (Np.slice_columns det 4))) as Hboxes
    by (by apply boxes_map_boxes).
  unfold sbind at 1. unfold det_views at 1.
  cbn [AHOYv5.to_qa_loop]. unfold sbind at 1.
  rewrite xyxy_to_xyxyn_effect by done.
  set (mem1 := Np.map_boxes _ _ mem) in *.
  unfold sbind at 1. unfold Np.iter_rows at 1. unfold sbind at 1.
  destruct (AHOYv5.qa_entries _ _) as [es|e]; [|by intros [= <- _]].
  unfold sbind at 1.
  destruct (AHOYv5.to_qa_loop cls_map (map det_views dets) orig_shape mem1)
    as [mem2 [ps|e]] eqn:Hloop; [done|].
  unfold sret. intros [= <- _]. rewrite <- Hboxes.
  unfold Np.boxes, Np.rows. f_equal. rewrite !lookup_total_alt. f_equal.
  apply (to_qa_loop_frame _ _ _ _ _ _ _ Hloop).
  by rewrite det_views_buffers.
Qed.

Lemma to_mode_qa_unknown_class_witness :
  let run := AHOYv5.to_mode [Detections.det] "qa" Detections.orig_shape
               (Some boats_only) Detections.memory in
  run.2 = Raise KeyError /\
  Np.boxes run.1 (Np.slice_columns Detections.det 4)
  = map (InPlace.normalised Detections.orig_shape)
        (Np.boxes Detections.memory (Np.slice_columns Detections.det 4)).
Proof.
  intros run.
  assert (run.2 = Raise KeyError) as Hrun by (vm_compute; reflexivity).
  split; [exact Hrun|].
  apply (to_mode_qa_unknown_class Detections.det [] Detections.orig_shape
           boats_only Detections.memory run.1).
  - repeat constructor. by intros ?%elem_of_nil.
  - by eexists.
  - apply detections_shaped.
  - rewrite <- Hrun. apply surjective_pairing.
Defined.

Lemma tf_row_on_box (o : nat) (g : box -> box) (r : list Qc) :
  (o + 4 <= length r)%nat ->
  map (fun k => Np.on_box o g r !!! (o + k)%nat) [1; 0; 3; 2]%nat
  = tf_row (g (Np.box_at o r)).
Proof.
  intros Hlen. pose proof (on_box_box_at o g r Hlen) as Hbox.
  unfold Np.box_at in Hbox at 1.
  destruct (g (Np.box_at o r)) as [[[x1 y1] x2] y2].
  injection Hbox as H1 H2 H3 H4. simpl.
  rewrite Nat.add_0_r. by rewrite H1, H2, H3, H4.
Qed.

(** The proposals of [to_tf], one for each item: the boxes are a new
    array, a copy with the rows [y1, x1, y2, x2] of the normalised boxes;
    the scores and the classes are the columns given; the number of
    detections is the number of rows. *)
Lemma to_tf_loop_proposals (orig_shape : Z * Z)
      (items : list (Np.ndarray * Np.column * Np.column)) :
  forall (mem mem' : Np.memory) (props : list AHOYv5.tf_proposal),
    Forall (fun a => (4 <= Np.width a)%nat /\ is_Some (mem !! Np.buffer a) /\
                     Np.shaped mem a) (items.*1.*1) ->
    NoDup (map Np.buffer (items.*1.*1)) ->
    AHOYv5.to_tf_loop items orig_shape mem = (mem', Ok props) ->
    Forall2 (fun item p =>
               exists l,
                 p = AHOYv5.Build_tf_proposal (Np.make l 0 4) item.1.2 item.2
                       (length (Np.rows mem item.1.1)) /\
                 mem !! l = None /\
                 mem' !! l
                 = Some (map (fun r => tf_row (InPlace.normalised orig_shape
                                                 (Np.box_at (Np.offset item.1.1) r)))
                             (Np.rows mem item.1.1)))
            items props.
Proof.
  induction items as [|[[bbs scs] cls] items IH]; intros mem mem' props Hready Hnodup.
  - intros [= _ <-]. constructor.
  - simpl in Hready, Hnodup.
    apply Forall_cons in Hready as [(Hw & Hsome & Hshaped) Hready].
    pose proof Hnodup as [Hnotin Hnodup']%NoDup_cons.
    cbn [AHOYv5.to_tf_loop]. unfold sbind at 1.
    rewrite xyxy_to_xyxyn_effect by done.
    set (mem1 := Np.map_boxes bbs (InPlace.normalised orig_shape) mem).
    unfold sbind at 1. unfold Np.take_columns.
    rewrite columns_in_range; [|done|repeat constructor; lia].
    set (l0 := fresh (dom mem1)).
    set (copy := map _ (Np.rows mem1 bbs)).
    set (mem2 := <[l0 := copy]> mem1).
    unfold sbind at 1. unfold Np.len at 1.
    assert (forall l, is_Some (mem !! l) -> is_Some (mem1 !! l)) as Hsome1.
    { intros l Hl. destruct (decide (l = Np.buffer bbs)) as [->|Hne].
      - unfold mem1. by rewrite map_boxes_lookup_eq.
      - unfold mem1. by rewrite map_boxes_lookup_ne. }
    assert (forall l, is_Some (mem !! l) -> l <> l0) as Hfresh.
    { intros l Hl. by apply fresh_buffer_ne, Hsome1. }
    assert (forall l, is_Some (mem !! l) -> l <> Np.buffer bbs ->
                      mem2 !! l = mem !! l) as Hframe.
    { intros l Hl Hne. unfold mem2.
      rewrite lookup_insert_ne by (apply not_eq_sym, Hfresh, Hl).
      by apply map_boxes_lookup_ne. }
    assert (forall a, a ∈ items.*1.*1 ->
              is_Some (mem !! Np.buffer a) /\ Np.buffer a <> Np.buffer bbs) as Htail.
    { intros a Ha.
      pose proof (proj1 (Forall_forall _ _) Hready a Ha) as (_ & Hsa & _).
      split; [done|]. intros Heq. apply Hnotin. rewrite <- Heq.
      apply list_elem_of_fmap. by exists a. }
    assert (Forall (fun a => (4 <= Np.width a)%nat /\
                             is_Some (mem2 !! Np.buffer a) /\ Np.shaped mem2 a)
                   (items.*1.*1)) as Hready2.
    { apply Forall_forall. intros a Ha.
      pose proof (proj1 (Forall_forall _ _) Hready a Ha) as (Hwa & Hsa & Hsha).
      destruct (Htail a Ha) as [_ Hne].
      pose proof (Hframe _ Hsa Hne) as Heq.
      split; [done|]. split; [by rewrite Heq|].
      unfold Np.shaped, Np.rows in *.
      by rewrite lookup_total_alt, Heq, <- lookup_total_alt. }
    unfold sbind at 1.
    destruct (AHOYv5.to_tf_loop items orig_shape mem2) as [mem'' [ps|e]] eqn:Hrun;
      [|done].
    unfold sret. intros [= <- <-].
    destruct (to_tf_loop_overwrites orig_shape items mem2 Hready2 Hnodup')
      as (mem3 & ps3 & Hrun3 & _ & Hkeep & _).
    rewrite Hrun in Hrun3. injection Hrun3 as <- <-.
    assert (length (Np.rows mem2 (Np.make l0 0 (length [1; 0; 3; 2]%nat)))
            = length (Np.rows mem bbs)) as Hn.
    { unfold Np.rows at 1. cbn [Np.buffer]. unfold mem2.
      rewrite lookup_total_insert_eq. unfold copy.
      rewrite length_map. unfold mem1. by rewrite rows_map_boxes, length_map. }
    constructor.
    + exists l0. cbn [fst snd]. split; [by rewrite <- Hn|]. split.
      * destruct (mem !! l0) as [rows0|] eqn:Hl0; [|done].
        by destruct (Hfresh l0); [eexists|].
      * rewrite Hkeep.
        -- unfold mem2. rewrite lookup_insert_eq. f_equal. unfold copy, mem1.
           rewrite rows_map_boxes, map_map. apply map_ext_Forall.
           eapply Forall_impl; [exact Hshaped|]. intros r Hr.
           by apply tf_row_on_box.
        -- unfold mem2. by rewrite lookup_insert_eq.
        -- intros Hin. apply list_elem_of_fmap in Hin as (a & Heq & Ha).
           destruct (Htail a Ha) as [Hsa _]. apply (Hfresh _ Hsa). done.
    + specialize (IH mem2 mem'' ps Hready2 Hnodup' Hrun).
      apply Forall2_same_length_lookup. apply Forall2_same_length_lookup in IH.
      destruct IH as [Hlen IH]. split; [done|].
      intros k item p Hitem Hp.
      destruct (IH k item p Hitem Hp) as (l & -> & Hnone & Hrows).
      assert (item.1.1 ∈ items.*1.*1) as Ha.
      { apply list_elem_of_fmap. exists item.1. split; [done|].
        apply list_elem_of_fmap. exists item. split; [done|].
        by eapply list_elem_of_lookup_2. }
      destruct (Htail _ Ha) as [Hsa Hne].
      assert (Np.rows mem2 item.1.1 = Np.rows mem item.1.1) as Hsame.
      { unfold Np.rows. by rewrite !lookup_total_alt, (Hframe _ Hsa Hne). }
      exists l. rewrite <- Hsame. split; [done|]. split; [|done].
      destruct (mem !! l) as [rows0|] eqn:Hl; [|done].
      assert (is_Some (mem2 !! l)) as [x Hx]; [|congruence].
      destruct (decide (l = Np.buffer bbs)) as [->|Hlb].
      * unfold mem2. rewrite lookup_insert_ne by (apply not_eq_sym, Hfresh; by eexists).
        unfold mem1. by rewrite map_boxes_lookup_eq.
      * rewrite Hframe; [by eexists|by eexists|done].
Qed.

(** In the mode "tf" each detection array of six columns or more gives one
    proposal.  Its boxes are a new array, not one of the memory before:
    a copy with the rows [y1, x1, y2, x2] of the normalised boxes.  Its
    scores and classes are the columns 4 and 5 of the detection array
    itself, and its number of detections is the number of rows. *)
Theorem to_mode_tf_proposals (dets : list Np.ndarray) (orig_shape : Z * Z)
        (cls_map : option (gmap Z string)) (mem : Np.memory) :
  NoDup (map Np.buffer dets) ->
  (forall det, det ∈ dets ->
     (6 <= Np.width det)%nat /\ is_Some (mem !! Np.buffer det) /\
     Np.shaped mem det) ->
  exists mem' props,
    AHOYv5.to_mode dets "tf" orig_shape cls_map mem
      = (mem', Ok (AHOYv5.TF props)) /\
    Forall2 (fun det p =>
               exists l,
                 p = AHOYv5.Build_tf_proposal (Np.make l 0 4)
                       (Np.Column (Np.buffer det) (Np.offset det + 4))
                       (Np.Column (Np.buffer det) (Np.offset det + 5))
                       (length (Np.rows mem det)) /\
                 mem !! l = None /\
                 mem' !! l
                 = Some (map (fun r => tf_row (InPlace.normalised orig_shape
                                                 (Np.box_at (Np.offset det) r)))
                             (Np.rows mem det)))
            dets props.
Proof.
  intros Hnodup Hdets.
  assert (Forall (fun det => (6 <= Np.width det)%nat) dets) as Hw.
  { apply Forall_forall. intros det Hdet. by destruct (Hdets det Hdet). }
  destruct (to_mode_views dets Hw) as (Hscores & Hclasses & Hitems).
  unfold AHOYv5.to_mode.
  unfold sbind at 1. unfold lift at 1. rewrite Hscores.
  unfold sbind at 1. unfold lift at 1. rewrite Hclasses.
  rewrite String.eqb_refl. unfold AHOYv5.to_tf. rewrite Hitems.
  assert (Forall (fun a => (4 <= Np.width a)%nat /\ is_Some (mem !! Np.buffer a) /\
                           Np.shaped mem a) ((map det_views dets).*1.*1)) as Hready.
  { apply Forall_forall. intros a Ha.
    apply list_elem_of_fmap in Ha as (a1 & -> & Ha).
    apply list_elem_of_fmap in Ha as (item & -> & Ha).
    apply list_elem_of_fmap in Ha as (det & -> & Hdet).
    destruct (Hdets det Hdet) as (Hwd & Hsome & Hshaped).
    split; [unfold det_views, Np.slice_columns; cbn [fst Np.width]; lia|]. done. }
  assert (NoDup (map Np.buffer ((map det_views dets).*1.*1))) as Hnodup'
    by (by rewrite det_views_buffers).
  destruct (to_tf_loop_overwrites orig_shape (map det_views dets) mem
              Hready Hnodup') as (mem' & props & Hrun & _).
  exists mem', props. unfold sbind, sret. rewrite Hrun. split; [done|].
  pose proof (to_tf_loop_proposals orig_shape (map det_views dets) mem mem'
                props Hready Hnodup' Hrun) as Hprops.
  apply Forall2_fmap_l in Hprops.
  eapply Forall2_impl; [exact Hprops|]. intros det p Hp. exact Hp.
Qed.

Lemma to_mode_tf_proposals_witness :
  exists mem' props,
    AHOYv5.to_mode [Detections.det] "tf" Detections.orig_shape None
      Detections.memory = (mem', Ok (AHOYv5.TF props)) /\
    Forall2 (fun det p =>
               exists l,
                 p = AHOYv5.Build_tf_proposal (Np.make l 0 4)
                       (Np.Column (Np.buffer det) (Np.offset det + 4))
                       (Np.Column (Np.buffer det) (Np.offset det + 5))
                       (length (Np.rows Detections.memory det)) /\
                 Detections.memory !! l = None /\
                 mem' !! l
                 = Some (map (fun r => tf_row (InPlace.normalised Detections.orig_shape
                                                 (Np.box_at (Np.offset det) r)))
                             (Np.rows Detections.memory det)))
            [Detections.det] props.
Proof.
  apply (to_mode_tf_proposals [Detections.det] Detections.orig_shape None
           Detections.memory).
  - repeat constructor. by intros ?%elem_of_nil.
  - intros det ->%list_elem_of_singleton.
    split; [simpl; lia|]. split; [by eexists|apply detections_shaped].
Defined.

(** ** The passes: which layers run, and in which order *)

Section Order.
Context {St : Type}.
Variable body : nat -> Layer.t -> St -> traced St.
Variable runs : Layer.t -> bool.

(** A round calls its layer at most once, and exactly once when it goes
    through and the layer is not skipped. *)
Hypothesis body_calls : forall p m st c r,
  body p m st = (c, r) ->
  match r with
  | Ok _ => c = if runs m then [p] else []
  | Raise _ => c `prefix_of` (if runs m then [p] else [])
  end.

Lemma for_each_positions (layers : list Layer.t) :
  forall p st c r,
    for_each body p layers st = (c, r) ->
    c `prefix_of` positions_from runs p layers /\
    (forall st', r = Ok st' -> c = positions_from runs p layers).
Proof.
  induction layers as [|m layers IH]; intros p st c r; simpl.
  - intros [= <- <-]. done.
  - destruct (body p m st) as [c0 [st0|e]] eqn:Hbody;
      pose proof (body_calls _ _ _ _ _ Hbody) as Hc0; simpl in Hc0.
    + destruct (for_each body (S p) layers st0) as [cs r0] eqn:Hrest.
      intros [= <- <-]. destruct (IH _ _ _ _ Hrest) as [Hpre Hall].
      assert ((if runs m then p :: positions_from runs (S p) layers
               else positions_from runs (S p) layers)
              = c0 ++ positions_from runs (S p) layers) as ->
        by (rewrite Hc0; by destruct (runs m)).
      split; [by apply prefix_app|].
      intros st' Hst'. by rewrite (Hall st' Hst').
    + intros [= <- <-]. split; [|done].
      destruct (runs m).
      * etrans; [exact Hc0|]. apply prefix_cons, prefix_nil.
      * apply prefix_nil_inv in Hc0 as ->. apply prefix_nil.
Qed.

End Order.

Section Bodies.
Context {T : Type}.
Variable call : Layer.t -> value T -> result (value T).

Lemma run_layer_trace (save : save_t) (p : nat) (m : Layer.t) (x : value T)
      (st : Frame.t T) (c : list nat) (r : result (Frame.t T)) :
  Hydra.run_layer call save p m x st = (c, r) ->
  match r with
  | Ok _ => c = [p]
  | Raise _ => c `prefix_of` [p]
  end.
Proof.
  unfold Hydra.run_layer.
  assert (forall k : value T -> result (Frame.t T),
            match (r0 ← call m x; k r0) with
            | Ok _ => [p] = [p]
            | Raise _ => [p] `prefix_of` [p]
            end) as Hplain by (intros k; by destruct (_ ≫= _)).
  destruct (String.eqb _ _).
  - destruct (occurs_in "pitch" _) as [[|]|].
    + intros [= <- <-]. apply Hplain.
    + destruct (occurs_in "theta" _) as [[|]|].
      * intros [= <- <-]. apply Hplain.
      * intros [= <- <-]. apply Hplain.
      * intros [= <- <-]. apply prefix_nil.
    + intros [= <- <-]. apply prefix_nil.
  - intros [= <- <-]. apply Hplain.
Qed.

Lemma _forward_once_body_trace (save : save_t) (p : nat) (m : Layer.t)
      (st : Frame.t T) (c : list nat) (r : result (Frame.t T)) :
  Hydra._forward_once_body call save p m st = (c, r) ->
  match r with
  | Ok _ => c = if computed_in both 0 m then [p] else []
  | Raise _ => c `prefix_of` (if computed_in both 0 m then [p] else [])
  end.
Proof.
  unfold Hydra._forward_once_body. simpl.
  destruct (Hydra.gather _ _ _) as [xg|e].
  - apply run_layer_trace.
  - intros [= <- <-]. apply prefix_nil.
Qed.

Lemma _horizon_once_body_trace (cutoff : Z) (save : save_t) (p : nat)
      (m : Layer.t) (st : Frame.t T) (c : list nat) (r : result (Frame.t T)) :
  Hydra._horizon_once_body call cutoff save p m st = (c, r) ->
  match r with
  | Ok _ => c = if computed_in horizon cutoff m then [p] else []
  | Raise _ => c `prefix_of` (if computed_in horizon cutoff m then [p] else [])
  end.
Proof.
  unfold Hydra._horizon_once_body. simpl.
  destruct (Hydra.past_cutoff cutoff m); simpl.
  - by intros [= <- <-].
  - destruct (Hydra.gather _ _ _) as [xg|e].
    + apply run_layer_trace.
    + intros [= <- <-]. apply prefix_nil.
Qed.

Lemma _detect_once_body_trace (cutoff : Z) (save : save_t) (p : nat)
      (m : Layer.t) (st : Frame.t T) (c : list nat) (r : result (Frame.t T)) :
  Hydra._detect_once_body call save p m st = (c, r) ->
  match r with
  | Ok _ => c = if computed_in detection cutoff m then [p] else []
  | Raise _ => c `prefix_of` (if computed_in detection cutoff m then [p] else [])
  end.
Proof.
  unfold Hydra._detect_once_body. simpl.
  destruct (String.eqb _ _); simpl.
  - by intros [= <- <-].
  - destruct (Hydra.gather _ _ _) as [xg|e].
    + intros [= <- <-]. by destruct (_ ≫= _).
    + intros [= <- <-]. apply prefix_nil.
Qed.

End Bodies.

(** In each mode [forward] goes through the graph once, in order: the
    layers it calls are, in graph order and each once, the layers that the
    mode does not skip, all of them when the run returns and the first of
    them when it raises. *)
Theorem forward_calls_in_graph_order {T}
        (call : Layer.t -> value T -> result (value T))
        (t : task) (model : list Layer.t) (cutoff : Z) (save : save_t)
        (x : value T) :
  (Hydra.forward call t model cutoff save x).1
    `prefix_of` positions_from (computed_in t cutoff) 0 model /\
  (forall o, (Hydra.forward call t model cutoff save x).2 = Ok o ->
     (Hydra.forward call t model cutoff save x).1
     = positions_from (computed_in t cutoff) 0 model).
Proof.
  destruct t; unfold Hydra.forward.
  - unfold Hydra._detect_once.
    destruct (for_each _ _ _ _) as [c r] eqn:Hrun. simpl.
    destruct (for_each_positions _ (computed_in detection cutoff)
                (_detect_once_body_trace call cutoff save) _ _ _ _ _ Hrun)
      as [Hpre Hall].
    split; [done|]. intros o Ho. destruct r as [st|e]; [|done]. by eapply Hall.
  - unfold Hydra._horizon_once.
    destruct (for_each _ _ _ _) as [c r] eqn:Hrun. simpl.
    destruct (for_each_positions _ (computed_in horizon cutoff)
                (_horizon_once_body_trace call cutoff save) _ _ _ _ _ Hrun)
      as [Hpre Hall].
    split; [done|]. intros o Ho. destruct r as [st|e]; [|done]. by eapply Hall.
  - unfold Hydra._forward_once.
    destruct (for_each _ _ _ _) as [c r] eqn:Hrun. simpl.
    destruct (for_each_positions _ (computed_in both cutoff)
                (_forward_once_body_trace call save) _ _ _ _ _ Hrun)
      as [Hpre Hall].
    split; [done|]. intros o Ho. destruct r as [st|e]; [|done]. by eapply Hall.
Qed.

(** ** The passes on an assembled graph *)

Section Assembled.
Context {T : Type}.
Variable call : Layer.t -> value T -> result (value T).

Lemma for_each_app_result {St : Type} (body : nat -> Layer.t -> St -> traced St)
      (p : nat) (l1 l2 : list Layer.t) (st : St) :
  (for_each body p (l1 ++ l2) st).2 =
  match (for_each body p l1 st).2 with
  | Ok st' => (for_each body (p + length l1) l2 st').2
  | Raise e => Raise e
  end.
Proof.
  rewrite for_each_app. destruct (for_each body p l1 st) as [c [st'|e]]; [|done].
  simpl. by destruct (for_each body (p + length l1) l2 st').
Qed.

(** Rounds that agree on the layers of a graph give the same run. *)
Lemma for_each_ext {St : Type} (body body' : nat -> Layer.t -> St -> traced St)
      (layers : list Layer.t) :
  forall p st,
    (forall j m st, layers !! j = Some m ->
       body (p + j)%nat m st = body' (p + j)%nat m st) ->
    for_each body p layers st = for_each body' p layers st.
Proof.
  induction layers as [|m layers IH]; intros p st Hbody; [done|]. simpl.
  pose proof (Hbody 0%nat m st eq_refl) as H0. rewrite Nat.add_0_r in H0.
  rewrite H0. destruct (body' p m st) as [c [st'|e]]; [|done].
  rewrite (IH (S p) st'); [done|].
  intros j m' st0 Hj. replace (S p + j)%nat with (p + S j)%nat by lia.
  by apply Hbody.
Qed.

(** Rounds that skip every layer of a graph call nothing and leave the
    local variables as they were. *)
Lemma for_each_skip {St : Type} (body : nat -> Layer.t -> St -> traced St)
      (layers : list Layer.t) :
  forall p st,
    (forall p m st, m ∈ layers -> body p m st = ([], Ok st)) ->
    for_each body p layers st = ([], Ok st).
Proof.
  induction layers as [|m layers IH]; intros p st Hbody; [done|]. simpl.
  rewrite (Hbody p m st) by (by left).
  rewrite IH; [done|]. intros p' m' st' Hm'. apply Hbody. by right.
Qed.

(** The outcome of a run does not depend on the position that the
    counting of the layers starts from. *)
Lemma for_each_result_shift {St : Type}
      (body : nat -> Layer.t -> St -> traced St) (layers : list Layer.t) :
  (forall p p' m st, (body p m st).2 = (body p' m st).2) ->
  forall p p' st,
    (for_each body p layers st).2 = (for_each body p' layers st).2.
Proof.
  intros Hbody. induction layers as [|m layers IH]; intros p p' st; [done|].
  simpl. pose proof (Hbody p p' m st) as Hm.
  destruct (body p m st) as [c [st1|e]], (body p' m st) as [c' [st1'|e']];
    simpl in Hm; simplify_eq; [|done].
  pose proof (IH (S p) (S p') st1') as Hrest.
  destruct (for_each body (S p) layers st1') as [cs r],
           (for_each body (S p') layers st1') as [cs' r']. done.
Qed.

Lemma _forward_once_body_result (save : save_t) (p p' : nat) (m : Layer.t)
      (st : Frame.t T) :
  (Hydra._forward_once_body call save p m st).2
  = (Hydra._forward_once_body call save p' m st).2.
Proof.
  unfold Hydra._forward_once_body.
  destruct (Hydra.gather _ _ _) as [xg|e]; [|done].
  unfold Hydra.run_layer. destruct (String.eqb _ _); [|done].
  destruct (occurs_in "pitch" _) as [[|]|]; [done| |done].
  by destruct (occurs_in "theta" _) as [[|]|].
Qed.

(** In detection mode the graph with [Classify] layers appended runs as
    the graph without them: the same layers are called and the same
    outcome is returned. *)
Theorem detect_once_ignores_heads (base heads : list Layer.t) (save : save_t)
        (x : value T) :
  Forall (fun m => Layer.type m = Classify_type) heads ->
  Hydra._detect_once call (base ++ heads) save x
  = Hydra._detect_once call base save x.
Proof.
  intros Hheads. unfold Hydra._detect_once. rewrite for_each_app.
  destruct (for_each _ _ base _) as [c [st|e]]; [|done].
  rewrite for_each_skip.
  - by rewrite app_nil_r.
  - intros p m st' Hm. unfold Hydra._detect_once_body.
    by rewrite (proj1 (Forall_forall _ _) Hheads m Hm), String.eqb_refl.
Qed.

Lemma gather_again (m : Layer.t) (x xg : value T) (y : list (value T)) :
  (exists k, Layer.f m = FInt k) ->
  Hydra.gather m x y = Ok xg -> Hydra.gather m xg y = Ok xg.
Proof.
  intros [k Hk]. unfold Hydra.gather. rewrite Hk.
  destruct k as [|q|q]; [done..|]. by destruct q.
Qed.

Lemma head_round (save : save_t) (p : nat) (name : string) (ch nc cutoff : Z)
      (st : Frame.t T) :
  Hydra._forward_once_body call save p (Classify name ch nc cutoff) st =
  match Hydra.gather (Classify name ch nc cutoff) (Frame.x st) (Frame.y st) with
  | Raise e => ([], Raise e)
  | Ok xg =>
      Hydra.run_layer call save p (Classify name ch nc cutoff) xg st
  end.
Proof. reflexivity. Qed.

Lemma pitch_round (save : save_t) (p : nat) (ch nc cutoff : Z)
      (xg : value T) (st : Frame.t T) :
  Hydra.run_layer call save p (Classify "c_pitch" ch nc cutoff) xg st
  = ([p], r ← call (Classify "c_pitch" ch nc cutoff) xg;
          Ok (Frame.make xg (Frame.y st) r (Frame.x_theta st))).
Proof. reflexivity. Qed.

Lemma theta_round (save : save_t) (p : nat) (ch nc cutoff : Z)
      (xg : value T) (st : Frame.t T) :
  Hydra.run_layer call save p (Classify "c_theta" ch nc cutoff) xg st
  = ([p], r ← call (Classify "c_theta" ch nc cutoff) xg;
          Ok (Frame.make xg (Frame.y st) (Frame.x_pitch st) r)).
Proof. reflexivity. Qed.

(** What the two heads leave: both were called on one and the same
    input, which is the [x] of the frame afterwards. *)
Lemma heads_rounds (save : save_t) (p : nat) (ch nc_pitch nc_theta cutoff : Z)
      (st st' : Frame.t T) :
  (for_each (Hydra._forward_once_body call save) p
     [Classify "c_pitch" ch nc_pitch cutoff; Classify "c_theta" ch nc_theta cutoff]
     st).2 = Ok st' ->
  Hydra.gather (Classify "c_pitch" ch nc_pitch cutoff) (Frame.x st) (Frame.y st)
    = Ok (Frame.x st') /\
  call (Classify "c_pitch" ch nc_pitch cutoff) (Frame.x st') = Ok (Frame.x_pitch st') /\
  call (Classify "c_theta" ch nc_theta cutoff) (Frame.x st') = Ok (Frame.x_theta st') /\
  Frame.y st' = Frame.y st.
Proof.
  cbn [for_each]. rewrite head_round.
  destruct (Hydra.gather _ (Frame.x st) (Frame.y st)) as [xg|e] eqn:Hg; [|done].
  rewrite pitch_round.
  destruct (call (Classify "c_pitch" ch nc_pitch cutoff) xg) as [rp|e] eqn:Hp;
    [|done]. cbn [mbind result_bind].
  rewrite head_round. cbn [Frame.x Frame.y].
  assert (Hydra.gather (Classify "c_theta" ch nc_theta cutoff) xg (Frame.y st)
          = Ok xg) as ->.
  { apply (gather_again (Classify "c_pitch" ch nc_pitch cutoff)) in Hg;
      [exact Hg|by eexists]. }
  rewrite theta_round.
  destruct (call (Classify "c_theta" ch nc_theta cutoff) xg) as [rt|e] eqn:Ht;
    [|done]. cbn [mbind result_bind].
  simpl. intros [= <-]. done.
Qed.

(** In the mode of both tasks, on a graph that ends with the two heads,
    the first component that [_forward_once] returns is the input that
    both heads were called on (the output saved at the cutoff), and not
    the output of the last layer before the heads. *)
Theorem both_mode_returns_heads_input (base : list Layer.t) (cutoff : Z)
        (save : save_t) (ch nc_pitch nc_theta : Z) (x xd pitch theta : value T) :
  (Hydra._forward_once call
     (base ++ [Classify "c_pitch" ch nc_pitch cutoff;
               Classify "c_theta" ch nc_theta cutoff]) save x).2
  = Ok (xd, pitch, theta) ->
  call (Classify "c_pitch" ch nc_pitch cutoff) xd = Ok pitch /\
  call (Classify "c_theta" ch nc_theta cutoff) xd = Ok theta.
Proof.
  unfold Hydra._forward_once.
  destruct (for_each _ _ _ _) as [c r] eqn:Hrun. simpl.
  assert (r = (for_each (Hydra._forward_once_body call save) 0
                 (base ++ [Classify "c_pitch" ch nc_pitch cutoff;
                           Classify "c_theta" ch nc_theta cutoff])
                 (Frame.make x [] VNone VNone)).2) as -> by (by rewrite Hrun).
  rewrite for_each_app_result.
  destruct (for_each _ _ base _).2 as [st1|e]; [|done].
  destruct (for_each _ _ [_; _] st1).2 as [st2|e] eqn:Hheads; [|done].
  simpl. intros [= <- <- <-].
  by destruct (heads_rounds _ _ _ _ _ _ _ _ Hheads) as (_ & Hp & Ht & _).
Qed.

(** The rounds of [_horizon_once] over a base whose layers carry their
    position as index, followed by the two heads: the layers up to the
    cutoff run as in [_forward_once], the later ones are skipped, and the
    heads run as in [_forward_once]. *)
Lemma horizon_run_truncated (base : list Layer.t) (cutoff : Z)
      (save : save_t) (ch nc_pitch nc_theta : Z) (st0 : Frame.t T) :
  (forall k m, base !! k = Some m -> Layer.i m = IInt (Z.of_nat k)) ->
  -1 <= cutoff ->
  (for_each (Hydra._horizon_once_body call cutoff save) 0
     (base ++ [Classify "c_pitch" ch nc_pitch cutoff;
               Classify "c_theta" ch nc_theta cutoff]) st0).2
  = (for_each (Hydra._forward_once_body call save) 0
       (take (Z.to_nat (cutoff + 1)) base
          ++ [Classify "c_pitch" ch nc_pitch cutoff;
              Classify "c_theta" ch nc_theta cutoff]) st0).2.
Proof.
  intros Hbase Hcut.
  set (heads := [Classify "c_pitch" ch nc_pitch cutoff;
                 Classify "c_theta" ch nc_theta cutoff]).
  set (n := Z.to_nat (cutoff + 1)).
  rewrite <- (take_drop n base) at 1. rewrite <- (assoc_L (++)).
  rewrite !for_each_app_result.
  rewrite (for_each_ext (Hydra._horizon_once_body call cutoff save)
             (Hydra._forward_once_body call save) (take n base)).
  2: { intros j m st Hj. apply lookup_take_Some in Hj as [Hj Hlt].
       unfold Hydra._horizon_once_body, Hydra.past_cutoff.
       rewrite (Hbase j m Hj).
       by rewrite bool_decide_eq_false_2 by lia. }
  destruct (for_each _ _ (take n base) st0).2 as [st1|e]; [|done].
  rewrite for_each_app_result.
  rewrite (for_each_skip (Hydra._horizon_once_body call cutoff save)
             (drop n base)).
  2: { intros p m st Hm. apply list_elem_of_lookup in Hm as [j Hj].
       rewrite lookup_drop in Hj.
       unfold Hydra._horizon_once_body, Hydra.past_cutoff.
       rewrite (Hbase _ m Hj).
       by rewrite bool_decide_eq_true_2 by lia. }
  cbn [snd].
  transitivity (for_each (Hydra._forward_once_body call save)
                  (0 + length (take n base) + length (drop n base)) heads st1).2.
  - unfold heads. cbn [for_each]. by rewrite !horizon_body_head.
  - apply for_each_result_shift. intros. apply _forward_once_body_result.
Qed.

(** [Hydra] in horizon mode and [HorizonModel] give the same outcome.
    For a base whose layers carry their position as index, the pass
    [_horizon_once] over the base with the two heads appended returns
    what [HorizonModel._forward_once] returns over the base cut after
    the cutoff with the two heads appended. *)
Theorem horizon_once_as_truncated_model (base : list Layer.t) (cutoff : Z)
        (save : save_t) (ch nc_pitch nc_theta : Z) (x : value T) :
  (forall k m, base !! k = Some m -> Layer.i m = IInt (Z.of_nat k)) ->
  -1 <= cutoff ->
  (Hydra._horizon_once call
     (base ++ [Classify "c_pitch" ch nc_pitch cutoff;
               Classify "c_theta" ch nc_theta cutoff]) cutoff save x).2
  = (HorizonModelPass._forward_once call
       (py_slice_to base (cutoff + 1)
          ++ [Classify "c_pitch" ch nc_pitch cutoff;
              Classify "c_theta" ch nc_theta cutoff]) save x).2.
Proof.
  intros Hbase Hcut.
  assert (py_slice_to base (cutoff + 1) = take (Z.to_nat (cutoff + 1)) base) as ->.
  { unfold py_slice_to. by destruct (decide (0 <= cutoff + 1)) as [_|]; [|lia]. }
  pose proof (horizon_run_truncated base cutoff save ch nc_pitch nc_theta
                (Frame.make x [] VNone VNone) Hbase Hcut) as Hsame.
  unfold Hydra._horizon_once, HorizonModelPass._forward_once.
  destruct (for_each (Hydra._horizon_once_body call cutoff save) 0 _ _) as [c r].
  destruct (for_each (Hydra._forward_once_body call save) 0 _ _) as [c' r'].
  simpl in *. by rewrite Hsame.
Qed.

End Assembled.

Lemma detect_once_ignores_heads_witness :
  Hydra._detect_once Yolo.call Yolo.hydra_layers Yolo.hydra_save Yolo.image
  = Hydra._detect_once Yolo.call Yolo.layers Yolo.hydra_save Yolo.image.
Proof.
  apply (detect_once_ignores_heads Yolo.call Yolo.layers
           [Classify "c_pitch" 32 500 1; Classify "c_theta" 32 500 1]
           Yolo.hydra_save Yolo.image).
  by repeat constructor.
Defined.

Lemma both_mode_returns_heads_input_witness :
  Yolo.call (Classify "c_pitch" 32 500 1) (VTensor (IInt 1))
    = Ok (VTensor (IStr "c_pitch")) /\
  Yolo.call (Classify "c_theta" 32 500 1) (VTensor (IInt 1))
    = Ok (VTensor (IStr "c_theta")).
Proof.
  apply (both_mode_returns_heads_input Yolo.call Yolo.layers 1 Yolo.hydra_save
           32 500 500 Yolo.image (VTensor (IInt 1))
           (VTensor (IStr "c_pitch")) (VTensor (IStr "c_theta"))).
  reflexivity.
Defined.

Lemma horizon_once_as_truncated_model_witness :
  (Hydra._horizon_once Yolo.call
     (Yolo.layers ++ [Classify "c_pitch" 32 500 1; Classify "c_theta" 32 500 1])
     1 Yolo.hydra_save Yolo.image).2
  = (HorizonModelPass._forward_once Yolo.call
       (py_slice_to Yolo.layers (1 + 1)
          ++ [Classify "c_pitch" 32 500 1; Classify "c_theta" 32 500 1])
       Yolo.hydra_save Yolo.image).2.
Proof.
  apply (horizon_once_as_truncated_model Yolo.call Yolo.layers 1
           Yolo.hydra_save 32 500 500 Yolo.image).
  - intros k m Hm. by destruct (yolo_layers_numbered k m Hm).
  - lia.
Defined.

(** ** Assembly: the default cutoff and failed assemblies *)

Lemma _find_cutoff_from_Ok (i : nat) (model : list Layer.t) (c : Z) :
  _find_cutoff_from i model = Ok c ->
  exists k m,
    c = Z.of_nat (i + k) - 1 /\ model !! k = Some m /\
    Layer.type m = SPPF_type /\
    forall j m', (j < k)%nat -> model !! j = Some m' -> Layer.type m' <> SPPF_type.
Proof.
  revert i. induction model as [|m0 model IH]; intros i; [done|]. simpl.
  destruct (String.eqb_spec (Layer.type m0) SPPF_type) as [Heq|Hne].
  - intros [= <-]. exists 0%nat, m0. repeat split; [f_equal; lia|done|lia].
  - intros Hc. destruct (IH _ Hc) as (k & m & -> & Hk & Hm & Hfirst).
    exists (S k), m. repeat split; [f_equal; lia|done..|].
    intros [|j] m' Hj Hm'; simpl in Hm'; [by simplify_eq|].
    apply (Hfirst j); [lia|done].
Qed.

(** The cutoff that [_find_cutoff] gives is one less than the position of
    a layer of the container, the first SPPF: indexing the container at
    [cutoff + 1] gives that layer. *)
Lemma default_cutoff_in_range (h : Store.t) (s : loc) (c : Z) :
  _find_cutoff (graph h s) = Ok c ->
  exists k name after,
    c = Z.of_nat k - 1 /\
    py_index (Store.sequentials h !!! s) (c + 1) = Ok (name, after) /\
    graph h s !! k = Some (Store.layers h !!! after) /\
    Layer.type (Store.layers h !!! after) = SPPF_type /\
    forall j m', (j < k)%nat -> graph h s !! j = Some m' ->
                 Layer.type m' <> SPPF_type.
Proof.
  intros Hfind. apply _find_cutoff_from_Ok in Hfind
    as (k & m & -> & Hk & Hm & Hfirst). simpl in *.
  pose proof Hk as Hk'. unfold graph in Hk'.
  apply list_lookup_fmap_Some in Hk' as ([name after] & Hlayer & Hchild).
  exists k, name, after. split; [done|].
  replace (Z.of_nat k - 1 + 1) with (Z.of_nat k) by lia.
  unfold py_index. pose proof (lookup_lt_Some _ _ _ Hchild) as Hlt.
  destruct (decide (0 <= Z.of_nat k < Z.of_nat (length (Store.sequentials h !!! s))))
    as [_|]; [|lia].
  rewrite Nat2Z.id. unfold index. rewrite Hchild.
  split; [done|]. by rewrite <- Hlayer.
Qed.

(** Without a given cutoff both assemblies build the two heads from the
    first SPPF layer of the base: the cutoff is the position before it,
    the heads take their number of input channels from it, and they read
    the output saved at the cutoff. *)
Theorem default_cutoff_reads_sppf (base : loc) (nc_pitch nc_theta : Z)
        (h h' : Store.t) (inst : Instance.t) :
  Hydra.init base nc_pitch nc_theta None h = (h', Ok inst) \/
  HorizonModel.init base nc_pitch nc_theta None h = (h', Ok inst) ->
  let s := DetectionModel.model (Store.models h !!! base) in
  exists k m ch,
    Instance.cutoff inst = Z.of_nat k - 1 /\
    graph h s !! k = Some m /\
    Layer.type m = SPPF_type /\
    (forall j m', (j < k)%nat -> graph h s !! j = Some m' ->
                  Layer.type m' <> SPPF_type) /\
    channels m = Ok ch /\
    Store.layers h' !! Store.next h
      = Some (Classify "c_pitch" ch nc_pitch (Z.of_nat k - 1)) /\
    Store.layers h' !! S (Store.next h)
      = Some (Classify "c_theta" ch nc_theta (Z.of_nat k - 1)).
Proof.
  unfold_assembly. simpl.
  set (d := Store.models h !!! base).
  set (s := DetectionModel.model d).
  intros Hrun.
  destruct (_find_cutoff (graph h s)) as [c|] eqn:Hfind;
    [|by destruct Hrun].
  destruct (default_cutoff_in_range h s c Hfind)
    as (k & name & after & -> & Hidx & Hk & Hm & Hfirst).
  rewrite Hidx in Hrun.
  destruct (channels (Store.layers h !!! after)) as [ch|] eqn:Hch;
    [|by destruct Hrun].
  simpl in Hrun. fold d in Hrun. fold s in Hrun.
  destruct (DetectionModel.save d) as [l|gs] eqn:Hsave; [|by destruct Hrun].
  simpl in Hrun.
  exists k, (Store.layers h !!! after), ch.
  destruct Hrun as [Hrun|Hrun]; injection Hrun as <- <-; simpl;
    (repeat split; try done);
    [rewrite lookup_insert_ne by lia; apply lookup_insert_eq
    |apply lookup_insert_eq
    |rewrite lookup_insert_ne by lia; apply lookup_insert_eq
    |apply lookup_insert_eq].
Qed.

Lemma default_cutoff_reads_sppf_witness :
  let run := Hydra.init Yolo.base 500 500 None Yolo.store in
  let s := DetectionModel.model (Store.models Yolo.store !!! Yolo.base) in
  exists k m ch,
    Instance.cutoff
      (Instance.make 500 500 1 5%nat (SaveSet (list_to_set [1; 3; 1])))
      = Z.of_nat k - 1 /\
    graph Yolo.store s !! k = Some m /\
    Layer.type m = SPPF_type /\
    (forall j m', (j < k)%nat -> graph Yolo.store s !! j = Some m' ->
                  Layer.type m' <> SPPF_type) /\
    channels m = Ok ch /\
    Store.layers run.1 !! Store.next Yolo.store
      = Some (Classify "c_pitch" ch 500 (Z.of_nat k - 1)) /\
    Store.layers run.1 !! S (Store.next Yolo.store)
      = Some (Classify "c_theta" ch 500 (Z.of_nat k - 1)).
Proof.
  intros run.
  apply (default_cutoff_reads_sppf Yolo.base 500 500 Yolo.store run.1
           (Instance.make 500 500 1 5%nat (SaveSet (list_to_set [1; 3; 1])))).
  left.
  assert (run.2 = Ok (Instance.make 500 500 1 5%nat
                        (SaveSet (list_to_set [1; 3; 1])))) as Hrun
    by (vm_compute; reflexivity).
  rewrite <- Hrun. apply surjective_pairing.
Defined.

(** An assembly that raises leaves the detection models and the
    containers of the store as they were, and the layer objects other
    than the two heads it may have built.  Without a given cutoff it
    never raises [IndexError]: the container is indexed at the position
    of its SPPF. *)
Theorem failed_assembly_leaves_base (base : loc) (nc_pitch nc_theta : Z)
        (cutoff : option Z) (h h' : Store.t) (e : exn) :
  Hydra.init base nc_pitch nc_theta cutoff h = (h', Raise e) \/
  HorizonModel.init base nc_pitch nc_theta cutoff h = (h', Raise e) ->
  Store.models h' = Store.models h /\
  Store.sequentials h' = Store.sequentials h /\
  (forall m, m <> Store.next h -> m <> S (Store.next h) ->
             Store.layers h' !! m = Store.layers h !! m) /\
  (cutoff = None -> e <> IndexError).
Proof.
  unfold_assembly. simpl.
  set (d := Store.models h !!! base).
  set (s := DetectionModel.model d).
  intros Hrun.
  assert (forall c,
    (cutoff = None -> _find_cutoff (graph h s) = Ok c) ->
    (match py_index (Store.sequentials h !!! s) (c + 1) with
     | Ok (_, after) =>
         match channels (Store.layers h !!! after) with
         | Ok ch =>
             match DetectionModel.save d with
             | SaveList _ => False
             | SaveSet _ =>
                 h' = Store.make
                        (<[S (Store.next h) := Classify "c_theta" ch nc_theta c]>
                           (<[Store.next h := Classify "c_pitch" ch nc_pitch c]>
                              (Store.layers h)))
                        (Store.sequentials h) (Store.models h)
                        (S (S (Store.next h))) /\
                 e = TypeError
             end
         | Raise e' => h' = h /\ e = e' /\ e' = AttributeError
         end
     | Raise e' => h' = h /\ e = e' /\ e' = IndexError
     end) ->
    Store.models h' = Store.models h /\
    Store.sequentials h' = Store.sequentials h /\
    (forall m, m <> Store.next h -> m <> S (Store.next h) ->
               Store.layers h' !! m = Store.layers h !! m) /\
    (cutoff = None -> e <> IndexError)) as Hcases.
  { intros c Hdefault Hc.
    destruct (py_index _ _) as [[name after]|e'] eqn:Hidx.
    - destruct (channels _) as [ch|e'] eqn:Hch.
      + destruct (DetectionModel.save d) as [l|gs]; [done|].
        destruct Hc as [-> ->]. simpl. repeat split; try done.
        intros m Hm1 Hm2. by rewrite !lookup_insert_ne by done.
      + destruct Hc as (-> & -> & ->). done.
    - destruct Hc as (-> & -> & ->). repeat split; try done.
      intros Hnone. destruct (default_cutoff_in_range h s c (Hdefault Hnone))
        as (k & name & after & _ & Hidx' & _). congruence. }
  destruct cutoff as [c|].
  - apply (Hcases c); [done|].
    destruct (py_index _ _) as [[name after]|e'] eqn:Hidx.
    + destruct (channels _) as [ch|e'] eqn:Hch; simpl in Hrun.
      * fold d in Hrun. destruct (DetectionModel.save d) as [l|gs]; simpl in Hrun.
        -- by destruct Hrun.
        -- destruct Hrun as [Hrun|Hrun]; by injection Hrun as <- <-.
      * unfold channels in Hch.
        destruct (Layer.conv_in_channels _); [done|].
        destruct (Layer.cv1_conv_in_channels _); [done|]. injection Hch as <-.
        destruct Hrun as [Hrun|Hrun]; by injection Hrun as <- <-.
    + unfold py_index in Hidx.
      assert (e' = IndexError) as ->.
      { repeat destruct (decide _); try by injection Hidx.
        all: unfold index in Hidx; destruct (_ !! _); by simplify_eq. }
      destruct Hrun as [Hrun|Hrun]; by injection Hrun as <- <-.
  - destruct (_find_cutoff (graph h s)) as [c|e'] eqn:Hfind.
    + apply (Hcases c); [done|].
      destruct (py_index _ _) as [[name after]|e'] eqn:Hidx.
      * destruct (channels _) as [ch|e'] eqn:Hch; simpl in Hrun.
        -- fold d in Hrun. destruct (DetectionModel.save d) as [l|gs]; simpl in Hrun.
           ++ by destruct Hrun.
           ++ destruct Hrun as [Hrun|Hrun]; by injection Hrun as <- <-.
        -- unfold channels in Hch.
           destruct (Layer.conv_in_channels _); [done|].
           destruct (Layer.cv1_conv_in_channels _); [done|]. injection Hch as <-.
           destruct Hrun as [Hrun|Hrun]; by injection Hrun as <- <-.
      * destruct (default_cutoff_in_range h s c Hfind)
          as (k & name & after & _ & Hidx' & _).
        unfold s, d in Hidx'. congruence.
    + assert (e' = ValueError) as ->.
      { clear -Hfind. unfold _find_cutoff in Hfind. revert Hfind.
        generalize 0%nat. induction (graph h s) as [|m0 model IH]; intros i; simpl.
        - by intros [= <-].
        - destruct (String.eqb _ _); [done|]. apply IH. }
      destruct Hrun as [Hrun|Hrun]; injection Hrun as <- <-; done.
Qed.

Lemma failed_assembly_leaves_base_witness :
  let h1 := (Hydra.init Yolo.base 500 500 None Yolo.store).1 in
  let run := Hydra.init Yolo.base 500 500 None h1 in
  Store.models run.1 = Store.models h1 /\
  Store.sequentials run.1 = Store.sequentials h1 /\
  (forall m, m <> Store.next h1 -> m <> S (Store.next h1) ->
             Store.layers run.1 !! m = Store.layers h1 !! m) /\
  (@None Z = None -> TypeError <> IndexError).
Proof.
  intros h1 run.
  apply (failed_assembly_leaves_base Yolo.base 500 500 None h1 run.1 TypeError).
  left.
  assert (run.2 = Raise TypeError) as Hrun by (vm_compute; reflexivity).
  rewrite <- Hrun. apply surjective_pairing.
Defined.

(** The body of [if classes:] on the example of the specification: the
    candidate 1, of another class than the kept box 0, stays. *)
Lemma different_class_keeps_witness :
  0%nat ∈ [0%nat] <->
  0%nat ∈ @nil nat \/
  exists j cj ci, [1%nat] !! 0%nat = Some j /\ Example.classes !! j = Some cj /\
                  Example.classes !! 0%nat = Some ci /\ cj <> ci.
Proof.
  apply (different_class_keeps Example.classes 0 [1%nat] [] [0%nat]).
  vm_compute. reflexivity.
Defined.

(** ** The hooks of [AHOY] *)

Section DictFacts.
Context {K V : Type} `{EqDecision K}.
Implicit Types (k : K) (v : V) (d : list (K * V)).

Lemma has_key_set_item k v d : has_key k (set_item k v d) = true.
Proof.
  apply bool_decide_eq_true. induction d as [|[k' v'] d IH]; simpl.
  - by left.
  - destruct (decide (k' = k)) as [->|Hne]; simpl; [by left|by right].
Qed.

Lemma has_key_set_item_mono k k' v d :
  has_key k d = true -> has_key k (set_item k' v d) = true.
Proof.
  unfold has_key. rewrite !bool_decide_eq_true.
  induction d as [|[k0 v0] d IH]; simpl.
  - by intros ?%elem_of_nil.
  - destruct (decide (k0 = k')) as [->|Hne]; simpl; [done|].
    intros [->|Hin]%elem_of_cons; [by left|right; by apply IH].
Qed.

Lemma set_item_fresh k v d :
  Forall (fun kv => kv.1 <> k) d -> set_item k v d = d ++ [(k, v)].
Proof.
  induction 1 as [|[k' v'] d Hk _ IH]; simpl; [done|].
  simpl in Hk. destruct (decide (k' = k)) as [|_]; [done|]. by rewrite IH.
Qed.

Lemma del_item_last k v d :
  Forall (fun kv => kv.1 <> k) d -> del_item k (d ++ [(k, v)]) = d.
Proof.
  unfold del_item. induction 1 as [|kv d Hk _ IH]; simpl.
  - rewrite filter_cons_False; [done|]. simpl. by intros [].
  - rewrite filter_cons_True by done. by rewrite IH.
Qed.

End DictFacts.

Lemma register_preprocessing_hook_has (s : AHOY.t) :
  has_key "preprocessing" (AHOY.hooks (AHOY.register_preprocessing_hook s)) = true.
Proof.
  unfold AHOY.register_preprocessing_hook.
  destruct (has_key "preprocessing" (AHOY.hooks s)) eqn:Hhas; [done|].
  simpl. apply has_key_set_item.
Qed.

Lemma register_postprocessing_hook_has (s : AHOY.t) :
  has_key "postprocessing" (AHOY.hooks (AHOY.register_postprocessing_hook s)) = true /\
  (has_key "preprocessing" (AHOY.hooks s) = true ->
   has_key "preprocessing" (AHOY.hooks (AHOY.register_postprocessing_hook s)) = true).
Proof.
  unfold AHOY.register_postprocessing_hook.
  destruct (has_key "postprocessing" (AHOY.hooks s)) eqn:Hhas; [done|].
  simpl. split; [apply has_key_set_item|apply has_key_set_item_mono].
Qed.

(** Registering the input and output hooks once more changes nothing:
    each hook is registered on the module at most once, whatever was
    registered before. *)
Theorem register_io_hooks_idempotent (s : AHOY.t) :
  AHOY.register_io_hooks (AHOY.register_io_hooks s) = AHOY.register_io_hooks s.
Proof.
  unfold AHOY.register_io_hooks.
  set (s1 := AHOY.register_preprocessing_hook s).
  pose proof (register_preprocessing_hook_has s) as Hpre. fold s1 in Hpre.
  destruct (register_postprocessing_hook_has s1) as [Hpost Hkeep].
  specialize (Hkeep Hpre).
  set (s2 := AHOY.register_postprocessing_hook s1) in *.
  unfold AHOY.register_preprocessing_hook at 1. rewrite Hkeep.
  unfold AHOY.register_postprocessing_hook at 1. by rewrite Hpost.
Qed.

(** On a module that holds no handle yet, [register_io_hooks] adds one
    hook to each dictionary of the module, after those that are there,
    and [remove_hooks] then takes out these two and no other: the
    dictionaries are as before and no handle is kept. *)
Theorem remove_hooks_undoes_registration (s : AHOY.t) :
  AHOY.hooks s = [] ->
  Forall (fun kv => (kv.1 < AHOY.next_id s)%nat) (AHOY._forward_pre_hooks s) ->
  Forall (fun kv => (kv.1 < AHOY.next_id s)%nat) (AHOY._forward_hooks s) ->
  let s1 := AHOY.register_io_hooks s in
  let s2 := AHOY.remove_hooks s1 in
  AHOY._forward_pre_hooks s1
    = AHOY._forward_pre_hooks s ++ [(AHOY.next_id s, AHOY._preprocessing_hook)] /\
  AHOY._forward_hooks s1
    = AHOY._forward_hooks s ++ [(S (AHOY.next_id s), AHOY._postprocessing_hook)] /\
  AHOY.hooks s2 = [] /\
  AHOY._forward_pre_hooks s2 = AHOY._forward_pre_hooks s /\
  AHOY._forward_hooks s2 = AHOY._forward_hooks s.
Proof.
  destruct s as [hooks pre fwd n]. simpl. intros -> Hpre Hfwd.
  assert (Forall (fun kv : nat * AHOY.hook => kv.1 <> n) pre) as Hpre'
    by (eapply Forall_impl; [exact Hpre|]; simpl; lia).
  assert (Forall (fun kv : nat * AHOY.hook => kv.1 <> S n) fwd) as Hfwd'
    by (eapply Forall_impl; [exact Hfwd|]; simpl; lia).
  unfold AHOY.register_io_hooks, AHOY.register_preprocessing_hook,
    AHOY.register_postprocessing_hook, AHOY.remove_hooks. simpl.
  rewrite (set_item_fresh n _ pre Hpre'), (set_item_fresh (S n) _ fwd Hfwd').
  unfold AHOY.remove. simpl.
  rewrite (del_item_last n _ pre Hpre'), (del_item_last (S n) _ fwd Hfwd').
  done.
Qed.

Lemma remove_hooks_undoes_registration_witness :
  let s1 := AHOY.register_io_hooks ahoy_fresh in
  let s2 := AHOY.remove_hooks s1 in
  AHOY._forward_pre_hooks s1
    = AHOY._forward_pre_hooks ahoy_fresh
        ++ [(AHOY.next_id ahoy_fresh, AHOY._preprocessing_hook)] /\
  AHOY._forward_hooks s1
    = AHOY._forward_hooks ahoy_fresh
        ++ [(S (AHOY.next_id ahoy_fresh), AHOY._postprocessing_hook)] /\
  AHOY.hooks s2 = [] /\
  AHOY._forward_pre_hooks s2 = AHOY._forward_pre_hooks ahoy_fresh /\
  AHOY._forward_hooks s2 = AHOY._forward_hooks ahoy_fresh.
Proof.
  apply (remove_hooks_undoes_registration ahoy_fresh).
  - reflexivity.
  - constructor.
  - repeat constructor.
Defined.

(** ** The presentation adapters: the other modes *)

(** Any output mode other than "tf" and "qa" gives the three lists of
    views, [det[:, :4]], [det[:, 4]] and [det[:, 5]] of each detection
    array of six columns or more, and writes nothing. *)
Theorem to_mode_raw_views (dets : list Np.ndarray) (output_mode : string)
        (orig_shape : Z * Z) (cls_map : option (gmap Z string))
        (mem : Np.memory) :
  output_mode <> "tf"%string -> output_mode <> "qa"%string ->
  Forall (fun det => (6 <= Np.width det)%nat) dets ->
  AHOYv5.to_mode dets output_mode orig_shape cls_map mem
  = (mem, Ok (AHOYv5.Raw (map (fun det => (det_views det).1.1) dets)
                         (map (fun det => (det_views det).1.2) dets)
                         (map (fun det => (det_views det).2) dets))).
Proof.
  intros Htf Hqa Hw.
  destruct (to_mode_views dets Hw) as (Hscores & Hclasses & _).
  unfold AHOYv5.to_mode.
  unfold sbind at 1. unfold lift at 1. rewrite Hscores.
  unfold sbind at 1. unfold lift at 1. rewrite Hclasses.
  destruct (String.eqb_spec output_mode "tf") as [|_]; [done|].
  destruct (String.eqb_spec output_mode "qa") as [|_]; [done|].
  reflexivity.
Qed.

Lemma to_mode_raw_views_witness :
  AHOYv5.to_mode [Detections.det] "raw" Detections.orig_shape None
    Detections.memory
  = (Detections.memory,
     Ok (AHOYv5.Raw (map (fun det => (det_views det).1.1) [Detections.det])
                    (map (fun det => (det_views det).1.2) [Detections.det])
                    (map (fun det => (det_views det).2) [Detections.det]))).
Proof.
  apply (to_mode_raw_views [Detections.det] "raw" Detections.orig_shape None
           Detections.memory).
  - discriminate.
  - discriminate.
  - repeat constructor.
Defined.

Lemma on_box_lookup_total_other (o : nat) (g : box -> box) (r : list Qc) (k : nat) :
  (o + 4 <= k)%nat -> Np.on_box o g r !!! k = r !!! k.
Proof.
  intros Hk. rewrite !list_lookup_total_alt.
  by rewrite on_box_other by (by right).
Qed.

(** Normalising the boxes of a detection array leaves the entries that
    [to_qa] makes of it as they are, but for what the row views show. *)
Lemma qa_of_detection_map_boxes (cls_map : gmap Z string) (mem : Np.memory)
      (det : Np.ndarray) (g : box -> box) :
  qa_of_detection cls_map (Np.map_boxes (Np.slice_columns det 4) g mem) det
  = qa_of_detection cls_map mem det.
Proof.
  unfold qa_of_detection, Np.entries, det_views. cbn [fst snd Np.column_buffer Np.column_at].
  assert (Np.rows (Np.map_boxes (Np.slice_columns det 4) g mem) det
          = map (Np.on_box (Np.offset det) g) (Np.rows mem det)) as Hrows
    by apply (rows_map_boxes (Np.slice_columns det 4)).
  unfold Np.rows in Hrows. cbn [Np.buffer Np.slice_columns] in Hrows.
  unfold Np.rows. rewrite Hrows, length_map, !map_map.
  assert (forall k, (Np.offset det + 4 <= k)%nat ->
            map (fun x => Np.on_box (Np.offset det) g x !!! k) (mem !!! Np.buffer det)
            = map (fun r => r !!! k) (mem !!! Np.buffer det)) as Hcol.
  { intros k Hk. apply map_ext. intros r. by apply on_box_lookup_total_other. }
  by rewrite !Hcol by lia.
Qed.

Lemma qa_of_detection_frame (cls_map : gmap Z string) (mem mem1 : Np.memory)
      (det : Np.ndarray) :
  mem1 !! Np.buffer det = mem !! Np.buffer det ->
  qa_of_detection cls_map mem1 det = qa_of_detection cls_map mem det.
Proof.
  intros Heq. unfold qa_of_detection, Np.entries, Np.rows, det_views.
  cbn [fst snd Np.column_buffer Np.column_at].
  by rewrite !lookup_total_alt, Heq.
Qed.

Lemma to_qa_loop_entries (cls_map : gmap Z string) (orig_shape : Z * Z)
      (dets : list Np.ndarray) :
  forall (mem mem' : Np.memory) (props : list (list AHOYv5.qa_entry)),
    NoDup (map Np.buffer dets) ->
    (forall det, det ∈ dets ->
       (6 <= Np.width det)%nat /\ Np.shaped mem det) ->
    AHOYv5.to_qa_loop cls_map (map det_views dets) orig_shape mem
      = (mem', Ok props) ->
    Forall2 (fun det es => qa_of_detection cls_map mem det = Ok es) dets props.
Proof.
  induction dets as [|det dets IH]; intros mem mem' props Hnodup Hdets.
  - intros [= _ <-]. constructor.
  - apply NoDup_cons in Hnodup as [Hnotin Hnodup].
    destruct (Hdets det) as [Hw Hshaped]; [by left|].
    cbn [map]. unfold det_views at 1.
    cbn [AHOYv5.to_qa_loop]. unfold sbind at 1.
    rewrite xyxy_to_xyxyn_effect;
      [|unfold Np.slice_columns; cbn [Np.width]; lia|done].
    set (mem1 := Np.map_boxes (Np.slice_columns det 4)
                   (InPlace.normalised orig_shape) mem).
    unfold sbind at 1. unfold Np.iter_rows at 1. unfold sbind at 1.
    assert (AHOYv5.qa_entries cls_map
              (zip (zip (map (fun r => Np.Row (Np.buffer (Np.slice_columns det 4)) r
                                         (Np.offset (Np.slice_columns det 4))
                                         (Np.width (Np.slice_columns det 4)))
                             (seq 0 (length (Np.rows mem1 (Np.slice_columns det 4)))))
                        (Np.entries mem1 (Np.Column (Np.buffer det) (Np.offset det + 4))))
                   (Np.entries mem1 (Np.Column (Np.buffer det) (Np.offset det + 5))))
            = qa_of_detection cls_map mem det) as ->.
    { rewrite <- (qa_of_detection_map_boxes cls_map mem det
                    (InPlace.normalised orig_shape)).
      fold mem1. unfold qa_of_detection, det_views.
      cbn [fst snd Np.slice_columns Np.buffer Np.offset Np.width].
      by replace (Nat.min 4 (Np.width det)) with 4%nat by lia. }
    destruct (qa_of_detection cls_map mem det) as [es|e] eqn:Hes; [|done].
    unfold sbind at 1.
    destruct (AHOYv5.to_qa_loop cls_map (map det_views dets) orig_shape mem1)
      as [mem2 [ps|e]] eqn:Hloop; [|done].
    unfold sret. intros [= <- <-]. constructor; [done|].
    assert (forall det', det' ∈ dets ->
              mem1 !! Np.buffer det' = mem !! Np.buffer det') as Hframe.
    { intros det' Hdet'. unfold mem1. apply map_boxes_lookup_ne.
      cbn [Np.slice_columns Np.buffer]. intros Heq. apply Hnotin.
      rewrite <- Heq. apply list_elem_of_fmap. by exists det'. }
    assert (Forall2 (fun det es => qa_of_detection cls_map mem1 det = Ok es)
                    dets ps) as Htail.
    { apply (IH mem1 mem2 ps Hnodup); [|done].
      intros det' Hdet'. destruct (Hdets det') as [Hw' Hs']; [by right|].
      split; [done|]. unfold Np.shaped, Np.rows in *.
      by rewrite lookup_total_alt, (Hframe det' Hdet'), <- lookup_total_alt. }
    apply Forall2_same_length_lookup. apply Forall2_same_length_lookup in Htail.
    destruct Htail as [Hlen Htail]. split; [done|].
    intros k det' es' Hk Hes'. rewrite <- (Htail k det' es' Hk Hes').
    symmetry. apply qa_of_detection_frame, Hframe.
    by eapply list_elem_of_lookup_2.
Qed.

(** In the mode "qa" a run that returns gives, for each detection array,
    the entries of its rows in order: the box is a view of the first four
    columns of the row, and the class name, the class integer and the
    score are those that the array held before the call. *)
Theorem to_mode_qa_entries (dets : list Np.ndarray) (orig_shape : Z * Z)
        (cls_map : gmap Z string) (mem mem' : Np.memory)
        (out : AHOYv5.presentation) :
  NoDup (map Np.buffer dets) ->
  (forall det, det ∈ dets -> Np.shaped mem det) ->
  AHOYv5.to_mode dets "qa" orig_shape (Some cls_map) mem = (mem', Ok out) ->
  exists props,
    out = AHOYv5.QA props /\
    Forall2 (fun det es => qa_of_detection cls_map mem det = Ok es) dets props.
Proof.
  intros Hnodup Hshaped.
  destruct (decide (Forall (fun d => (6 <= Np.width d)%nat) dets)) as [Hw|Hnarrow].
  2: { rewrite to_mode_narrow; [done|].
       apply not_Forall_Exists in Hnarrow; [|apply _].
       apply Exists_exists in Hnarrow as (d & Hd & Hwd).
       exists d. split; [done|]. simpl in Hwd. lia. }
  destruct (to_mode_views dets Hw) as (Hscores & Hclasses & Hitems).
  unfold AHOYv5.to_mode.
  unfold sbind at 1. unfold lift at 1. rewrite Hscores.
  unfold sbind at 1. unfold lift at 1. rewrite Hclasses.
  change ("qa" =? "tf")%string with false. rewrite String.eqb_refl.
  unfold AHOYv5.to_qa. destruct (decide (cls_map = ∅)); [done|].
  rewrite Hitems. unfold sbind.
  destruct (AHOYv5.to_qa_loop cls_map (map det_views dets) orig_shape mem)
    as [mem1 [props|e]] eqn:Hloop; [|done].
  unfold sret. intros [= <- <-]. exists props. split; [done|].
  apply (to_qa_loop_entries cls_map orig_shape dets mem mem1 props Hnodup);
    [|done].
  intros det Hdet. split; [|by apply Hshaped].
  by apply (proj1 (Forall_forall _ _) Hw).
Qed.

Lemma to_mode_qa_entries_witness :
  let run := AHOYv5.to_mode [Detections.det] "qa" Detections.orig_shape
               (Some Detections.cls_map) Detections.memory in
  exists props,
    AHOYv5.QA [[AHOYv5.Build_qa_entry (Np.Row 0%nat 0%nat 0%nat 4%nat) "boat" 0 (Num.frac 9 10);
                AHOYv5.Build_qa_entry (Np.Row 0%nat 1%nat 0%nat 4%nat) "buoy" 1 (Num.frac 8 10)]]
      = AHOYv5.QA props /\
    Forall2 (fun det es =>
               qa_of_detection Detections.cls_map Detections.memory det = Ok es)
            [Detections.det] props.
Proof.
  intros run.
  apply (to_mode_qa_entries [Detections.det] Detections.orig_shape
           Detections.cls_map Detections.memory run.1).
  - repeat constructor. by intros ?%elem_of_nil.
  - intros det ->%list_elem_of_singleton. apply detections_shaped.
  - assert (run.2 = Ok (AHOYv5.QA
              [[AHOYv5.Build_qa_entry (Np.Row 0%nat 0%nat 0%nat 4%nat) "boat" 0 (Num.frac 9 10);
                AHOYv5.Build_qa_entry (Np.Row 0%nat 1%nat 0%nat 4%nat) "buoy" 1 (Num.frac 8 10)]]))
      as Hrun by (vm_compute; reflexivity).
    rewrite <- Hrun. apply surjective_pairing.
Defined.

(** ** The result slots by mode *)

Section SlotsByMode.
Context {T : Type}.
Variable call : Layer.t -> value T -> result (value T).













End SlotsByMode.



(** ** The adapters return *)

Lemma qa_entries_total (cls_map : gmap Z string)
      (items : list (Np.row * Qc * Qc)) :
  (forall item, item ∈ items ->
     exists name, AHOYv5.lookup_class cls_map item.2 = Ok name) ->
  exists es, AHOYv5.qa_entries cls_map items = Ok es.
Proof.
  unfold AHOYv5.qa_entries.
  induction items as [|[[b s] c] items IH]; intros Hitems; [by eexists|].
  rewrite mapM_cons.
  destruct (Hitems (b, s, c)) as [name Hname]; [by left|].
  simpl in Hname. rewrite Hname. cbn [mbind result_bind].
  destruct IH as [es ->]; [|by eexists].
  intros item Hitem. apply Hitems. by right.
Qed.

(** The entries of a detection array whose classes are all keys of the
    class mapping can be made. *)
Lemma qa_of_detection_total (cls_map : gmap Z string) (mem : Np.memory)
      (det : Np.ndarray) :
  (forall c, c ∈ Np.entries mem (Np.Column (Np.buffer det) (Np.offset det + 5)) ->
     exists name, AHOYv5.lookup_class cls_map c = Ok name) ->
  exists es, qa_of_detection cls_map mem det = Ok es.
Proof.
  intros Hcls. apply qa_entries_total. intros [[b s] c] Hitem.
  apply Hcls. by apply elem_of_zip_r in Hitem.
Qed.

Lemma to_qa_loop_total (cls_map : gmap Z string) (orig_shape : Z * Z)
      (dets : list Np.ndarray) :
  forall mem : Np.memory,
    NoDup (map Np.buffer dets) ->
    (forall det, det ∈ dets ->
       (6 <= Np.width det)%nat /\ Np.shaped mem det /\
       exists es, qa_of_detection cls_map mem det = Ok es) ->
    exists mem' props,
      AHOYv5.to_qa_loop cls_map (map det_views dets) orig_shape mem
      = (mem', Ok props).
Proof.
  induction dets as [|det dets IH]; intros mem Hnodup Hdets; [by eexists _, _|].
  apply NoDup_cons in Hnodup as [Hnotin Hnodup].
  destruct (Hdets det) as (Hw & Hshaped & es & Hes); [by left|].
  cbn [map]. unfold det_views at 1.
  cbn [AHOYv5.to_qa_loop]. unfold sbind at 1.
  rewrite xyxy_to_xyxyn_effect;
    [|unfold Np.slice_columns; cbn [Np.width]; lia|done].
  set (mem1 := Np.map_boxes (Np.slice_columns det 4)
                 (InPlace.normalised orig_shape) mem).
  unfold sbind at 1. unfold Np.iter_rows at 1. unfold sbind at 1.
  assert (AHOYv5.qa_entries cls_map
            (zip (zip (map (fun r => Np.Row (Np.buffer (Np.slice_columns det 4)) r
                                       (Np.offset (Np.slice_columns det 4))
                                       (Np.width (Np.slice_columns det 4)))
                           (seq 0 (length (Np.rows mem1 (Np.slice_columns det 4)))))
                      (Np.entries mem1 (Np.Column (Np.buffer det) (Np.offset det + 4))))
                 (Np.entries mem1 (Np.Column (Np.buffer det) (Np.offset det + 5))))
          = qa_of_detection cls_map mem det) as ->.
  { rewrite <- (qa_of_detection_map_boxes cls_map mem det
                  (InPlace.normalised orig_shape)).
    fold mem1. unfold qa_of_detection, det_views.
    cbn [fst snd Np.slice_columns Np.buffer Np.offset Np.width].
    by replace (Nat.min 4 (Np.width det)) with 4%nat by lia. }
  rewrite Hes. unfold sbind at 1.
  assert (forall det', det' ∈ dets ->
            mem1 !! Np.buffer det' = mem !! Np.buffer det') as Hframe.
  { intros det' Hdet'. unfold mem1. apply map_boxes_lookup_ne.
    cbn [Np.slice_columns Np.buffer]. intros Heq. apply Hnotin.
    rewrite <- Heq. apply list_elem_of_fmap. by exists det'. }
  destruct (IH mem1 Hnodup) as (mem2 & ps & ->); [|by eexists _, _].
  intros det' Hdet'. destruct (Hdets det') as (Hw' & Hs' & es' & Hes'); [by right|].
  split; [done|]. split.
  - unfold Np.shaped, Np.rows in *.
    by rewrite lookup_total_alt, (Hframe det' Hdet'), <- lookup_total_alt.
  - exists es'. rewrite <- Hes'. by apply qa_of_detection_frame, Hframe.
Qed.

(** In the modes "tf" and "qa" [to_mode] returns on detection arrays of
    six columns or more in distinct buffers; in the mode "qa" with a
    class mapping that is not empty and has every class of the arrays. *)
Lemma to_mode_returns (dets : list Np.ndarray) (orig_shape : Z * Z)
      (cls_map : option (gmap Z string)) (mem : Np.memory) :
  NoDup (map Np.buffer dets) ->
  (forall det, det ∈ dets ->
     (6 <= Np.width det)%nat /\ is_Some (mem !! Np.buffer det) /\
     Np.shaped mem det) ->
  (exists mem' props,
     AHOYv5.to_mode dets "tf" orig_shape cls_map mem
     = (mem', Ok (AHOYv5.TF props))) /\
  (forall m,
     cls_map = Some m -> m <> ∅ ->
     (forall det c, det ∈ dets ->
        c ∈ Np.entries mem (Np.Column (Np.buffer det) (Np.offset det + 5)) ->
        exists name, AHOYv5.lookup_class m c = Ok name) ->
     exists mem' props,
       AHOYv5.to_mode dets "qa" orig_shape cls_map mem
       = (mem', Ok (AHOYv5.QA props))).
Proof.
  intros Hnodup Hdets.
  assert (Forall (fun det => (6 <= Np.width det)%nat) dets) as Hw.
  { apply Forall_forall. intros det Hdet. by destruct (Hdets det Hdet). }
  destruct (to_mode_views dets Hw) as (Hscores & Hclasses & Hitems).
  split.
  - unfold AHOYv5.to_mode.
    unfold sbind at 1. unfold lift at 1. rewrite Hscores.
    unfold sbind at 1. unfold lift at 1. rewrite Hclasses.
    rewrite String.eqb_refl. unfold AHOYv5.to_tf. rewrite Hitems.
    destruct (to_tf_loop_overwrites orig_shape (map det_views dets) mem)
      as (mem' & props & Hrun & _).
    + apply Forall_forall. intros a Ha.
      apply list_elem_of_fmap in Ha as (a1 & -> & Ha).
      apply list_elem_of_fmap in Ha as (item & -> & Ha).
      apply list_elem_of_fmap in Ha as (det & -> & Hdet).
      destruct (Hdets det Hdet) as (Hwd & Hsome & Hshaped).
      split; [unfold det_views, Np.slice_columns; cbn [fst Np.width]; lia|]. done.
    + by rewrite det_views_buffers.
    + exists mem', props. unfold sbind, sret. by rewrite Hrun.
  - intros m -> Hm Hcls. unfold AHOYv5.to_mode.
    unfold sbind at 1. unfold lift at 1. rewrite Hscores.
    unfold sbind at 1. unfold lift at 1. rewrite Hclasses.
    change ("qa" =? "tf")%string with false. rewrite String.eqb_refl.
    unfold AHOYv5.to_qa. destruct (decide (m = ∅)); [done|].
    rewrite Hitems.
    destruct (to_qa_loop_total m orig_shape dets mem Hnodup)
      as (mem' & props & Hrun).
    + intros det Hdet. destruct (Hdets det Hdet) as (Hwd & _ & Hshaped).
      split; [done|]. split; [done|].
      apply qa_of_detection_total. intros c Hc. by apply (Hcls det).
    + exists mem', props. unfold sbind, sret. by rewrite Hrun.
Qed.

(** C10. On an array view [a] of at least four columns, [xyxy_to_xyxyn],
    [xyxyn_to_xyxy] and [scale_boxes] write their result into the buffer of
    [a] and return [a] itself, and [clip_boxes] writes it and returns
    nothing: afterwards the caller's view shows the transformed boxes.
    [to_mode] hands [to_tf] and [to_qa] the views [det[:, :4]] of the
    detections, so after either adapter the first four columns of each
    detection array hold the normalised boxes in place of the pixel
    boxes.  Both adapters do return: on detection arrays of six columns
    or more in distinct buffers the mode "tf" returns its proposals, and
    so does the mode "qa" with a class mapping that is not empty and has
    every class of the arrays, each leaving the normalised boxes in the
    arrays. *)
Theorem boxes_transformed_in_place :
  (forall (a : Np.ndarray) (mem : Np.memory) (shape from_shape to_shape : Z * Z),
     (4 <= Np.width a)%nat ->
     Np.shaped mem a ->
     InPlace.xyxy_to_xyxyn a shape mem
       = (Np.map_boxes a (InPlace.normalised shape) mem, Ok a) /\
     InPlace.xyxyn_to_xyxy a shape mem
       = (Np.map_boxes a (InPlace.denormalised shape) mem, Ok a) /\
     InPlace.clip_boxes a shape mem
       = (Np.map_boxes a (InPlace.clipped shape) mem, Ok tt) /\
     (to_shape.1 <> 0 -> to_shape.2 <> 0 ->
      InPlace.scale_boxes a from_shape to_shape mem
        = (Np.map_boxes a (InPlace.rescaled from_shape to_shape) mem, Ok a)) /\
     (forall g, Np.boxes (Np.map_boxes a g mem) a = map g (Np.boxes mem a))) /\
  (forall (dets : list Np.ndarray) (output_mode : string) (orig_shape : Z * Z)
          (cls_map : option (gmap Z string)) (mem mem' : Np.memory)
          (out : AHOYv5.presentation),
     output_mode = "tf" \/ output_mode = "qa" ->
     NoDup (map Np.buffer dets) ->
     (forall det, det ∈ dets ->
        is_Some (mem !! Np.buffer det) /\ Np.shaped mem det) ->
     AHOYv5.to_mode dets output_mode orig_shape cls_map mem = (mem', Ok out) ->
     forall det, det ∈ dets ->
       Np.boxes mem' (Np.slice_columns det 4)
       = map (InPlace.normalised orig_shape)
             (Np.boxes mem (Np.slice_columns det 4))) /\
  (forall (dets : list Np.ndarray) (orig_shape : Z * Z)
          (cls_map : option (gmap Z string)) (mem : Np.memory),
     NoDup (map Np.buffer dets) ->
     (forall det, det ∈ dets ->
        (6 <= Np.width det)%nat /\ is_Some (mem !! Np.buffer det) /\
        Np.shaped mem det) ->
     (exists mem' props,
        AHOYv5.to_mode dets "tf" orig_shape cls_map mem
          = (mem', Ok (AHOYv5.TF props)) /\
        forall det, det ∈ dets ->
          Np.boxes mem' (Np.slice_columns det 4)
          = map (InPlace.normalised orig_shape)
                (Np.boxes mem (Np.slice_columns det 4))) /\
     (forall m,
        cls_map = Some m -> m <> ∅ ->
        (forall det c, det ∈ dets ->
           c ∈ Np.entries mem (Np.Column (Np.buffer det) (Np.offset det + 5)) ->
           exists name, AHOYv5.lookup_class m c = Ok name) ->
        exists mem' props,
          AHOYv5.to_mode dets "qa" orig_shape cls_map mem
            = (mem', Ok (AHOYv5.QA props)) /\
          forall det, det ∈ dets ->
            Np.boxes mem' (Np.slice_columns det 4)
            = map (InPlace.normalised orig_shape)
                  (Np.boxes mem (Np.slice_columns det 4)))).
Proof.
  split; [|split].
  - intros a mem shape from_shape to_shape Hw Hs.
    split; [by apply xyxy_to_xyxyn_effect|].
    split; [by apply xyxyn_to_xyxy_effect|].
    split; [by apply clip_boxes_effect|].
    split; [by apply scale_boxes_effect|].
    intros g. by apply boxes_map_boxes.
  - apply to_mode_overwrites.
  - intros dets orig_shape cls_map mem Hnodup Hdets.
    assert (forall det, det ∈ dets ->
              is_Some (mem !! Np.buffer det) /\ Np.shaped mem det) as Hdets'.
    { intros det Hdet. by destruct (Hdets det Hdet) as (_ & ? & ?). }
    destruct (to_mode_returns dets orig_shape cls_map mem Hnodup Hdets)
      as [(mem' & props & Htf) Hqa].
    split.
    + exists mem', props. split; [done|].
      apply (to_mode_overwrites dets "tf" orig_shape cls_map mem mem'
               (AHOYv5.TF props)); [by left|done..].
    + intros m Hm Hne Hcls.
      destruct (Hqa m Hm Hne Hcls) as (mem2 & props2 & Hrun).
      exists mem2, props2. split; [done|].
      apply (to_mode_overwrites dets "qa" orig_shape cls_map mem mem2
               (AHOYv5.QA props2)); [by right|done..].
Qed.

Lemma boxes_transformed_in_place_witness :
  let a := Np.slice_columns Detections.det 4 in
  let normalised :=
    map (InPlace.normalised Detections.orig_shape)
        (Np.boxes Detections.memory a) in
  InPlace.xyxy_to_xyxyn a Detections.orig_shape Detections.memory
    = (Np.map_boxes a (InPlace.normalised Detections.orig_shape)
         Detections.memory, Ok a) /\
  (exists mem' props,
     AHOYv5.to_mode [Detections.det] "tf" Detections.orig_shape
       (Some Detections.cls_map) Detections.memory
     = (mem', Ok (AHOYv5.TF props)) /\
     Np.boxes mem' a = normalised) /\
  (exists mem' props,
     AHOYv5.to_mode [Detections.det] "qa" Detections.orig_shape
       (Some Detections.cls_map) Detections.memory
     = (mem', Ok (AHOYv5.QA props)) /\
     Np.boxes mem' a = normalised).
Proof.
  intros a normalised.
  destruct boxes_transformed_in_place as (Htransforms & _ & Hadapters).
  split.
  - apply (Htransforms (Np.slice_columns Detections.det 4) Detections.memory
             Detections.orig_shape Detections.orig_shape Detections.orig_shape).
    + simpl. lia.
    + apply detections_shaped.
  - destruct (Hadapters [Detections.det] Detections.orig_shape
                (Some Detections.cls_map) Detections.memory)
      as [(mem1 & props1 & Htf & Hboxes1) Hqa].
    + repeat constructor. by intros ?%elem_of_nil.
    + intros det ->%list_elem_of_singleton.
      split; [simpl; lia|]. split; [by eexists|apply detections_shaped].
    + split.
      * exists mem1, props1. split; [exact Htf|].
        apply Hboxes1. by apply list_elem_of_singleton.
      * destruct (Hqa Detections.cls_map eq_refl)
          as (mem2 & props2 & Hrun & Hboxes2).
        -- intros Hempty.
           assert (Detections.cls_map !! 0 = Some "boat"%string) as Hboat
             by (vm_compute; reflexivity).
           by rewrite Hempty in Hboat.
        -- intros det c ->%list_elem_of_singleton.
           replace (Np.entries Detections.memory
                      (Np.Column (Np.buffer Detections.det)
                         (Np.offset Detections.det + 5)))
             with [Num.of_Z 0; Num.of_Z 1] by (vm_compute; reflexivity).
           intros [->|[->|[]%elem_of_nil]%elem_of_cons]%elem_of_cons;
             eexists; vm_compute; reflexivity.
        -- exists mem2, props2. split; [exact Hrun|].
           apply Hboxes2. by apply list_elem_of_singleton.
Defined.
